(** * jsonpath: the expression compiler and the tree evaluator

    A shallow embedding of [src/jsonpath/__init__.py] (class [JSONPath]) and
    the properties of its compiler ([_parse_expr], [__init__]) and of its
    evaluator ([parse], [_trace], [_traverse], [_filter], [_sorter],
    [_getattr]).

    Conventions of the model.
    - Python [str] values are [string]s over 7-bit ASCII text; [\w], [\d]
      and [str.isdigit] are the ASCII classes.
    - A document is a [json] value; a [dict] is an association list in
      insertion order (Python dictionaries iterate in that order), whose
      keys are unique in every well-formed document ([wf_json]).
    - Numbers are the integers ([Z]); floating point values are left out.
    - [int] of a string of digits is the number it writes, however long
      the string is: the limit that Python puts on the length of a
      decimal string is left out.
    - The predicate of a filter is evaluated by a function [py_eval] that
      is left open; it stands for Python's [eval] followed by the truth
      test of the value, and gives the exception of either or the truth
      value.
    - A call that may raise returns a value of [exn + A], or, for the
      evaluator, an outcome [Out] that carries what was appended to
      [self.result], what was sent to [LOG.error], and the exception that
      ended the call, if any. *)

From Stdlib Require Import List Bool Arith ZArith Lia String Ascii.
From Stdlib Require Import DecimalString DecimalNat.
From Stdlib Require Import Permutation Sorted.
Import ListNotations.
Local Open Scope string_scope.
Local Open Scope list_scope.
Local Open Scope nat_scope.

Set Implicit Arguments.

(* ================================================================== *)
(** ** Strings *)

Module Str.

(** [s.startswith(p)] *)
Fixpoint startswith (p s : string) : bool :=
  match p with
  | EmptyString => true
  | String a p' =>
      match s with
      | EmptyString => false
      | String b s' => Ascii.eqb a b && startswith p' s'
      end
  end.

(** [s.endswith(suf)]: some suffix of [s] is [suf]. *)
Fixpoint endswith (suf s : string) : bool :=
  (s =? suf)%string ||
  match s with
  | EmptyString => false
  | String _ s' => endswith suf s'
  end.

(** [s[n:]] *)
Fixpoint drop (n : nat) (s : string) : string :=
  match n, s with
  | O, _ => s
  | S _, EmptyString => EmptyString
  | S k, String _ s' => drop k s'
  end.

(** [s[:-1]] *)
Fixpoint drop_last (s : string) : string :=
  match s with
  | EmptyString => EmptyString
  | String _ EmptyString => EmptyString
  | String c s' => String c (drop_last s')
  end.

(** [s[n:-1]] *)
Definition strip (n : nat) (s : string) : string := drop_last (drop n s).

(** [s.split(sep)] for a one-character separator: never empty. *)
Fixpoint split (sep : ascii) (s : string) : list string :=
  match s with
  | EmptyString => [EmptyString]
  | String c s' =>
      if Ascii.eqb c sep then EmptyString :: split sep s'
      else match split sep s' with
           | h :: t => String c h :: t
           | [] => [String c EmptyString]
           end
  end.

(** [c in s] for a character. *)
Fixpoint mem (c : ascii) (s : string) : bool :=
  match s with
  | EmptyString => false
  | String a s' => Ascii.eqb a c || mem c s'
  end.

Fixpoint forallb (p : ascii -> bool) (s : string) : bool :=
  match s with
  | EmptyString => true
  | String a s' => p a && forallb p s'
  end.

(** The longest prefix whose characters satisfy [p]. *)
Fixpoint take_while (p : ascii -> bool) (s : string) : string :=
  match s with
  | EmptyString => EmptyString
  | String a s' => if p a then String a (take_while p s') else EmptyString
  end.

Fixpoint drop_while (p : ascii -> bool) (s : string) : string :=
  match s with
  | EmptyString => EmptyString
  | String a s' => if p a then drop_while p s' else s
  end.

Definition is_digit (c : ascii) : bool :=
  let n := nat_of_ascii c in (48 <=? n) && (n <=? 57).

(** [\w] on ASCII text. *)
Definition is_word (c : ascii) : bool :=
  let n := nat_of_ascii c in
  is_digit c || ((65 <=? n) && (n <=? 90)) || ((97 <=? n) && (n <=? 122))
  || (n =? 95).

(** [s.isdigit()] *)
Definition isdigit (s : string) : bool :=
  negb (s =? "")%string && forallb is_digit s.

(** [int(s)] on a string of digits (leading zeros allowed). *)
Definition int (s : string) : nat :=
  match NilEmpty.uint_of_string s with
  | Some d => Nat.of_uint d
  | None => 0
  end.

(** [str(n)], also what an f-string does to an [int]. *)
Definition of_nat (n : nat) : string := NilEmpty.string_of_uint (Nat.to_uint n).

Definition newline : ascii := ascii_of_nat 10.

End Str.

(* ================================================================== *)
(** ** Exceptions *)

Inductive exn : Type :=
| IndexError
| TypeError
| ValueError
| SyntaxError
| AttributeError
| KeyError
| NameError
| ExprSyntaxError.

Definition exn_eqb (a b : exn) : bool :=
  match a, b with
  | IndexError, IndexError | TypeError, TypeError | ValueError, ValueError
  | SyntaxError, SyntaxError | AttributeError, AttributeError
  | KeyError, KeyError | NameError, NameError
  | ExprSyntaxError, ExprSyntaxError => true
  | _, _ => false
  end.

(** The result of a call that may raise. *)
Definition res (A : Type) : Type := (exn + A)%type.
Definition Ok {A} (a : A) : res A := inr a.
Definition Raise {A} (e : exn) : res A := inl e.

Definition bind {A B} (m : res A) (f : A -> res B) : res B :=
  match m with
  | inl e => inl e
  | inr a => f a
  end.

Notation "x <- m ;; k" := (bind m (fun x => k))
  (at level 61, m at next level, right associativity).

(* ================================================================== *)
(** ** The expression compiler *)

Module Compiler.

(** [JSONPath.SEP] *)
Definition SEP : ascii := ";"%char.
Definition SEPs : string := String SEP EmptyString.

(** [JSONPath.subx]: a [defaultdict(list)] bound in the class body, so it
    is one object shared by every instance; only the keys ["#Q"] and
    ["#B"] are ever used. *)
Record subx : Type := mkSubx { tabQ : list string; tabB : list string }.

Definition subx0 : subx := mkSubx [] [].

(** The group [(.*?)] followed by the closing character: the characters
    up to the first [cls], none of which is a newline. *)
Fixpoint find_close (cls : ascii) (s : string) : option string :=
  match s with
  | EmptyString => None
  | String c s' =>
      if Ascii.eqb c cls then Some EmptyString
      else if Ascii.eqb c Str.newline then None
      else option_map (String c) (find_close cls s')
  end.

(** [re.sub] with [REP_PICKUP_QUOTE] / [REP_PICKUP_BRACKET] and the
    callbacks [_f_pickup_quote] / [_f_pickup_bracket]: every match
    [opn content cls] is replaced by [lead ++ tag ++ str(n)] with [n] the
    length of the table before [content] is appended to it.  [skip]
    counts the characters of the current match still to be passed over. *)
Fixpoint pickup (opn cls : ascii) (lead tag : string)
         (s : string) (skip : nat) (tab : list string) : string * list string :=
  match s with
  | EmptyString => (EmptyString, tab)
  | String c s' =>
      match skip with
      | S k => pickup opn cls lead tag s' k tab
      | O =>
          if Ascii.eqb c opn then
            match find_close cls s' with
            | Some content =>
                let n := List.length tab in
                let '(out, tab') :=
                  pickup opn cls lead tag s' (S (String.length content)) (tab ++ [content]) in
                ((lead ++ tag ++ Str.of_nat n ++ out)%string, tab')
            | None =>
                let '(out, tab') := pickup opn cls lead tag s' 0 tab in
                (String c out, tab')
            end
          else
            let '(out, tab') := pickup opn cls lead tag s' 0 tab in
            (String c out, tab')
      end
  end.

Definition pickup_quote (s : string) (tab : list string) :=
  pickup "'"%char "'"%char "" "#Q" s 0 tab.

Definition pickup_bracket (s : string) (tab : list string) :=
  pickup "["%char "]"%char "." "#B" s 0 tab.

(** [REP_DOUBLEDOT.sub(";..;", expr)]: from left to right, two dots in a
    row become [";..;"]. *)
Fixpoint sub_doubledot (s : string) : string :=
  match s with
  | EmptyString => EmptyString
  | String c s' =>
      match s' with
      | EmptyString => String c EmptyString
      | String c' s'' =>
          if Ascii.eqb c "."%char && Ascii.eqb c' "."%char
          then (";..;" ++ sub_doubledot s'')%string
          else String c (sub_doubledot s')
      end
  end.

Definition next_is_dot (s : string) : bool :=
  match s with
  | String c _ => Ascii.eqb c "."%char
  | EmptyString => false
  end.

(** [REP_DOT.sub(";", expr)]: a dot with no dot before it and none after
    it; [prev_dot] says whether the previous character was a dot. *)
Fixpoint sub_dot (prev_dot : bool) (s : string) : string :=
  match s with
  | EmptyString => EmptyString
  | String c s' =>
      if Ascii.eqb c "."%char then
        (if negb prev_dot && negb (next_is_dot s')
         then String SEP (sub_dot true s')
         else String c (sub_dot true s'))
      else String c (sub_dot false s')
  end.

(** [re.sub] with [REP_PUTBACK_QUOTE] / [REP_PUTBACK_BRACKET]: a match is
    ['#'], the tag character and the longest run of digits after it (one
    at least); the callback indexes the table and raises [IndexError]
    out of range. *)
Fixpoint putback (tagc : ascii) (tab : list string) (s : string) (skip : nat)
  : res string :=
  match s with
  | EmptyString => Ok EmptyString
  | String c s' =>
      match skip with
      | S k => putback tagc tab s' k
      | O =>
          let literal := out <- putback tagc tab s' 0 ;; Ok (String c out) in
          if Ascii.eqb c "#"%char then
            match s' with
            | String t s'' =>
                let ds := Str.take_while Str.is_digit s'' in
                if Ascii.eqb t tagc && negb (ds =? "")%string then
                  match nth_error tab (Str.int ds) with
                  | Some lit =>
                      out <- putback tagc tab s' (S (String.length ds)) ;;
                      Ok (lit ++ out)%string
                  | None => Raise IndexError
                  end
                else literal
            | EmptyString => literal
            end
          else literal
      end
  end.

Definition putback_bracket (tab : list string) (s : string) := putback "B"%char tab s 0.
Definition putback_quote (tab : list string) (s : string) := putback "Q"%char tab s 0.

(** [_parse_expr]: the text it returns (or the exception it raises) and
    the state of the shared tables when it is left. *)
Definition _parse_expr (st : subx) (expr : string) : res string * subx :=
  let '(e1, q) := pickup_quote expr (tabQ st) in
  let '(e2, b) := pickup_bracket e1 (tabB st) in
  let st' := mkSubx q b in
  let e3 := sub_doubledot e2 in
  let e4 := sub_dot false e3 in
  (e5 <- putback_bracket b e4 ;;
   e6 <- putback_quote q e5 ;;
   Ok (if Str.startswith "$;" e6 then Str.drop 2 e6 else e6),
   st').

(** [JSONPath.__init__]: the attribute [segments] of the new object. *)
Definition compile_in (st : subx) (expr : string) : res (list string) * subx :=
  let '(r, st') := _parse_expr st expr in
  (e <- r ;; Ok (Str.split SEP e), st').

(** Compilation in a process that has compiled nothing before. *)
Definition compile (expr : string) : res (list string) :=
  fst (compile_in subx0 expr).

(** Compilation after the expressions [earlier] were compiled, in that
    order, in the same process. *)
Definition compile_after (earlier : list string) (expr : string) : res (list string) :=
  fst (compile_in (fold_left (fun st e => snd (compile_in st e)) earlier subx0) expr).

End Compiler.

(* ================================================================== *)
(** ** Documents *)

Unset Elimination Schemes.
Inductive json : Type :=
| JNull
| JBool (b : bool)
| JNum (z : Z)
| JStr (s : string)
| JList (l : list json)
| JDict (kvs : list (string * json)).
Set Elimination Schemes.

(** [d.get(k)] / [d[k]] / [k in d] *)
Fixpoint lookup (k : string) (kvs : list (string * json)) : option json :=
  match kvs with
  | [] => None
  | (k', v) :: kvs' => if (k' =? k)%string then Some v else lookup k kvs'
  end.

(** [d[k] = v]: an existing key keeps its place. *)
Fixpoint dict_set (k : string) (v : json) (kvs : list (string * json))
  : list (string * json) :=
  match kvs with
  | [] => [(k, v)]
  | (k', v') :: kvs' =>
      if (k' =? k)%string then (k, v) :: kvs' else (k', v') :: dict_set k v kvs'
  end.

Definition is_list (v : json) : bool := match v with JList _ => true | _ => false end.
Definition is_dict (v : json) : bool := match v with JDict _ => true | _ => false end.

(** [list(enumerate(l))], counting from [i]. *)
Fixpoint enumerate_from {A} (i : nat) (l : list A) : list (nat * A) :=
  match l with
  | [] => []
  | x :: l' => (i, x) :: enumerate_from (S i) l'
  end.

Definition enumerate {A} (l : list A) : list (nat * A) := enumerate_from 0 l.

(* ================================================================== *)
(** ** Outcomes of the evaluator *)

(** What [_trace] appends to [self.result]. *)
Inductive entry : Type :=
| EValue (v : json)
| EPath (p : string).

Inductive result_type : Type := VALUE | PATH.

(** [result_type in JSONPath.RESULT_TYPE] *)
Definition result_type_of (s : string) : option result_type :=
  if (s =? "VALUE")%string then Some VALUE
  else if (s =? "PATH")%string then Some PATH
  else None.

(** What a call did: the entries appended to [self.result], the
    exceptions passed to [LOG.error], the exception it raised, and how
    deep the calls of [_trace] were nested inside it. *)
Record Out : Type := mkOut {
  results : list entry;
  logs : list exn;
  raised : option exn;
  depth : nat
}.

Definition skip : Out := mkOut [] [] None 0.
Definition raise (e : exn) : Out := mkOut [] [] (Some e) 0.
Definition emit (x : entry) : Out := mkOut [x] [] None 0.
Definition log_error (e : exn) : Out := mkOut [] [e] None 0.
Definition log_errors (es : list exn) : Out := mkOut [] es None 0.

(** Two statements in a row: the second one runs when the first one
    returns. *)
Definition and_then (a b : Out) : Out :=
  match raised a with
  | Some _ => a
  | None =>
      mkOut (results a ++ results b) (logs a ++ logs b) (raised b)
            (Nat.max (depth a) (depth b))
  end.

(** One more call of [_trace] on the stack. *)
Definition enter (a : Out) : Out :=
  mkOut (results a) (logs a) (raised a) (S (depth a)).

Infix ">>" := and_then (at level 62, right associativity).

(** [for idx, v in enumerate(l): f(idx, v)], counting from [i]. *)
Definition for_enum {A} (f : nat -> A -> Out) : nat -> list A -> Out :=
  fix go (i : nat) (l : list A) : Out :=
    match l with
    | [] => skip
    | x :: l' => f i x >> go (S i) l'
    end.

(** [for k, v in items: f(k, v)] *)
Definition for_items {K A} (f : K -> A -> Out) : list (K * A) -> Out :=
  fix go (l : list (K * A)) : Out :=
    match l with
    | [] => skip
    | (k, x) :: l' => f k x >> go l'
    end.

(** [for x in l: f(x)] *)
Definition for_each {A} (f : A -> Out) : list A -> Out :=
  fix go (l : list A) : Out :=
    match l with
    | [] => skip
    | x :: l' => f x >> go l'
    end.

(** [f"{path}{JSONPath.SEP}{k}"] *)
Definition path_key (path k : string) : string :=
  (path ++ Compiler.SEPs ++ k)%string.

(** [f"{path}{JSONPath.SEP}{idx}"] *)
Definition path_idx (path : string) (idx : nat) : string :=
  path_key path (Str.of_nat idx).

(* ================================================================== *)
(** ** Step syntax *)

Module Syntax.

(** One part of a slice: [-?\d*]. *)
Definition slice_part (p : string) : bool :=
  match p with
  | String "-" ds => Str.forallb Str.is_digit ds
  | _ => Str.forallb Str.is_digit p
  end.

(** [REP_SLICE_CONTENT.fullmatch(step)]: two or three parts [-?\d*]
    with a colon between them. *)
Definition slice_match (step : string) : bool :=
  match Str.split ":"%char step with
  | [a; b] => slice_part a && slice_part b
  | [a; b; c] => slice_part a && slice_part b && slice_part c
  | _ => false
  end.

(** The class [[\w.']]. *)
Definition is_sel_char (c : ascii) : bool :=
  Str.is_word c || Ascii.eqb c "."%char || Ascii.eqb c "'"%char.

Inductive sel_state : Type :=
| SelStart        (* nothing read *)
| SelFirst        (* inside the first name *)
| SelComma        (* just after a comma *)
| SelSpace        (* after a comma and a space *)
| SelName.        (* inside a name that follows a comma *)

(** [REP_SELECT_CONTENT.fullmatch(step)]: a name, then one or more
    times a comma, an optional space and a name. *)
Fixpoint select_from (st : sel_state) (s : string) : bool :=
  match s with
  | EmptyString => match st with SelName => true | _ => false end
  | String c s' =>
      match st with
      | SelStart => is_sel_char c && select_from SelFirst s'
      | SelFirst =>
          if is_sel_char c then select_from SelFirst s'
          else Ascii.eqb c ","%char && select_from SelComma s'
      | SelComma =>
          if is_sel_char c then select_from SelName s'
          else Ascii.eqb c " "%char && select_from SelSpace s'
      | SelSpace => is_sel_char c && select_from SelName s'
      | SelName =>
          if is_sel_char c then select_from SelName s'
          else Ascii.eqb c ","%char && select_from SelComma s'
      end
  end.

Definition select_match (step : string) : bool := select_from SelStart step.

Definition is_filter (step : string) : bool :=
  Str.startswith "?(" step && Str.endswith ")" step.

Definition is_sorter (step : string) : bool :=
  Str.startswith "/(" step && Str.endswith ")" step.

Definition is_extractor (step : string) : bool :=
  Str.startswith "(" step && Str.endswith ")" step.

End Syntax.

(* ================================================================== *)
(** ** Filter predicates *)

Module Filter.

Definition dquote : string := String (ascii_of_nat 34) EmptyString.

(** [_f_brackets]: [__obj] followed by one subscript per dotted name. *)
Definition _f_brackets (group1 : string) : string :=
  fold_left (fun ret e => (ret ++ "[" ++ dquote ++ e ++ dquote ++ "]")%string)
            (Str.split "."%char group1) "__obj".

(** The lookahead of [REP_FILTER_CONTENT]. *)
Definition at_operator (s : string) : bool :=
  Str.startswith "<=" s || Str.startswith ">=" s || Str.startswith "==" s
  || Str.startswith "!=" s || Str.startswith ">" s || Str.startswith "<" s
  || Str.startswith " in" s || Str.startswith " not" s || Str.startswith " is" s.

(** The group [(.*?)] of the first alternative: the characters up to
    the first place where an operator starts, none of them a newline. *)
Fixpoint find_operator (s : string) : option string :=
  if at_operator s then Some EmptyString
  else match s with
       | EmptyString => None
       | String c s' =>
           if Ascii.eqb c Str.newline then None
           else option_map (String c) (find_operator s')
       end.

(** [REP_FILTER_CONTENT.sub(_f_brackets, step)].  At a place where the
    first alternative fails and the second one, [len\(@\.(.*?)\)],
    matches, group 1 is [None] and [_f_brackets] raises
    [AttributeError]. *)
Fixpoint rewrite (s : string) (skip : nat) : res string :=
  match s with
  | EmptyString => Ok EmptyString
  | String c s' =>
      match skip with
      | S k => rewrite s' k
      | O =>
          let literal := out <- rewrite s' 0 ;; Ok (String c out) in
          if Str.startswith "@." s then
            match find_operator (Str.drop 2 s) with
            | Some g =>
                out <- rewrite s' (S (String.length g)) ;;
                Ok (_f_brackets g ++ out)%string
            | None => literal
            end
          else if Str.startswith "len(@." s then
            match Compiler.find_close ")"%char (Str.drop 6 s) with
            | Some _ => Raise AttributeError
            | None => literal
            end
          else literal
      end
  end.

End Filter.

(* ================================================================== *)
(** ** Dotted lookup and sorting *)

Module Sorter.

(** The loop of [_getattr]: [r = r.get(k)] for each name; on a value
    with no [get] the error is logged and the result is [None]. *)
Fixpoint getattr_loop (r : json) (ks : list string) : json * list exn :=
  match ks with
  | [] => (r, [])
  | k :: ks' =>
      match r with
      | JDict kvs =>
          getattr_loop (match lookup k kvs with Some v => v | None => JNull end) ks'
      | _ => (JNull, [AttributeError])
      end
  end.

Definition _getattr (obj : json) (path : string) : json * list exn :=
  getattr_loop obj (Str.split "."%char path).

(** A [bool] or an [int] as a number. *)
Definition num_of (v : json) : option Z :=
  match v with
  | JNum z => Some z
  | JBool b => Some (if b then 1 else 0)%Z
  | _ => None
  end.

(** [a == b] *)
Fixpoint py_eq (a b : json) {struct a} : bool :=
  match a, b with
  | JNull, JNull => true
  | JStr x, JStr y => (x =? y)%string
  | JList xs, JList ys =>
      (fix go (xs ys : list json) : bool :=
         match xs, ys with
         | [], [] => true
         | x :: xs', y :: ys' => py_eq x y && go xs' ys'
         | _, _ => false
         end) xs ys
  | JDict xs, JDict ys =>
      (List.length xs =? List.length ys) &&
      (fix go (xs : list (string * json)) : bool :=
         match xs with
         | [] => true
         | (k, v) :: xs' =>
             match lookup k ys with
             | Some w => py_eq v w
             | None => false
             end && go xs'
         end) xs
  | _, _ =>
      match num_of a, num_of b with
      | Some x, Some y => (x =? y)%Z
      | _, _ => false
      end
  end.

(** [a < b]: numbers with numbers, strings with strings, lists with
    lists (at the first place where they differ); [TypeError]
    otherwise. *)
Fixpoint py_lt (a b : json) {struct a} : res bool :=
  match a, b with
  | JStr x, JStr y => Ok (String.ltb x y)
  | JList xs, JList ys =>
      (fix go (xs ys : list json) : res bool :=
         match xs, ys with
         | [], [] => Ok false
         | [], _ :: _ => Ok true
         | _ :: _, [] => Ok false
         | x :: xs', y :: ys' => if py_eq x y then go xs' ys' else py_lt x y
         end) xs ys
  | _, _ =>
      match num_of a, num_of b with
      | Some x, Some y => Ok (x <? y)%Z
      | _, _ => Raise TypeError
      end
  end.

Section Sort.
Variable A : Type.
Variable lt : A -> A -> res bool.

(** [x] goes before the first element it is less than. *)
Fixpoint insert (x : A) (l : list A) : res (list A) :=
  match l with
  | [] => Ok [x]
  | y :: l' =>
      b <- lt x y ;;
      if b then Ok (x :: y :: l')
      else (r <- insert x l' ;; Ok (y :: r))
  end.

(** A stable sort that only asks [x < y]: each element in turn is
    inserted among the elements before it. *)
Definition stable_sort (l : list A) : res (list A) :=
  fold_left (fun acc x => bind acc (insert x)) l (Ok []).

(** [list.sort(reverse=...)]: a reverse sort reverses the list,
    sorts it and reverses the result. *)
Definition list_sort (reverse : bool) (l : list A) : res (list A) :=
  if reverse then (r <- stable_sort (rev l) ;; Ok (rev r))
  else stable_sort l.
End Sort.

(** A name with a leading [~] asks for the reverse order. *)
Definition is_reverse (sortby : string) : bool := Str.startswith "~" sortby.

(** The dotted path of a name: [k[1:]] after a [~], [k] otherwise. *)
Definition field_of (sortby : string) : string :=
  if is_reverse sortby then Str.drop 1 sortby else sortby.

(** The [key] function of a pass, on the value of a pair. *)
Definition sort_key (sortby : string) (v : json) : json :=
  fst (_getattr v (field_of sortby)).

(** The order of the keyed elements: [<] on the keys. *)
Definition key_lt {T} (a b : json * T) : res bool := py_lt (fst a) (fst b).

(** One pass of [_sorter]: [obj.sort(key=..., reverse=...)] on pairs
    [(index-or-key, value)], the key of a pair being [_getattr] of its
    value.  The keys are computed first, one per element. *)
Definition sort_pass {K} (sortby : string) (obj : list (K * json))
  : res (list (K * json)) * list exn :=
  let keyed := map (fun t => (sort_key sortby (snd t), t)) obj in
  let logged := flat_map (fun t => snd (_getattr (snd t) (field_of sortby))) obj in
  (r <- list_sort key_lt (is_reverse sortby) keyed ;; Ok (map snd r), logged).

(** The body of the loop of [_sorter]: the pass for [sortby] on what the
    passes before it left, unless one of them raised. *)
Definition next_pass {K} (acc : res (list (K * json)) * list exn) (sortby : string)
  : res (list (K * json)) * list exn :=
  match fst acc with
  | inl e => acc
  | inr l => let '(r, lg) := sort_pass sortby l in (r, snd acc ++ lg)
  end.

(** [_sorter]: one pass per name of [sortbys.split(",")[::-1]], that is,
    the last name first. *)
Definition _sorter {K} (obj : list (K * json)) (sortbys : string)
  : res (list (K * json)) * list exn :=
  fold_left next_pass (rev (Str.split ","%char sortbys)) (Ok obj, []).

End Sorter.

(* ================================================================== *)
(** ** Slices *)

Module Slice.
Local Open Scope Z_scope.

(** A decimal literal of Python: one digit at least, and zeros may lead
    only a zero. *)
Definition literal (ds : string) : res Z :=
  match NilEmpty.uint_of_string ds with
  | Some d =>
      if (ds =? "")%string then Raise SyntaxError
      else if Str.startswith "0" ds && negb (Z.of_uint d =? 0) then Raise SyntaxError
      else Ok (Z.of_uint d)
  | None => Raise SyntaxError
  end.

(** One part of [obj[a:b:c]] as Python reads it: nothing is [None], a
    lone minus sign is not an expression. *)
Definition part (p : string) : res (option Z) :=
  match p with
  | EmptyString => Ok None
  | String "-" ds => z <- literal ds ;; Ok (Some (- z))
  | _ => z <- literal p ;; Ok (Some z)
  end.

(** [slice(start, stop, step).indices(len)], the bounds only. *)
Definition bounds (len : Z) (start stop : option Z) (step : Z) : Z * Z :=
  let lower := if step <? 0 then -1 else 0 in
  let upper := if step <? 0 then len - 1 else len in
  let clamp v := if v <? 0 then Z.max (v + len) lower else Z.min v upper in
  (match start with
   | None => if step <? 0 then upper else lower
   | Some v => clamp v
   end,
   match stop with
   | None => if step <? 0 then lower else upper
   | Some v => clamp v
   end).

(** How many indices the slice has. *)
Definition count (start stop step : Z) : nat :=
  if step <? 0 then
    (if stop <? start then Z.to_nat ((start - stop - 1) / (- step) + 1) else 0%nat)
  else
    (if start <? stop then Z.to_nat ((stop - start - 1) / step + 1) else 0%nat).

(** The indices of [l[start:stop:step]] in the order of the slice. *)
Definition indices (len : nat) (start stop : option Z) (step : Z) : list nat :=
  let '(lo, hi) := bounds (Z.of_nat len) start stop step in
  map (fun j => Z.to_nat (lo + Z.of_nat j * step)) (seq 0 (count lo hi step)).

(** [l[start:stop:step]] *)
Definition take {A} (l : list A) (start stop : option Z) (step : Z) : list A :=
  flat_map (fun i => match nth_error l i with Some x => [x] | None => [] end)
           (indices (List.length l) start stop step).

(** [eval(f"obj[{step}]")] for a step that [REP_SLICE_CONTENT] matches:
    [SyntaxError] when a part is not an expression, [ValueError] when
    the stride is zero. *)
Definition eval {A} (step : string) (obj : list A) : res (list A) :=
  match Str.split ":"%char step with
  | a :: b :: rest =>
      start <- part a ;;
      stop <- part b ;;
      stride <- match rest with
                | c :: _ => part c
                | [] => Ok None
                end ;;
      match stride with
      | Some 0 => Raise ValueError
      | Some k => Ok (take obj start stop k)
      | None => Ok (take obj start stop 1)
      end
  | _ => Raise SyntaxError
  end.

End Slice.

(* ================================================================== *)
(** ** The tree evaluator *)

Section Evaluator.

(** Python's [eval(step, None, {"__obj": obj})] followed by the truth
    test of [if r]: the exception (an [Exception]) it raises, or whether
    the value it returns is true. *)
Variable py_eval : string -> json -> res bool.

(** [self.result_type] *)
Variable rt : result_type.

(** The store of [_trace]: what is appended when the steps are used up. *)
Definition store (obj : json) (path : string) : Out :=
  match rt with
  | VALUE => emit (EValue obj)
  | PATH => emit (EPath path)
  end.

(** [_traverse(f, obj, i, path, *args)] *)
Definition _traverse (f : json -> string -> Out) (obj : json) (path : string) : Out :=
  match obj with
  | JList l => for_enum (fun idx v => f v (path_idx path idx)) 0 l
  | JDict kvs => for_items (fun k v => f v (path_key path k)) kvs
  | _ => skip
  end.

(** [_filter(obj, i, path, step)], [next] being [_trace] at index [i]. *)
Definition _filter (next : json -> string -> Out) (obj : json) (path step : string) : Out :=
  match py_eval step obj with
  | inl err => log_error err
  | inr r => if r then next obj path else skip
  end.

(** [_trace(obj, i, path)] where [segments[i]] is [".."] and [next] is
    [_trace] at index [i + 1]: the value itself, then, through
    [_traverse], [_trace] on every child at the same index [i]. *)
Fixpoint descend (next : json -> string -> Out) (obj : json) (path : string)
         {struct obj} : Out :=
  enter
    (next obj path >>
     match obj with
     | JList l => for_enum (fun idx v => descend next v (path_idx path idx)) 0 l
     | JDict kvs => for_items (fun k v => descend next v (path_key path k)) kvs
     | _ => skip
     end).

(** The new mapping of the field extractor. *)
Definition extract (kvs : list (string * json)) (keys : list string)
  : list (string * json) :=
  fold_left
    (fun obj_ k => dict_set k (match lookup k kvs with Some v => v | None => JNull end) obj_)
    keys [].

(** The sorter on the pairs [(index-or-key, value)]. *)
Definition sorted_then {K} (visit : K -> json -> Out) (pairs : list (K * json))
           (sortbys : string) : Out :=
  let '(r, lg) := Sorter._sorter pairs sortbys in
  log_errors lg >>
  match r with
  | inl e => raise e
  | inr sorted => for_items visit sorted
  end.

(** The body of [_trace] below the store, for a step [segments[i]] other
    than [".."]; [next] is [_trace] at index [i + 1]. *)
Definition trace_body (next : json -> string -> Out) (step : string)
           (obj : json) (path : string) : Out :=
  if (step =? "*")%string then _traverse next obj path
  else
    match obj with
    | JList l =>
        if Str.isdigit step then
          match nth_error l (Str.int step) with
          | Some v => next v (path_key path step)
          | None => skip
          end
        else if Syntax.slice_match step then
          match Slice.eval step (enumerate l) with
          | inl e => raise e
          | inr vals => for_items (fun idx v => next v (path_idx path idx)) vals
          end
        else if Syntax.is_filter step then
          match Filter.rewrite (Str.strip 2 step) 0 with
          | inl e => raise e
          | inr step' => _traverse (fun v p => _filter next v p step') obj path
          end
        else if Syntax.is_sorter step then
          sorted_then (fun idx v => next v (path_idx path idx))
                      (enumerate l) (Str.strip 2 step)
        else if Syntax.is_extractor step then raise ExprSyntaxError
        else skip
    | JDict kvs =>
        match lookup step kvs with
        | Some v => next v (path_key path step)
        | None =>
            if Syntax.select_match step then
              for_each (fun k => match lookup k kvs with
                                 | Some v => next v (path_key path k)
                                 | None => skip
                                 end)
                       (Str.split ","%char step)
            else if Syntax.is_filter step then
              match Filter.rewrite (Str.strip 2 step) 0 with
              | inl e => raise e
              | inr step' => _traverse (fun v p => _filter next v p step') obj path
              end
            else if Syntax.is_sorter step then
              sorted_then (fun k v => next v (path_key path k)) kvs (Str.strip 2 step)
            else if Syntax.is_extractor step then
              next (JDict (extract kvs (Str.split ","%char (Str.strip 1 step)))) path
            else skip
        end
    | _ =>
        if Syntax.is_filter step then
          match Filter.rewrite (Str.strip 2 step) 0 with
          | inl e => raise e
          | inr step' => _traverse (fun v p => _filter next v p step') obj path
          end
        else if Syntax.is_sorter step then raise ExprSyntaxError
        else if Syntax.is_extractor step then raise ExprSyntaxError
        else skip
    end.

(** One call [_trace(obj, i, path)] with [i < self.lpath]. *)
Definition trace_step (next : json -> string -> Out) (step : string)
           (obj : json) (path : string) : Out :=
  if (step =? "..")%string then descend next obj path
  else enter (trace_body next step obj path).

(** [_trace(obj, i, path)], given the steps [self.segments[i:]] that are
    left: [i >= self.lpath] when none is. *)
Fixpoint _trace (segments : list string) (obj : json) (path : string) : Out :=
  match segments with
  | [] => enter (store obj path)
  | step :: rest => trace_step (_trace rest) step obj path
  end.

End Evaluator.

(** [JSONPath.parse(obj, result_type)] on an object whose [segments] are
    given. *)
Definition parse (py_eval : string -> json -> res bool) (segments : list string)
           (obj : json) (result_type : string) : res (list entry) :=
  if negb (is_list obj || is_dict obj) then Raise TypeError
  else
    match result_type_of result_type with
    | None => Raise ValueError
    | Some rt =>
        let o := _trace py_eval rt segments obj "$" in
        match raised o with
        | Some e => Raise e
        | None => Ok (results o)
        end
    end.

(** [JSONPath(expr).parse(obj, result_type)] in a process that has
    compiled nothing before. *)
Definition evaluate (py_eval : string -> json -> res bool) (expr : string)
           (obj : json) (result_type : string) : res (list entry) :=
  segments <- Compiler.compile expr ;; parse py_eval segments obj result_type.


(* ================================================================== *)
(** ** Notions used to state the properties *)

(** Keys of a mapping are pairwise distinct. *)
Fixpoint distinct_keys (kvs : list (string * json)) : bool :=
  match kvs with
  | [] => true
  | (k, _) :: kvs' =>
      negb (existsb (fun kv => (fst kv =? k)%string) kvs') && distinct_keys kvs'
  end.

(** A well-formed document: what a Python value built from [dict], [list]
    and scalars always is. *)
Fixpoint wf_json (v : json) : bool :=
  match v with
  | JList l => forallb wf_json l
  | JDict kvs => distinct_keys kvs && forallb (fun kv => wf_json (snd kv)) kvs
  | _ => true
  end.

(** No key of the document contains the separator [SEP]. *)
Fixpoint sep_free (v : json) : bool :=
  match v with
  | JList l => forallb sep_free l
  | JDict kvs =>
      forallb (fun kv => negb (Str.mem Compiler.SEP (fst kv)) && sep_free (snd kv)) kvs
  | _ => true
  end.

(** Walking a document along path segments: an index into a sequence, a
    key into a mapping. *)
Fixpoint walk (segs : list string) (v : json) : option json :=
  match segs with
  | [] => Some v
  | s :: rest =>
      match v with
      | JList l =>
          if Str.isdigit s then
            match nth_error l (Str.int s) with
            | Some c => walk rest c
            | None => None
            end
          else None
      | JDict kvs =>
          match lookup s kvs with
          | Some c => walk rest c
          | None => None
          end
      | _ => None
      end
  end.

(** Resolving a PATH result against the document: the segments are the
    parts between separators, the first one being the root marker. *)
Definition resolve (doc : json) (path : string) : option json :=
  match Str.split Compiler.SEP path with
  | root :: segs => if (root =? "$")%string then walk segs doc else None
  | [] => None
  end.

Definition flat_enum {A B} (f : nat -> A -> list B) : nat -> list A -> list B :=
  fix go (i : nat) (l : list A) : list B :=
    match l with
    | [] => []
    | x :: l' => f i x ++ go (S i) l'
    end.

(** Every node of a document with its path, a node before its children
    and the children in order. *)
Fixpoint nodes (v : json) (path : string) : list (json * string) :=
  (v, path) ::
  match v with
  | JList l => flat_enum (fun idx c => nodes c (path_idx path idx)) 0 l
  | JDict kvs => flat_map (fun kv => nodes (snd kv) (path_key path (fst kv))) kvs
  | _ => []
  end.

(** The number of nodes of a document. *)
Fixpoint size (v : json) : nat :=
  S match v with
    | JList l => fold_right (fun c n => size c + n) 0 l
    | JDict kvs => fold_right (fun kv n => size (snd kv) + n) 0 kvs
    | _ => 0
    end.

(** The depth of a document: the number of levels below its root. *)
Fixpoint height (v : json) : nat :=
  match v with
  | JList l => fold_right (fun c m => Nat.max (S (height c)) m) 0 l
  | JDict kvs => fold_right (fun kv m => Nat.max (S (height (snd kv))) m) 0 kvs
  | _ => 0
  end.

(** An evaluator of predicates that answers false where [py_eval]
    raises. *)
Definition raising_as_false (py_eval : string -> json -> res bool)
  : string -> json -> res bool :=
  fun step obj =>
    match py_eval step obj with
    | inl _ => Ok false
    | inr r => Ok r
    end.

(** The values of VALUE entries, the paths of PATH entries. *)
Definition value_of (x : entry) : option json :=
  match x with EValue v => Some v | EPath _ => None end.

Definition path_of (x : entry) : option string :=
  match x with EPath p => Some p | EValue _ => None end.

(** An induction principle that reaches the children of sequences and
    mappings. *)
Section JsonInd.
Variable P : json -> Prop.
Hypothesis HNull : P JNull.
Hypothesis HBool : forall b, P (JBool b).
Hypothesis HNum : forall z, P (JNum z).
Hypothesis HStr : forall s, P (JStr s).
Hypothesis HList : forall l, Forall P l -> P (JList l).
Hypothesis HDict : forall kvs, Forall (fun kv => P (snd kv)) kvs -> P (JDict kvs).

Fixpoint json_ind (v : json) {struct v} : P v :=
  match v with
  | JNull => HNull
  | JBool b => HBool b
  | JNum z => HNum z
  | JStr s => HStr s
  | JList l =>
      HList ((fix go (l : list json) : Forall P l :=
                match l with
                | [] => Forall_nil P
                | x :: l' => @Forall_cons _ P x l' (json_ind x) (go l')
                end) l)
  | JDict kvs =>
      HDict ((fix go (l : list (string * json)) : Forall (fun kv => P (snd kv)) l :=
                match l with
                | [] => Forall_nil _
                | kv :: l' =>
                    @Forall_cons _ (fun kv => P (snd kv)) kv l' (json_ind (snd kv)) (go l')
                end) kvs)
  end.
End JsonInd.

(** Two outcomes that raise alike, whose log entries are related by [L]
    and whose results are related by [E], one by one. *)
Definition out_rel (E : entry -> entry -> Prop) (L : list exn -> list exn -> Prop)
           (a b : Out) : Prop :=
  Forall2 E (results a) (results b) /\ L (logs a) (logs b) /\ raised a = raised b.

(** The PATH entry [y] leads, in [doc], to the value of the VALUE entry
    [x]. *)
Definition resolves (doc : json) (x y : entry) : Prop :=
  exists v p, x = EValue v /\ y = EPath p /\ resolve doc p = Some v.

(** Two calls that raise the same exception, or return values related
    by [R]. *)
Definition res_rel {A B} (R : A -> B -> Prop) (x : res A) (y : res B) : Prop :=
  match x, y with
  | inl e, inl e' => e = e'
  | inr a, inr b => R a b
  | _, _ => False
  end.

(** The step has not the form of a field extractor. *)
Definition not_extractor (step : string) : Prop := Syntax.is_extractor step = false.

(** In [doc], the value [obj] is the one the path [path] leads to; [obj]
    is well formed and none of its keys contains the separator. *)
Definition at_path (doc obj : json) (path : string) : Prop :=
  wf_json obj = true /\ sep_free obj = true /\
  exists ps, Str.split Compiler.SEP path = "$" :: ps /\ walk ps doc = Some obj.

(** Two outcomes with the same results, log entries and exception. *)
Definition same_run (a b : Out) : Prop :=
  results a = results b /\ logs a = logs b /\ raised a = raised b.

(** What the store appends for a value and its path. *)
Definition entry_of (rt : result_type) (v : json) (path : string) : entry :=
  match rt with
  | VALUE => EValue v
  | PATH => EPath path
  end.

(** The child of one node that a plain name [k] selects, if any: the
    entry of a mapping under the key [k], or the element of a sequence
    at the index [k] when [k] is a digit string. *)
Definition match_key (rt : result_type) (k : string) (node : json * string)
  : list entry :=
  let '(obj, path) := node in
  match obj with
  | JDict kvs =>
      match lookup k kvs with
      | Some v => [entry_of rt v (path_key path k)]
      | None => []
      end
  | JList l =>
      if Str.isdigit k then
        match nth_error l (Str.int k) with
        | Some v => [entry_of rt v (path_key path k)]
        | None => []
        end
      else []
  | _ => []
  end.

(** The key of a keyed element is [None]. *)
Definition null_key {T} (a : json * T) : Prop := fst a = JNull.

(** A list that is short or holds no [None] key: what a sort that
    returned can have produced. *)
Definition comparable {T} (l : list (json * T)) : Prop :=
  List.length l <= 1 \/ Forall (fun a => ~ null_key a) l.

(** The pair [b] may stand right after the pair [a] in the order that
    the pass for [sortby] asks for: ascending, the key of [b] is not
    less than the key of [a]; descending (a leading [~]), the key of [a]
    is not less than the key of [b]. *)
Definition in_order {K} (sortby : string) (a b : K * json) : Prop :=
  if Sorter.is_reverse sortby
  then Sorter.py_lt (Sorter.sort_key sortby (snd a)) (Sorter.sort_key sortby (snd b)) = Ok false
  else Sorter.py_lt (Sorter.sort_key sortby (snd b)) (Sorter.sort_key sortby (snd a)) = Ok false.

(** The key of the pair for [sortby] is a number. *)
Definition numeric_key {K} (sortby : string) (t : K * json) : Prop :=
  Sorter.num_of (Sorter.sort_key sortby (snd t)) <> None.

(** The key of the pair for [sortby] is the number [z]. *)
Definition has_key {K} (sortby : string) (z : Z) (t : K * json) : bool :=
  match Sorter.num_of (Sorter.sort_key sortby (snd t)) with
  | Some z' => (z' =? z)%Z
  | None => false
  end.

(** The number a keyed element is sorted by, when its key is one. *)
Definition key_num {T} (a : json * T) : Z :=
  match Sorter.num_of (fst a) with
  | Some z => z
  | None => 0%Z
  end.

(** A bracket group of an expression: a single-quoted literal [['c']] or
    a plain group [[b]]. *)
Inductive group : Type :=
| Quoted (c : string)
| Plain (b : string).

(** The literal content of a group. *)
Definition group_text (g : group) : string :=
  match g with
  | Quoted c => c
  | Plain b => b
  end.

(** The group as it is written in an expression. *)
Definition group_source (g : group) : string :=
  match g with
  | Quoted c => ("['" ++ c ++ "']")%string
  | Plain b => ("[" ++ b ++ "]")%string
  end.

(** All the strings of a list, one after the other. *)
Definition join_all (l : list string) : string :=
  fold_right String.append EmptyString l.

(** The expression [$g1g2...] made of the root marker and the groups. *)
Definition expr_of (gs : list group) : string :=
  String "$"%char (join_all (map group_source gs)).

(** A content that the round trip keeps: no quote, no newline and no
    separator in it; in a plain group no closing bracket and no [#]
    either. *)
Definition group_ok (g : group) : bool :=
  match g with
  | Quoted c =>
      negb (Str.mem "'"%char c) && negb (Str.mem Str.newline c)
      && negb (Str.mem Compiler.SEP c)
  | Plain b =>
      negb (Str.mem "'"%char b) && negb (Str.mem Str.newline b)
      && negb (Str.mem Compiler.SEP b) && negb (Str.mem "]"%char b)
      && negb (Str.mem "#"%char b)
  end.

(** What stands between the brackets of each group once the quoted
    literals are picked up, the table of literals holding [q] entries
    before. *)
Fixpoint bracket_contents (q : nat) (gs : list group) : list string :=
  match gs with
  | [] => []
  | Quoted c :: gs' => ("#Q" ++ Str.of_nat q)%string :: bracket_contents (S q) gs'
  | Plain b :: gs' => b :: bracket_contents q gs'
  end.

(** The quoted literals of the groups, in order. *)
Fixpoint quoted_texts (gs : list group) : list string :=
  match gs with
  | [] => []
  | Quoted c :: gs' => c :: quoted_texts gs'
  | Plain _ :: gs' => quoted_texts gs'
  end.

(** The string starts with no digit. *)
Definition no_digit_ahead (s : string) : bool :=
  match s with
  | EmptyString => true
  | String c _ => negb (Str.is_digit c)
  end.

(** [[10, 20, 30, 40]] *)
Definition doc_tens : json := JList [JNum 10; JNum 20; JNum 30; JNum 40].

(** A predicate evaluator that always raises [KeyError], as Python does
    for a subscript with a key that a mapping has not. *)
Definition key_error_eval : string -> json -> res bool := fun _ _ => Raise KeyError.

(** The entry is a value. *)
Definition is_value (x : entry) : Prop := exists v, x = EValue v.

(** The path [p] is [root] itself or [root] followed by a separator and
    more. *)
Definition under (root p : string) : Prop :=
  exists rest, p = (root ++ rest)%string /\ (rest = EmptyString \/ Str.startswith ";" rest = true).

(** The entry is a path under [root]. *)
Definition path_under (root : string) (x : entry) : Prop :=
  exists p, x = EPath p /\ under root p.

(** The values of a document: the document itself and what its
    sequences and mappings hold, at any depth. *)
Fixpoint subvalues (v : json) : list json :=
  v :: match v with
       | JList l => flat_map subvalues l
       | JDict kvs => flat_map (fun kv => subvalues (snd kv)) kvs
       | _ => []
       end.

(** The entry is a value of the document [doc]. *)
Definition from_document (doc : json) (x : entry) : Prop :=
  exists v, x = EValue v /\ In v (subvalues doc).

(** The children of a value with their paths, in the order in which
    [_traverse] visits them. *)
Definition children (obj : json) (path : string) : list (json * string) :=
  match obj with
  | JList l => map (fun t => (snd t, path_idx path (fst t))) (enumerate l)
  | JDict kvs => map (fun kv => (snd kv, path_key path (fst kv))) kvs
  | _ => []
  end.

(** The entry that the store appends for a node. *)
Definition node_entry (rt : result_type) (c : json * string) : entry :=
  entry_of rt (fst c) (snd c).

(** The evaluation of the predicate on the value returns and is true. *)
Definition accepts (py_eval : string -> json -> res bool) (step : string) (v : json) : bool :=
  match py_eval step v with
  | inr true => true
  | _ => false
  end.

(** What the evaluation of the predicate on the value sends to the log. *)
Definition complaint (py_eval : string -> json -> res bool) (step : string) (v : json)
  : list exn :=
  match py_eval step v with
  | inl e => [e]
  | inr _ => []
  end.

(** The strings of a list with [sep] between them. *)
Fixpoint join_with (sep : string) (l : list string) : string :=
  match l with
  | [] => EmptyString
  | [x] => x
  | x :: l' => (x ++ sep ++ join_with sep l')%string
  end.

(** A name of a selection: one character or more of the class [[\w.']]. *)
Definition sel_name (k : string) : Prop :=
  k <> EmptyString /\ Str.forallb Syntax.is_sel_char k = true.

(** A step of an expression in dot notation: [.name], or [..name] for a
    recursive descent to [name]. *)
Inductive dotted : Type :=
| Child (name : string)
| Deep (name : string).

Definition dotted_name (d : dotted) : string :=
  match d with
  | Child n => n
  | Deep n => n
  end.

(** The step as it is written in an expression. *)
Definition dotted_source (d : dotted) : string :=
  match d with
  | Child n => ("." ++ n)%string
  | Deep n => (".." ++ n)%string
  end.

(** The steps it compiles to. *)
Definition dotted_steps (d : dotted) : list string :=
  match d with
  | Child n => [n]
  | Deep n => [".."; n]
  end.

(** The expression [$s1s2...] made of the root marker and the steps. *)
Definition dotted_expr (ds : list dotted) : string :=
  String "$"%char (join_all (map dotted_source ds)).

(** A name that the passes of the compiler leave alone: not empty, and
    with no quote, opening bracket, dot, [#] or separator in it. *)
Definition plain_name (n : string) : bool :=
  negb (n =? "")%string && negb (Str.mem "'"%char n) && negb (Str.mem "["%char n)
  && negb (Str.mem "."%char n) && negb (Str.mem "#"%char n)
  && negb (Str.mem Compiler.SEP n).

(** A name made of word characters, one at least. *)
Definition word_name (n : string) : bool :=
  negb (n =? "")%string && Str.forallb Str.is_word n.

(** What the pass for two dots in a row leaves of a step. *)
Definition dotted_mid (d : dotted) : string :=
  match d with
  | Child n => ("." ++ n)%string
  | Deep n => (";..;" ++ n)%string
  end.

(** [l] begins with [p]. *)
Definition extends {A} (p l : list A) : Prop := exists more, l = p ++ more.

(** The subscript that [_f_brackets] writes for one name. *)
Definition subscript (name : string) : string :=
  ("[" ++ Filter.dquote ++ name ++ Filter.dquote ++ "]")%string.

(** [rest] begins with one of the comparison signs of the lookahead of
    [REP_FILTER_CONTENT]. *)
Definition at_sign (rest : string) : bool :=
  Str.startswith "<" rest || Str.startswith ">" rest
  || Str.startswith "==" rest || Str.startswith "!=" rest.

(** The element of a list at an index, as a list of one element or
    none. *)
Definition pick {A} (l : list A) (i : nat) : list A :=
  match nth_error l i with
  | Some x => [x]
  | None => []
  end.

(** ** Ties of a sort *)
(** The pairs whose key for [sortby] equals [k]. *)
Definition tied {K} (sortby : string) (k : json) (t : K * json) : bool :=
  Sorter.py_eq (Sorter.sort_key sortby (snd t)) k.

(** ** Expressions with quoted literals *)

(** What is written in one step of an expression: plain text, then
    quoted literals, each followed by plain text. *)
Record body : Type := mkBody { opening : string; literals : list (string * string) }.

(** The literals as they are written, ['c'] and the text after it. *)
Fixpoint literals_source (l : list (string * string)) : string :=
  match l with
  | [] => EmptyString
  | (c, t) :: l' => ("'" ++ c ++ "'" ++ t ++ literals_source l')%string
  end.

(** The literals without their quotes. *)
Fixpoint literals_text (l : list (string * string)) : string :=
  match l with
  | [] => EmptyString
  | (c, t) :: l' => (c ++ t ++ literals_text l')%string
  end.

(** The literals once picked up, the table of literals holding [q]
    entries before. *)
Fixpoint literals_mid (q : nat) (l : list (string * string)) : string :=
  match l with
  | [] => EmptyString
  | (c, t) :: l' => ("#Q" ++ Str.of_nat q ++ t ++ literals_mid (S q) l')%string
  end.

Definition body_source (b : body) : string :=
  (opening b ++ literals_source (literals b))%string.

(** The content of a step: what is written, the quotes dropped. *)
Definition body_text (b : body) : string :=
  (opening b ++ literals_text (literals b))%string.

Definition body_mid (q : nat) (b : body) : string :=
  (opening b ++ literals_mid q (literals b))%string.

(** A step of an expression: [.b] or [..b] in dot notation, or a
    bracket group [[b]]. *)
Inductive item : Type :=
| ByDot (deep : bool) (b : body)
| InBrackets (b : body).

Definition item_body (it : item) : body :=
  match it with
  | ByDot _ b => b
  | InBrackets b => b
  end.

Definition item_source (it : item) : string :=
  match it with
  | ByDot false b => ("." ++ body_source b)%string
  | ByDot true b => (".." ++ body_source b)%string
  | InBrackets b => ("[" ++ body_source b ++ "]")%string
  end.

(** The expression [$] followed by the steps. *)
Definition expression (its : list item) : string :=
  String "$"%char (join_all (map item_source its)).

(** The steps that an item stands for. *)
Definition item_steps (it : item) : list string :=
  match it with
  | ByDot false b => [body_text b]
  | ByDot true b => [".."; body_text b]
  | InBrackets b => [body_text b]
  end.

(** The quoted literals of the items, in the order they are written. *)
Definition item_literals (its : list item) : list string :=
  flat_map (fun it => map fst (literals (item_body it))) its.

(** The string starts like a placeholder of the table [tagc]: a [#],
    the letter and a digit. *)
Definition starts_tag (tagc : ascii) (s : string) : bool :=
  match s with
  | String h (String t (String d _)) =>
      Ascii.eqb h "#"%char && Ascii.eqb t tagc && Str.is_digit d
  | _ => false
  end.

(** Somewhere in the string a placeholder of the table [tagc] is
    written. *)
Fixpoint holds_tag (tagc : ascii) (s : string) : bool :=
  starts_tag tagc s ||
  match s with
  | EmptyString => false
  | String _ s' => holds_tag tagc s'
  end.

(** A literal that can be written between single quotes and that the
    compiler keeps: no quote, no newline and no step separator. *)
Definition literal_ok (c : string) : bool :=
  negb (Str.mem "'"%char c) && negb (Str.mem Str.newline c)
  && negb (Str.mem Compiler.SEP c).

(** The plain text of a step in dot notation: no quote, no opening
    bracket and no dot, which all end it; no step separator; and
    nothing that reads as a placeholder. *)
Definition dot_text_ok (t : string) : bool :=
  negb (Str.mem "'"%char t) && negb (Str.mem "["%char t) && negb (Str.mem "."%char t)
  && negb (Str.mem Compiler.SEP t)
  && negb (holds_tag "Q"%char t) && negb (holds_tag "B"%char t).

(** The plain text of a bracket group: no quote and no closing
    bracket, which end it; no newline and no step separator; and
    nothing that reads as a placeholder of a literal. *)
Definition bracket_text_ok (t : string) : bool :=
  negb (Str.mem "'"%char t) && negb (Str.mem "]"%char t)
  && negb (Str.mem Str.newline t) && negb (Str.mem Compiler.SEP t)
  && negb (holds_tag "Q"%char t).

(** Every text and every literal of the body is kept, and no digit
    stands right after a literal. *)
Definition body_ok (text_ok : string -> bool) (b : body) : bool :=
  text_ok (opening b)
  && forallb (fun ct => literal_ok (fst ct) && text_ok (snd ct) && no_digit_ahead (snd ct))
             (literals b).

Definition item_ok (it : item) : bool :=
  match it with
  | ByDot _ b => body_ok dot_text_ok b && negb (body_source b =? "")%string
  | InBrackets b => body_ok bracket_text_ok b
  end.

(** The items written with one piece of text per kind of item: [child]
    and [deep] before the body of a step in dot notation, [stp] for
    that body and [grp] for a bracket group; [q] counts the literals and
    [m] the bracket groups written before. *)
Fixpoint render (child deep : string) (stp : nat -> body -> string)
         (grp : nat -> nat -> body -> string) (q m : nat) (its : list item) : string :=
  match its with
  | [] => EmptyString
  | ByDot d b :: r =>
      ((if d then deep else child) ++ stp q b
       ++ render child deep stp grp (q + List.length (literals b)) m r)%string
  | InBrackets b :: r =>
      (grp q m b ++ render child deep stp grp (q + List.length (literals b)) (S m) r)%string
  end.

(** What stands between the brackets of each group once the literals
    are picked up. *)
Fixpoint bracket_mids (q : nat) (its : list item) : list string :=
  match its with
  | [] => []
  | ByDot _ b :: r => bracket_mids (q + List.length (literals b)) r
  | InBrackets b :: r => body_mid q b :: bracket_mids (q + List.length (literals b)) r
  end.

(** The string is empty or starts with a [#] or a step separator. *)
Definition quiet (s : string) : bool :=
  match s with
  | EmptyString => true
  | String c _ => Ascii.eqb c "#"%char || Ascii.eqb c Compiler.SEP
  end.

(** The body holds texts that satisfy [T], literals that are kept, and
    no digit right after a literal. *)
Definition body_with (T : string -> Prop) (b : body) : Prop :=
  T (opening b) /\
  Forall (fun ct => literal_ok (fst ct) = true /\ T (snd ct) /\ no_digit_ahead (snd ct) = true)
         (literals b).

(** A step in dot notation that is a plain name, [.k]. *)
Definition by_name (k : string) : item := ByDot false (mkBody k []).

(** The sorter step for the sort fields [keys]. *)
Definition sorter_step (keys : string) : string := ("/(" ++ keys ++ ")")%string.

(** The expression [$.k1.k2...[/(keys)]] followed by the steps [more]:
    a sorter applied to what the names lead to. *)
Definition sorter_expr (ks : list string) (keys : string) (more : list item) : string :=
  expression (map by_name ks ++ InBrackets (mkBody (sorter_step keys) []) :: more).

(* ================================================================== *)
(** ** Examples of documents *)

(** [{"bicycle": {"color": "red"}, "scores": [1, 2, 3]}] *)
Definition doc_bicycle : json :=
  JDict [("bicycle", JDict [("color", JStr "red")]);
         ("scores", JList [JNum 1; JNum 2; JNum 3])].

(** [{"a": 1, "c": 3}] *)
Definition doc_ac : json := JDict [("a", JNum 1); ("c", JNum 3)].

(** A predicate evaluator that always raises [NameError]. *)
Definition no_eval : string -> json -> res bool := fun _ _ => Raise NameError.

(* ================================================================== *)
(** * Properties *)

(** ** Outcomes *)

Lemma and_then_skip_l (a : Out) : skip >> a = a.
Proof. destruct a; reflexivity. Qed.

Lemma and_then_skip_r (a : Out) : a >> skip = a.
Proof.
  destruct a as [r l [e|] d]; unfold and_then; simpl; [reflexivity|].
  now rewrite !app_nil_r, Nat.max_0_r.
Qed.

Lemma and_then_assoc (a b c : Out) : (a >> b) >> c = a >> (b >> c).
Proof.
  destruct a as [ra la [ea|] da]; unfold and_then; simpl; [reflexivity|].
  destruct b as [rb lb [eb|] db]; simpl; [reflexivity|].
  destruct c as [rc lc ec dc]; simpl.
  now rewrite !app_assoc, Nat.max_assoc.
Qed.

Lemma raised_and_then (a b : Out) :
  raised (a >> b) = match raised a with Some e => Some e | None => raised b end.
Proof. unfold and_then; destruct (raised a) eqn:E; simpl; auto. Qed.

Lemma for_each_app {A} (f : A -> Out) (l1 l2 : list A) :
  for_each f (l1 ++ l2) = for_each f l1 >> for_each f l2.
Proof.
  induction l1 as [|x l1 IH]; simpl.
  - now rewrite and_then_skip_l.
  - now rewrite IH, and_then_assoc.
Qed.

(** ** Strings *)

Lemma ascii_eqb_refl (c : ascii) : Ascii.eqb c c = true.
Proof. apply Ascii.eqb_refl. Qed.

Lemma mem_forallb (p : ascii -> bool) (c : ascii) (s : string) :
  Str.forallb p s = true -> p c = false -> Str.mem c s = false.
Proof.
  induction s as [|a s IH]; simpl; intros H Hc; [reflexivity|].
  apply andb_true_iff in H as [Ha Hs].
  rewrite (IH Hs Hc), orb_false_r.
  destruct (Ascii.eqb_spec a c) as [->|]; [congruence|reflexivity].
Qed.

Lemma split_no_sep (sep : ascii) (s : string) :
  Str.mem sep s = false -> Str.split sep s = [s].
Proof.
  induction s as [|a s IH]; simpl; intros H; [reflexivity|].
  apply orb_false_iff in H as [Ha Hs].
  now rewrite Ha, (IH Hs).
Qed.

Lemma split_not_nil (sep : ascii) (s : string) : Str.split sep s <> [].
Proof.
  destruct s as [|a s]; simpl; [discriminate|].
  destruct (Ascii.eqb a sep); [discriminate|].
  destruct (Str.split sep s); discriminate.
Qed.

(** ** C1: a selection written with a space after the comma *)

(** C1 (the code departs from the claim).  The expression
    [$[bicycle, scores]] compiles to the single step ["bicycle, scores"],
    which [REP_SELECT_CONTENT] accepts with its optional space; the step
    is then split at the commas only, so the second name is [" scores"],
    with the space, and is no key of the document: evaluation in VALUE
    mode returns the one result [{"color": "red"}] and not two. *)
Theorem select_space_loses_key :
  forall py_eval,
    Compiler.compile "$[bicycle, scores]" = Ok ["bicycle, scores"] /\
    Syntax.select_match "bicycle, scores" = true /\
    Str.split ","%char "bicycle, scores" = ["bicycle"; " scores"] /\
    evaluate py_eval "$[bicycle, scores]" doc_bicycle "VALUE"
    = Ok [EValue (JDict [("color", JStr "red")])] /\
    evaluate py_eval "$[bicycle,scores]" doc_bicycle "VALUE"
    = Ok [EValue (JDict [("color", JStr "red")]);
          EValue (JList [JNum 1; JNum 2; JNum 3])].
Proof.
  intros py_eval. repeat split; reflexivity.
Qed.

(** ** C4: the field extractor *)

Lemma endswith_app (suf s : string) : Str.endswith suf (s ++ suf) = true.
Proof.
  induction s as [|a s IH]; simpl.
  - destruct suf; simpl; [reflexivity|].
    now rewrite Ascii.eqb_refl, String.eqb_refl.
  - now rewrite IH, orb_true_r.
Qed.

Lemma drop_last_app1 (s : string) (c : ascii) :
  Str.drop_last (s ++ String c EmptyString) = s.
Proof.
  induction s as [|a s IH]; simpl; [reflexivity|].
  rewrite IH. destruct s; reflexivity.
Qed.

Lemma select_match_paren (s : string) : Syntax.select_match (String "(" s) = false.
Proof. reflexivity. Qed.

(** The field extractor hands the new mapping to the next step with the
    path it was given. *)
Lemma extractor_keeps_path py_eval next (s : string) kvs path :
  trace_body py_eval next ("(" ++ s ++ ")") (JDict kvs) path
  = match lookup ("(" ++ s ++ ")") kvs with
    | Some v => next v (path_key path ("(" ++ s ++ ")"))
    | None => next (JDict (extract kvs (Str.split ","%char s))) path
    end.
Proof.
  unfold trace_body.
  change (("(" ++ s ++ ")")%string) with (String "(" (s ++ ")")).
  replace (String "(" (s ++ ")") =? "*")%string with false by reflexivity.
  destruct (lookup _ kvs); [reflexivity|].
  rewrite select_match_paren.
  replace (Syntax.is_filter (String "(" (s ++ ")"))) with false by reflexivity.
  replace (Syntax.is_sorter (String "(" (s ++ ")"))) with false by reflexivity.
  unfold Syntax.is_extractor.
  change (String "(" (s ++ ")")) with (("(" ++ s) ++ ")")%string at 2.
  rewrite endswith_app.
  replace (Str.startswith "(" (String "(" (s ++ ")"))) with true by reflexivity.
  simpl. unfold Str.strip. simpl. now rewrite drop_last_app1.
Qed.

(** C4 (counterexample).  [$(a,b)] on [{"a": 1, "c": 3}] in VALUE mode
    returns no result at all, not the one mapping the claim names. *)
Lemma extractor_glued_to_root :
  evaluate no_eval "$(a,b)" doc_ac "VALUE" = Ok [] /\
  evaluate no_eval "$(a,b)" doc_ac "VALUE"
  <> Ok [EValue (JDict [("a", JNum 1); ("b", JNull)])].
Proof. split; [reflexivity|discriminate]. Qed.

(** C4 (amended).  Written as a step of its own, [$.(a,b)], the field
    extractor on [{"a": 1, "c": 3}] yields exactly one VALUE result, the
    new mapping [{"a": 1, "b": null}], and its PATH result is the root
    path ["$"]: the step hands on the path it was given.  [$(a,b)]
    itself compiles to the single step ["$(a,b)"], because only a leading
    ["$;"] is stripped, and that step matches no rule. *)
Theorem extractor_projection :
  forall py_eval,
    Compiler.compile "$.(a,b)" = Ok ["(a,b)"] /\
    evaluate py_eval "$.(a,b)" doc_ac "VALUE"
    = Ok [EValue (JDict [("a", JNum 1); ("b", JNull)])] /\
    evaluate py_eval "$.(a,b)" doc_ac "PATH" = Ok [EPath "$"] /\
    (forall next s kvs path,
        lookup ("(" ++ s ++ ")") kvs = None ->
        trace_body py_eval next ("(" ++ s ++ ")") (JDict kvs) path
        = next (JDict (extract kvs (Str.split ","%char s))) path) /\
    Compiler.compile "$(a,b)" = Ok ["$(a,b)"] /\
    evaluate py_eval "$(a,b)" doc_ac "VALUE" = Ok [].
Proof.
  intros py_eval. repeat split; try reflexivity.
  intros next s kvs path H. now rewrite extractor_keeps_path, H.
Qed.

(** ** C5: the escape tables are shared by all compilations *)

(** C5 (the code departs from the claim).  [subx] is bound once, in the
    class body, and every compilation appends to it.  In a fresh process
    [$.#Q0] fails with [IndexError]; after [$['x']] was compiled, the same
    expression compiles to the step ["x"], the literal of the earlier
    expression.  An expression can even meet its own earlier compilation:
    [$['x'].#Q1] fails the first time and compiles the second time. *)
Theorem subx_shared_between_compilations :
  Compiler.compile "$.#Q0" = Raise IndexError /\
  Compiler.compile_after ["$['x']"] "$.#Q0" = Ok ["x"] /\
  snd (Compiler.compile_in Compiler.subx0 "$['x']") = Compiler.mkSubx ["x"] ["#Q0"] /\
  Compiler.compile "$['x'].#Q1" = Raise IndexError /\
  Compiler.compile_after ["$['x'].#Q1"] "$['x'].#Q1" = Ok ["x"; "x"].
Proof. repeat split; reflexivity. Qed.

(** ** C10: a negative index *)

Lemma isdigit_forallb (s : string) : Str.isdigit s = true -> Str.forallb Str.is_digit s = true.
Proof. unfold Str.isdigit. now intros [_ H]%andb_true_iff. Qed.

Lemma slice_match_needs_colon (s : string) :
  Str.mem ":"%char s = false -> Syntax.slice_match s = false.
Proof. intros H. unfold Syntax.slice_match. now rewrite (split_no_sep _ _ H). Qed.

(** C10.  On a sequence, a step made of a minus sign and digits is no
    digit string and has no colon, so neither the index rule nor the
    slice rule takes it; no later rule does either, and the call returns
    with no result, no log entry and no exception. *)
Theorem negative_index_matches_nothing :
  forall py_eval rt (ds : string) (rest : list string) (l : list json) (path : string),
    Str.isdigit ds = true ->
    Str.isdigit (String "-" ds) = false /\
    Syntax.slice_match (String "-" ds) = false /\
    _trace py_eval rt (String "-" ds :: rest) (JList l) path = enter skip.
Proof.
  intros py_eval rt ds rest l path Hd.
  assert (Hs : Syntax.slice_match (String "-" ds) = false).
  { apply slice_match_needs_colon. simpl.
    apply (mem_forallb Str.is_digit); [now apply isdigit_forallb|reflexivity]. }
  split; [reflexivity|]. split; [exact Hs|].
  simpl. unfold trace_step, trace_body.
  replace (String "-" ds =? "..")%string with false by reflexivity.
  replace (String "-" ds =? "*")%string with false by reflexivity.
  replace (Str.isdigit (String "-" ds)) with false by reflexivity.
  rewrite Hs. reflexivity.
Qed.

Lemma negative_index_matches_nothing_witness :
  Str.isdigit "1" = true /\
  _trace no_eval VALUE ["-1"] (JList [JNum 10; JNum 20; JNum 30]) "$" = enter skip.
Proof.
  split; [reflexivity|].
  apply (negative_index_matches_nothing no_eval VALUE "1" []
           [JNum 10; JNum 20; JNum 30] "$"). reflexivity.
Defined.

(** ** Sorting keeps the elements *)

Lemma insert_perm {A} (lt : A -> A -> res bool) (x : A) (l r : list A) :
  Sorter.insert lt x l = Ok r -> Permutation (x :: l) r.
Proof.
  revert r. induction l as [|y l IH]; simpl; intros r H.
  - injection H as <-. apply Permutation_refl.
  - destruct (lt x y) as [e|[|]]; simpl in H; try discriminate.
    + injection H as <-. apply Permutation_refl.
    + destruct (Sorter.insert lt x l) as [e|r'] eqn:E; simpl in H; try discriminate.
      injection H as <-.
      eapply perm_trans; [apply perm_swap|]. apply perm_skip. now apply IH.
Qed.

Lemma fold_insert_raise {A} (lt : A -> A -> res bool) (l : list A) (e : exn) :
  fold_left (fun acc x => bind acc (Sorter.insert lt x)) l (inl e) = inl e.
Proof. induction l; simpl; auto. Qed.

Lemma fold_insert_perm {A} (lt : A -> A -> res bool) (l acc r : list A) :
  fold_left (fun acc x => bind acc (Sorter.insert lt x)) l (Ok acc) = Ok r ->
  Permutation (acc ++ l) r.
Proof.
  revert acc r. induction l as [|x l IH]; simpl; intros acc r H.
  - injection H as <-. rewrite app_nil_r. apply Permutation_refl.
  - destruct (Sorter.insert lt x acc) as [e|acc'] eqn:E.
    + rewrite fold_insert_raise in H. discriminate.
    + apply IH in H.
      eapply perm_trans; [|exact H].
      apply insert_perm in E.
      eapply perm_trans; [apply Permutation_sym, Permutation_middle|].
      now apply (Permutation_app_tail l) in E.
Qed.

Lemma stable_sort_perm {A} (lt : A -> A -> res bool) (l r : list A) :
  Sorter.stable_sort lt l = Ok r -> Permutation l r.
Proof. unfold Sorter.stable_sort. intros H. now apply fold_insert_perm in H. Qed.

Lemma list_sort_perm {A} (lt : A -> A -> res bool) (reverse : bool) (l r : list A) :
  Sorter.list_sort lt reverse l = Ok r -> Permutation l r.
Proof.
  unfold Sorter.list_sort. destruct reverse; [|apply stable_sort_perm].
  destruct (Sorter.stable_sort lt (rev l)) as [e|r'] eqn:E; simpl; [discriminate|].
  intros H. injection H as <-. apply stable_sort_perm in E.
  eapply perm_trans; [apply Permutation_rev|].
  eapply perm_trans; [exact E|apply Permutation_rev].
Qed.

Lemma sort_pass_perm {K} (sortby : string) (obj r : list (K * json)) :
  fst (Sorter.sort_pass sortby obj) = Ok r -> Permutation obj r.
Proof.
  unfold Sorter.sort_pass. cbn [fst].
  destruct (Sorter.list_sort _ _ _) as [e|r'] eqn:E; simpl; [discriminate|].
  intros H. injection H as <-. apply list_sort_perm in E.
  apply (Permutation_map snd) in E. rewrite map_map in E. simpl in E.
  now rewrite map_id in E.
Qed.

Lemma sorter_fold_perm {K} (ks : list string) (obj l r : list (K * json)) (lg : list exn) :
  Permutation obj l ->
  fst (fold_left Sorter.next_pass ks (Ok l, lg)) = Ok r ->
  Permutation obj r.
Proof.
  unfold Ok.
  revert l lg. induction ks as [|k ks IH]; cbn [fold_left fst snd Sorter.next_pass]; intros l lg Hp H.
  - injection H as <-. exact Hp.
  - destruct (Sorter.sort_pass k l) as [r1 lg1] eqn:E.
    destruct r1 as [e|l1].
    + exfalso. clear -H. generalize dependent (lg ++ lg1).
      induction ks as [|k' ks IH]; cbn [fold_left fst snd Sorter.next_pass]; intros; [discriminate|eauto].
    + eapply IH; [|exact H].
      eapply perm_trans; [exact Hp|]. apply (sort_pass_perm k). now rewrite E.
Qed.

(** What [_sorter] returns holds the pairs it was given, each one once. *)
Lemma sorter_perm {K} (obj r : list (K * json)) (sortbys : string) :
  fst (Sorter._sorter obj sortbys) = Ok r -> Permutation obj r.
Proof. unfold Sorter._sorter. apply sorter_fold_perm, Permutation_refl. Qed.

(** ** Pairs of an enumeration, elements of a slice, entries of a mapping *)

Lemma enumerate_from_In {A} (l : list A) (n i : nat) (v : A) :
  In (i, v) (enumerate_from n l) -> exists j, i = n + j /\ nth_error l j = Some v.
Proof.
  revert n. induction l as [|x l IH]; simpl; intros n H; [contradiction|].
  destruct H as [H|H].
  - injection H as <- <-. exists 0. split; [lia|reflexivity].
  - destruct (IH _ H) as (j & -> & Hj). exists (S j). split; [lia|exact Hj].
Qed.

Lemma enumerate_In {A} (l : list A) (i : nat) (v : A) :
  In (i, v) (enumerate l) -> nth_error l i = Some v.
Proof. intros H. now destruct (enumerate_from_In _ _ _ _ H) as (j & -> & Hj). Qed.

Lemma slice_take_In {A} (l : list A) start stop k (x : A) :
  In x (Slice.take l start stop k) -> In x l.
Proof.
  unfold Slice.take. intros H. apply in_flat_map in H as (i & _ & Hi).
  destruct (nth_error l i) as [y|] eqn:E; simpl in Hi; [|contradiction].
  destruct Hi as [<-|[]]. eapply nth_error_In; eauto.
Qed.

Lemma slice_eval_In {A} (step : string) (l vals : list A) (x : A) :
  Slice.eval step l = Ok vals -> In x vals -> In x l.
Proof.
  unfold Slice.eval.
  destruct (Str.split ":"%char step) as [|a [|b rest]]; try discriminate.
  destruct (Slice.part a) as [e|start]; simpl; [discriminate|].
  destruct (Slice.part b) as [e|stop]; simpl; [discriminate|].
  destruct (match rest with [] => Ok None | c :: _ => Slice.part c end) as [e|stride];
    simpl; [discriminate|].
  destruct stride as [[|k|k]|]; try discriminate;
    intros H; injection H as <-; apply slice_take_In.
Qed.

Lemma lookup_In (k : string) (kvs : list (string * json)) (v : json) :
  lookup k kvs = Some v -> In (k, v) kvs.
Proof.
  induction kvs as [|[k' v'] kvs IH]; simpl; [discriminate|].
  destruct (String.eqb_spec k' k) as [->|].
  - intros H. injection H as <-. now left.
  - intros H. right. auto.
Qed.

(** ** Two runs of the evaluator side by side *)

Section Simulation.

Variables py1 py2 : string -> json -> res bool.
Variables rt1 rt2 : result_type.
Variable E : entry -> entry -> Prop.
Variable L : list exn -> list exn -> Prop.
Variable Inv : json -> string -> Prop.
Variable ok_step : string -> Prop.

Hypothesis L_refl : forall l, L l l.
Hypothesis L_app : forall a a' b b', L a a' -> L b b' -> L (a ++ b) (a' ++ b').
Hypothesis Inv_idx : forall l path i v,
    Inv (JList l) path -> nth_error l i = Some v -> Inv v (path_idx path i).
Hypothesis Inv_digit : forall l path step v,
    Inv (JList l) path -> Str.isdigit step = true ->
    nth_error l (Str.int step) = Some v -> Inv v (path_key path step).
Hypothesis Inv_key : forall kvs path k v,
    Inv (JDict kvs) path -> In (k, v) kvs -> Inv v (path_key path k).
Hypothesis Inv_extract : forall kvs path step keys,
    ok_step step -> Syntax.is_extractor step = true ->
    Inv (JDict kvs) path -> Inv (JDict (extract kvs keys)) path.
Hypothesis store_rel : forall obj path,
    Inv obj path -> out_rel E L (store rt1 obj path) (store rt2 obj path).
Hypothesis filter_rel : forall n1 n2 v p step,
    out_rel E L (n1 v p) (n2 v p) ->
    out_rel E L (_filter py1 n1 v p step) (_filter py2 n2 v p step).

Local Abbreviation R := (out_rel E L).

Lemma rel_skip : R skip skip.
Proof. repeat split; simpl; auto. Qed.

Lemma rel_raise e : R (raise e) (raise e).
Proof. repeat split; simpl; auto. Qed.

Lemma rel_log_errors lg : R (log_errors lg) (log_errors lg).
Proof. repeat split; simpl; auto. Qed.

Lemma rel_enter a b : R a b -> R (enter a) (enter b).
Proof. intros (H1 & H2 & H3). repeat split; simpl; auto. Qed.

Lemma rel_and_then a a' b b' : R a a' -> R b b' -> R (a >> b) (a' >> b').
Proof.
  intros (H1 & H2 & H3) (K1 & K2 & K3).
  destruct a as [ra la ea da], a' as [ra' la' ea' da']; simpl in *; subst ea'.
  unfold out_rel, and_then; destruct ea; simpl; repeat split; auto.
  now apply Forall2_app.
Qed.

Lemma rel_for_enum {A} (f g : nat -> A -> Out) (l : list A) (i : nat) :
  (forall j v, nth_error l j = Some v -> R (f (i + j) v) (g (i + j) v)) ->
  R (for_enum f i l) (for_enum g i l).
Proof.
  revert i. induction l as [|x l IH]; simpl; intros i H; [apply rel_skip|].
  apply rel_and_then.
  - specialize (H 0 x eq_refl). now rewrite Nat.add_0_r in H.
  - apply IH. intros j v Hj. specialize (H (S j) v Hj).
    now rewrite Nat.add_succ_r in H.
Qed.

Lemma rel_for_items {K A} (f g : K -> A -> Out) (l : list (K * A)) :
  (forall k v, In (k, v) l -> R (f k v) (g k v)) ->
  R (for_items f l) (for_items g l).
Proof.
  induction l as [|[k x] l IH]; simpl; intros H; [apply rel_skip|].
  apply rel_and_then; [apply H; now left|].
  apply IH. intros; apply H; now right.
Qed.

Lemma rel_for_each {A} (f g : A -> Out) (l : list A) :
  (forall x, In x l -> R (f x) (g x)) -> R (for_each f l) (for_each g l).
Proof.
  induction l as [|x l IH]; simpl; intros H; [apply rel_skip|].
  apply rel_and_then; [apply H; now left|].
  apply IH. intros; apply H; now right.
Qed.

Lemma rel_traverse f g obj path :
  Inv obj path ->
  (forall v p, Inv v p -> R (f v p) (g v p)) ->
  R (_traverse f obj path) (_traverse g obj path).
Proof.
  intros HI H. destruct obj; simpl; try apply rel_skip.
  - apply rel_for_enum. intros j v Hj. apply H. eapply Inv_idx; eauto.
  - apply rel_for_items. intros k v Hk. apply H. eapply Inv_key; eauto.
Qed.

Lemma rel_descend n1 n2 obj :
  (forall v p, Inv v p -> R (n1 v p) (n2 v p)) ->
  forall path, Inv obj path -> R (descend n1 obj path) (descend n2 obj path).
Proof.
  intros Hn. induction obj as [| | | |l IH|kvs IH] using json_ind;
    intros path HI; simpl; apply rel_enter; apply rel_and_then; auto using rel_skip.
  - apply rel_for_enum. intros j v Hj. simpl.
    rewrite Forall_forall in IH. apply IH.
    + eapply nth_error_In; eauto.
    + eapply Inv_idx; eauto.
  - apply rel_for_items. intros k v Hk.
    rewrite Forall_forall in IH. apply (IH (k, v) Hk).
    eapply Inv_key; eauto.
Qed.

Lemma rel_sorted_then {K} (f g : K -> json -> Out) (pairs : list (K * json)) sortbys :
  (forall k v, In (k, v) pairs -> R (f k v) (g k v)) ->
  R (sorted_then f pairs sortbys) (sorted_then g pairs sortbys).
Proof.
  intros H. unfold sorted_then.
  destruct (Sorter._sorter pairs sortbys) as [r lg] eqn:Es.
  apply rel_and_then; [apply rel_log_errors|].
  destruct r as [e|sorted]; [apply rel_raise|].
  apply rel_for_items. intros k v Hk. apply H.
  assert (Hp : Permutation pairs sorted) by (apply (sorter_perm pairs sortbys); now rewrite Es).
  eapply Permutation_in; [apply Permutation_sym; exact Hp|exact Hk].
Qed.

Lemma rel_filter_step n1 n2 obj path step :
  Inv obj path ->
  (forall v p, Inv v p -> R (n1 v p) (n2 v p)) ->
  R (match Filter.rewrite (Str.strip 2 step) 0 with
     | inl e => raise e
     | inr step' => _traverse (fun v p => _filter py1 n1 v p step') obj path
     end)
    (match Filter.rewrite (Str.strip 2 step) 0 with
     | inl e => raise e
     | inr step' => _traverse (fun v p => _filter py2 n2 v p step') obj path
     end).
Proof.
  intros HI Hn. destruct (Filter.rewrite _ _) as [e|step']; [apply rel_raise|].
  apply rel_traverse; [exact HI|]. intros v p Hv. apply filter_rel. now apply Hn.
Qed.

Lemma rel_trace_body n1 n2 step obj path :
  ok_step step -> Inv obj path ->
  (forall v p, Inv v p -> R (n1 v p) (n2 v p)) ->
  R (trace_body py1 n1 step obj path) (trace_body py2 n2 step obj path).
Proof.
  intros Hok HI Hn. unfold trace_body.
  destruct (step =? "*")%string; [now apply rel_traverse|].
  destruct obj as [| | | |l|kvs].
  1-4: destruct (Syntax.is_filter step); [now apply rel_filter_step|];
       destruct (Syntax.is_sorter step); [apply rel_raise|];
       destruct (Syntax.is_extractor step); [apply rel_raise|apply rel_skip].
  - destruct (Str.isdigit step) eqn:Ed.
    { destruct (nth_error l (Str.int step)) as [v|] eqn:En; [|apply rel_skip].
      apply Hn. eapply Inv_digit; eauto. }
    destruct (Syntax.slice_match step).
    { destruct (Slice.eval step (enumerate l)) as [e|vals] eqn:Ev; [apply rel_raise|].
      apply rel_for_items. intros i v Hi. apply Hn.
      eapply Inv_idx; eauto. apply enumerate_In. eapply slice_eval_In; eauto. }
    destruct (Syntax.is_filter step); [now apply rel_filter_step|].
    destruct (Syntax.is_sorter step).
    { apply rel_sorted_then. intros i v Hi. apply Hn.
      eapply Inv_idx; eauto. now apply enumerate_In. }
    destruct (Syntax.is_extractor step); [apply rel_raise|apply rel_skip].
  - destruct (lookup step kvs) as [v|] eqn:El.
    { apply Hn. eapply Inv_key; eauto. now apply lookup_In. }
    destruct (Syntax.select_match step).
    { apply rel_for_each. intros k _.
      destruct (lookup k kvs) as [v|] eqn:Ek; [|apply rel_skip].
      apply Hn. eapply Inv_key; eauto. now apply lookup_In. }
    destruct (Syntax.is_filter step); [now apply rel_filter_step|].
    destruct (Syntax.is_sorter step).
    { apply rel_sorted_then. intros k v Hk. apply Hn. eapply Inv_key; eauto. }
    destruct (Syntax.is_extractor step) eqn:Ee; [|apply rel_skip].
    apply Hn. eapply Inv_extract; eauto.
Qed.

Lemma rel_trace_step n1 n2 step obj path :
  ok_step step -> Inv obj path ->
  (forall v p, Inv v p -> R (n1 v p) (n2 v p)) ->
  R (trace_step py1 n1 step obj path) (trace_step py2 n2 step obj path).
Proof.
  intros Hok HI Hn. unfold trace_step.
  destruct (step =? "..")%string; [now apply rel_descend|].
  apply rel_enter. now apply rel_trace_body.
Qed.

(** The two runs stay side by side along any steps that [ok_step]
    allows. *)
Lemma rel_trace segments :
  Forall ok_step segments ->
  forall obj path, Inv obj path ->
  R (_trace py1 rt1 segments obj path) (_trace py2 rt2 segments obj path).
Proof.
  induction 1 as [|step rest Hok Hrest IH]; intros obj path HI; simpl.
  - apply rel_enter. now apply store_rel.
  - apply rel_trace_step; auto.
Qed.

End Simulation.

(** ** C6: a predicate that raises counts as false *)

Lemma Forall2_eq_inv {A} (l l' : list A) : Forall2 eq l l' -> l = l'.
Proof. induction 1; congruence. Qed.

Lemma trace_raising_as_false py_eval rt segments obj path :
  out_rel eq (fun _ _ => True)
          (_trace py_eval rt segments obj path)
          (_trace (raising_as_false py_eval) rt segments obj path).
Proof.
  apply (@rel_trace py_eval (raising_as_false py_eval) rt rt eq (fun _ _ => True)
                    (fun _ _ => True) (fun _ => True)); auto.
  - intros o p _. repeat split. destruct rt; simpl; repeat constructor.
  - intros n1 n2 v p step H. unfold _filter, raising_as_false.
    destruct (py_eval step v) as [e|[|]]; simpl; auto; repeat split; simpl; auto.
  - clear. induction segments; constructor; auto.
Qed.

(** C6.  Where the evaluation of a predicate against a child raises,
    [_filter] logs the exception and passes over the child; and a run of
    [parse] returns the same results, or raises the same exception, as
    the run in which every such evaluation answers false instead. *)
Theorem filter_fail_open :
  forall py_eval,
    (forall next obj path step e,
        py_eval step obj = Raise e ->
        _filter py_eval next obj path step = log_error e) /\
    (forall segments doc mode,
        parse py_eval segments doc mode
        = parse (raising_as_false py_eval) segments doc mode).
Proof.
  intros py_eval. split.
  - intros next obj path step e H. unfold _filter. now rewrite H.
  - intros segments doc mode. unfold parse.
    destruct (negb _); [reflexivity|].
    destruct (result_type_of mode) as [rt|]; [|reflexivity].
    destruct (trace_raising_as_false py_eval rt segments doc "$") as (Hr & _ & Hx).
    rewrite <- Hx. apply Forall2_eq_inv in Hr. now rewrite Hr.
Qed.

(** ** C2: results in VALUE mode and in PATH mode *)

Lemma split_app_sep (sep : ascii) (a b : string) :
  Str.split sep (a ++ String sep b) = Str.split sep a ++ Str.split sep b.
Proof.
  induction a as [|c a IH]; simpl.
  - now rewrite Ascii.eqb_refl.
  - destruct (Ascii.eqb c sep); [now rewrite IH|].
    rewrite IH. destruct (Str.split sep a) as [|h t] eqn:E; [|reflexivity].
    now apply split_not_nil in E.
Qed.

Lemma split_path_key (path k : string) :
  Str.mem Compiler.SEP k = false ->
  Str.split Compiler.SEP (path_key path k) = Str.split Compiler.SEP path ++ [k].
Proof.
  intros H. unfold path_key, Compiler.SEPs. simpl.
  now rewrite split_app_sep, (split_no_sep _ _ H).
Qed.

Lemma walk_app (ps qs : list string) (doc : json) :
  walk (ps ++ qs) doc = match walk ps doc with Some v => walk qs v | None => None end.
Proof.
  revert doc. induction ps as [|p ps IH]; simpl; intros doc; [reflexivity|].
  destruct doc; try reflexivity.
  - destruct (Str.isdigit p); [|reflexivity].
    destruct (nth_error l (Str.int p)); auto.
  - destruct (lookup p kvs); auto.
Qed.

Lemma digits_of_uint (d : Decimal.uint) :
  Str.forallb Str.is_digit (NilEmpty.string_of_uint d) = true.
Proof. induction d; simpl; auto. Qed.

Lemma to_little_uint_not_nil (n : nat) (acc : Decimal.uint) :
  acc <> Decimal.Nil -> Nat.to_little_uint n acc <> Decimal.Nil.
Proof.
  revert acc. induction n as [|n IH]; simpl; intros acc H; [exact H|].
  apply IH. destruct acc; simpl; discriminate.
Qed.

Lemma of_nat_not_empty (n : nat) : Str.of_nat n <> EmptyString.
Proof.
  unfold Str.of_nat, Nat.to_uint. intros H.
  assert (Hn : Decimal.rev (Nat.to_little_uint n (Decimal.D0 Decimal.Nil)) = Decimal.Nil).
  { destruct (Decimal.rev _); simpl in H; try discriminate. reflexivity. }
  apply DecimalFacts.rev_nil_inv in Hn.
  revert Hn. apply to_little_uint_not_nil. discriminate.
Qed.

Lemma of_nat_digits (n : nat) : Str.forallb Str.is_digit (Str.of_nat n) = true.
Proof. apply digits_of_uint. Qed.

Lemma isdigit_of_nat (n : nat) : Str.isdigit (Str.of_nat n) = true.
Proof.
  unfold Str.isdigit. rewrite of_nat_digits, andb_true_r.
  apply negb_true_iff, String.eqb_neq, of_nat_not_empty.
Qed.

Lemma int_of_nat (n : nat) : Str.int (Str.of_nat n) = n.
Proof. unfold Str.int, Str.of_nat. now rewrite NilEmpty.usu, Unsigned.of_to. Qed.

Lemma digits_no_sep (s : string) :
  Str.forallb Str.is_digit s = true -> Str.mem Compiler.SEP s = false.
Proof. intros H. now apply (mem_forallb Str.is_digit). Qed.

Lemma distinct_keys_lookup (kvs : list (string * json)) (k : string) (v : json) :
  distinct_keys kvs = true -> In (k, v) kvs -> lookup k kvs = Some v.
Proof.
  induction kvs as [|[k' v'] kvs IH]; simpl; [contradiction|].
  intros [Hn Hd]%andb_true_iff [H|H].
  - injection H as -> ->. now rewrite String.eqb_refl.
  - destruct (String.eqb_spec k' k) as [->|]; [|auto].
    apply negb_true_iff in Hn. exfalso.
    assert (Hx : existsb (fun kv => (fst kv =? k)%string) kvs = true).
    { apply existsb_exists. exists (k, v). split; [exact H|apply String.eqb_refl]. }
    congruence.
Qed.

Section ModeSymmetry.

Variable doc : json.

Local Abbreviation at_path := (at_path doc).

Lemma at_path_child obj path k v :
  at_path obj path ->
  wf_json v = true -> sep_free v = true ->
  Str.mem Compiler.SEP k = false ->
  walk [k] obj = Some v ->
  at_path v (path_key path k).
Proof.
  intros (_ & _ & ps & Hs & Hw) Hwf Hsf Hk Hv. repeat split; auto.
  exists (ps ++ [k]). split.
  - now rewrite split_path_key, Hs.
  - now rewrite walk_app, Hw.
Qed.

Lemma at_path_nth l path i v :
  at_path (JList l) path -> nth_error l i = Some v ->
  wf_json v = true /\ sep_free v = true.
Proof.
  intros (Hwf & Hsf & _) Hn. simpl in Hwf, Hsf.
  rewrite forallb_forall in Hwf, Hsf. apply nth_error_In in Hn. auto.
Qed.

Lemma at_path_idx l path i v :
  at_path (JList l) path -> nth_error l i = Some v -> at_path v (path_idx path i).
Proof.
  intros HI Hn. destruct (at_path_nth _ HI Hn) as [Hwf Hsf].
  eapply at_path_child; [exact HI|auto|auto| |].
  - apply digits_no_sep, of_nat_digits.
  - simpl. now rewrite isdigit_of_nat, int_of_nat, Hn.
Qed.

Lemma at_path_digit l path step v :
  at_path (JList l) path -> Str.isdigit step = true ->
  nth_error l (Str.int step) = Some v -> at_path v (path_key path step).
Proof.
  intros HI Hd Hn. destruct (at_path_nth _ HI Hn) as [Hwf Hsf].
  eapply at_path_child; [exact HI|auto|auto| |].
  - now apply digits_no_sep, isdigit_forallb.
  - simpl. now rewrite Hd, Hn.
Qed.

Lemma at_path_key kvs path k v :
  at_path (JDict kvs) path -> In (k, v) kvs -> at_path v (path_key path k).
Proof.
  intros HI Hk. pose proof HI as (Hwf & Hsf & _). simpl in Hwf, Hsf.
  apply andb_true_iff in Hwf as [Hd Hwf].
  rewrite forallb_forall in Hwf, Hsf.
  specialize (Hwf _ Hk). specialize (Hsf _ Hk). simpl in Hwf, Hsf.
  apply andb_true_iff in Hsf as [Hm Hsf]. apply negb_true_iff in Hm.
  eapply at_path_child; [exact HI|auto|auto|exact Hm|].
  simpl. now rewrite (distinct_keys_lookup _ _ _ Hd Hk).
Qed.

Lemma trace_value_path py_eval segments :
  wf_json doc = true -> sep_free doc = true ->
  Forall not_extractor segments ->
  out_rel (resolves doc) eq
          (_trace py_eval VALUE segments doc "$")
          (_trace py_eval PATH segments doc "$").
Proof.
  intros Hwf Hsf Hseg.
  apply (@rel_trace py_eval py_eval VALUE PATH (resolves doc) eq at_path not_extractor);
    auto.
  - intros; subst; reflexivity.
  - apply at_path_idx.
  - apply at_path_digit.
  - apply at_path_key.
  - unfold not_extractor. intros; congruence.
  - intros obj path (_ & _ & ps & Hs & Hw). repeat split; simpl; auto.
    constructor; [|constructor]. exists obj, path. repeat split.
    unfold resolve. now rewrite Hs.
  - intros n1 n2 v p step H. unfold _filter.
    destruct (py_eval step v) as [e|[|]]; auto; repeat split; simpl; auto.
  - repeat split; auto. now exists [].
Qed.

End ModeSymmetry.

Lemma trace_same_length py_eval segments doc path :
  out_rel (fun _ _ => True) eq
          (_trace py_eval VALUE segments doc path)
          (_trace py_eval PATH segments doc path).
Proof.
  apply (@rel_trace py_eval py_eval VALUE PATH (fun _ _ => True) eq
                    (fun _ _ => True) (fun _ => True)); auto.
  - intros; subst; reflexivity.
  - intros o p _. repeat split; simpl; auto.
  - intros n1 n2 v p step H. unfold _filter.
    destruct (py_eval step v) as [e|[|]]; auto; repeat split; simpl; auto.
  - clear. induction segments; constructor; auto.
Qed.

Lemma parse_rel py_eval segments doc (E : entry -> entry -> Prop) :
  out_rel E eq (_trace py_eval VALUE segments doc "$")
               (_trace py_eval PATH segments doc "$") ->
  res_rel (Forall2 E) (parse py_eval segments doc "VALUE")
                      (parse py_eval segments doc "PATH").
Proof.
  intros (Hr & _ & Hx). unfold parse.
  destruct (negb _); [reflexivity|]. simpl.
  rewrite <- Hx. destruct (raised _); simpl; auto.
Qed.

(** C2 (counterexample).  After the field extractor of [$.(a,b)] the
    VALUE result is the new mapping [{"a": 1, "b": null}] while the PATH
    result is ["$"], which leads to the document itself. *)
Lemma extractor_breaks_mode_symmetry :
  evaluate no_eval "$.(a,b)" doc_ac "VALUE"
  = Ok [EValue (JDict [("a", JNum 1); ("b", JNull)])] /\
  evaluate no_eval "$.(a,b)" doc_ac "PATH" = Ok [EPath "$"] /\
  resolve doc_ac "$" = Some doc_ac /\
  resolve doc_ac "$" <> Some (JDict [("a", JNum 1); ("b", JNull)]).
Proof. repeat split; try reflexivity. discriminate. Qed.

(** A key that contains the separator: the path of the value does not
    lead back to it. *)
Example separator_in_key :
  parse no_eval ["*"] (JDict [("a;b", JNum 1)]) "VALUE" = Ok [EValue (JNum 1)] /\
  parse no_eval ["*"] (JDict [("a;b", JNum 1)]) "PATH" = Ok [EPath "$;a;b"] /\
  resolve (JDict [("a;b", JNum 1)]) "$;a;b" = None.
Proof. repeat split; reflexivity. Qed.

(** C2 (amended).  For all steps and every document, evaluation in
    VALUE mode and in PATH mode raise the same exception or return lists
    of the same length.  When moreover no step has the form of a field
    extractor and no key of the (well-formed) document contains the
    separator, walking the document along the i-th PATH result yields
    the i-th VALUE result, for every i. *)
Theorem mode_symmetry :
  forall py_eval segments doc,
    res_rel (fun vs ps => List.length vs = List.length ps)
            (parse py_eval segments doc "VALUE")
            (parse py_eval segments doc "PATH") /\
    (wf_json doc = true -> sep_free doc = true ->
     Forall not_extractor segments ->
     res_rel (Forall2 (resolves doc))
             (parse py_eval segments doc "VALUE")
             (parse py_eval segments doc "PATH")).
Proof.
  intros py_eval segments doc. split.
  - pose proof (parse_rel py_eval segments doc (trace_same_length _ _ _ _)) as H.
    destruct (parse py_eval segments doc "VALUE"), (parse py_eval segments doc "PATH");
      simpl in *; auto. eapply Forall2_length; eauto.
  - intros Hwf Hsf Hseg. apply parse_rel. now apply trace_value_path.
Qed.

Lemma mode_symmetry_witness :
  wf_json doc_bicycle = true /\ sep_free doc_bicycle = true /\
  Forall not_extractor [".."; "*"] /\
  res_rel (Forall2 (resolves doc_bicycle))
          (parse no_eval [".."; "*"] doc_bicycle "VALUE")
          (parse no_eval [".."; "*"] doc_bicycle "PATH").
Proof.
  assert (H : Forall not_extractor [".."; "*"]) by (repeat constructor).
  repeat split; try exact H.
  exact (proj2 (mode_symmetry no_eval [".."; "*"] doc_bicycle) eq_refl eq_refl H).
Defined.

(** ** C9: recursive descent *)

Lemma same_run_refl a : same_run a a.
Proof. repeat split. Qed.

Lemma same_run_trans a b c : same_run a b -> same_run b c -> same_run a c.
Proof. intros (H1 & H2 & H3) (K1 & K2 & K3). repeat split; congruence. Qed.

Lemma same_run_enter a : same_run (enter a) a.
Proof. repeat split. Qed.

Lemma same_run_and_then a a' b b' :
  same_run a a' -> same_run b b' -> same_run (a >> b) (a' >> b').
Proof.
  intros (H1 & H2 & H3) (K1 & K2 & K3).
  destruct a as [ra la ea da], a' as [ra' la' ea' da']; simpl in *; subst.
  unfold same_run, and_then; destruct ea'; simpl; repeat split; congruence.
Qed.

Lemma descend_unfold next obj path :
  descend next obj path = enter (next obj path >> _traverse (descend next) obj path).
Proof. destruct obj; reflexivity. Qed.

(** A step [".."] calls the next step on every node of the value, once,
    a node before its children. *)
Lemma descend_nodes next obj :
  forall path,
    same_run (descend next obj path)
             (for_each (fun np => next (fst np) (snd np)) (nodes obj path)).
Proof.
  induction obj as [| | | |l IH|kvs IH] using json_ind; intros path;
    try (simpl; eapply same_run_trans; [apply same_run_enter|];
         apply same_run_and_then; apply same_run_refl).
  - simpl. eapply same_run_trans; [apply same_run_enter|].
    apply same_run_and_then; [apply same_run_refl|].
    generalize 0 as i. induction IH as [|x l Hx _ IHl]; intros i; simpl.
    + apply same_run_refl.
    + rewrite for_each_app. apply same_run_and_then; [apply Hx|apply IHl].
  - simpl. eapply same_run_trans; [apply same_run_enter|].
    apply same_run_and_then; [apply same_run_refl|].
    induction IH as [|[k x] l Hx _ IHl]; simpl.
    + apply same_run_refl.
    + rewrite for_each_app. apply same_run_and_then; [apply Hx|apply IHl].
Qed.

Lemma length_flat_enum {A B} (f : nat -> A -> list B) (g : A -> nat) (l : list A) :
  Forall (fun x => forall i, List.length (f i x) = g x) l ->
  forall i, List.length (flat_enum f i l) = fold_right (fun c n => g c + n) 0 l.
Proof.
  induction 1 as [|x l Hx _ IH]; intros i; simpl; [reflexivity|].
  now rewrite length_app, Hx, IH.
Qed.

(** [nodes] lists every node once. *)
Lemma length_nodes obj : forall path, List.length (nodes obj path) = size obj.
Proof.
  induction obj as [| | | |l IH|kvs IH] using json_ind; intros path; simpl; auto.
  - f_equal. apply (length_flat_enum _ size).
    eapply Forall_impl; [|exact IH]. intros x Hx i. apply Hx.
  - f_equal. induction IH as [|[k x] l Hx _ IHl]; simpl; [reflexivity|].
    now rewrite length_app, Hx, IHl.
Qed.

Lemma word_not_char (c : ascii) (s : string) :
  Str.forallb Str.is_word s = true -> Str.is_word c = false ->
  forall s', (s =? String c s')%string = false.
Proof.
  intros H Hc s'. apply String.eqb_neq. intros ->. simpl in H.
  apply andb_true_iff in H as [H _]. congruence.
Qed.

Lemma word_not_startswith (c : ascii) (p s : string) :
  Str.forallb Str.is_word s = true -> Str.is_word c = false ->
  Str.startswith (String c p) s = false.
Proof.
  intros H Hc. destruct s as [|a s]; simpl; [reflexivity|].
  simpl in H. apply andb_true_iff in H as [Ha _].
  destruct (Ascii.eqb_spec c a) as [->|]; [congruence|reflexivity].
Qed.

Lemma word_select_from (s : string) :
  Str.forallb Str.is_word s = true ->
  Syntax.select_from Syntax.SelFirst s = false /\
  Syntax.select_from Syntax.SelStart s = false.
Proof.
  induction s as [|a s IH]; simpl; intros H; [auto|].
  apply andb_true_iff in H as [Ha Hs]. destruct (IH Hs) as [H1 H2].
  unfold Syntax.is_sel_char. rewrite Ha. simpl. auto.
Qed.

(** On a step that is a plain name (word characters only) only the
    index rule and the key rule apply. *)
Lemma trace_body_word py_eval next (k : string) obj path :
  Str.forallb Str.is_word k = true ->
  trace_step py_eval next k obj path
  = enter (match obj with
           | JList l =>
               if Str.isdigit k then
                 match nth_error l (Str.int k) with
                 | Some v => next v (path_key path k)
                 | None => skip
                 end
               else skip
           | JDict kvs =>
               match lookup k kvs with
               | Some v => next v (path_key path k)
               | None => skip
               end
           | _ => skip
           end).
Proof.
  intros H. unfold trace_step, trace_body.
  rewrite (@word_not_char "."%char k H eq_refl).
  rewrite (@word_not_char "*"%char k H eq_refl).
  unfold Syntax.is_filter, Syntax.is_sorter, Syntax.is_extractor, Syntax.select_match.
  rewrite !(@word_not_startswith _ _ _ H) by reflexivity.
  rewrite (proj2 (word_select_from _ H)).
  rewrite (slice_match_needs_colon k) by (now apply (mem_forallb Str.is_word)).
  simpl. destruct obj; reflexivity.
Qed.

Lemma trace_word_match py_eval rt (k : string) obj path :
  Str.forallb Str.is_word k = true ->
  same_run (_trace py_eval rt [k] obj path)
           (mkOut (match_key rt k (obj, path)) [] None 0).
Proof.
  intros H. simpl. rewrite trace_body_word by exact H.
  eapply same_run_trans; [apply same_run_enter|].
  unfold match_key, store. destruct obj; try apply same_run_refl.
  - destruct (Str.isdigit k); [|apply same_run_refl].
    destruct (nth_error l (Str.int k)); [|apply same_run_refl].
    destruct rt; repeat split.
  - destruct (lookup k kvs); [|apply same_run_refl].
    destruct rt; repeat split.
Qed.

Lemma for_each_results {A} (f : A -> Out) (g : A -> list entry) (l : list A) :
  (forall x, same_run (f x) (mkOut (g x) [] None 0)) ->
  same_run (for_each f l) (mkOut (flat_map g l) [] None 0).
Proof.
  intros H. induction l as [|x l IH]; simpl; [apply same_run_refl|].
  eapply same_run_trans; [apply same_run_and_then; [apply H|apply IH]|].
  repeat split.
Qed.

Lemma length_flat_map_le {A B} (g : A -> list B) (l : list A) (n : nat) :
  (forall x, List.length (g x) <= n) -> List.length (flat_map g l) <= n * List.length l.
Proof.
  intros H. induction l as [|x l IH]; simpl; [lia|].
  rewrite length_app. specialize (H x). lia.
Qed.

(** *** How deep the calls of [_trace] nest *)

Lemma depth_and_then a b n : depth a <= n -> depth b <= n -> depth (a >> b) <= n.
Proof. unfold and_then. destruct (raised a); simpl; lia. Qed.

Lemma depth_for_enum {A} (f : nat -> A -> Out) (l : list A) (n : nat) :
  (forall i x, In x l -> depth (f i x) <= n) -> forall i, depth (for_enum f i l) <= n.
Proof.
  induction l as [|x l IH]; simpl; intros H i; [lia|].
  apply depth_and_then; [apply H; now left|]. apply IH. intros; apply H; now right.
Qed.

Lemma depth_for_items {K A} (f : K -> A -> Out) (l : list (K * A)) (n : nat) :
  (forall k x, In (k, x) l -> depth (f k x) <= n) -> depth (for_items f l) <= n.
Proof.
  induction l as [|[k x] l IH]; simpl; intros H; [lia|].
  apply depth_and_then; [apply H; now left|]. apply IH. intros; apply H; now right.
Qed.

Lemma depth_for_each {A} (f : A -> Out) (l : list A) (n : nat) :
  (forall x, In x l -> depth (f x) <= n) -> depth (for_each f l) <= n.
Proof.
  induction l as [|x l IH]; simpl; intros H; [lia|].
  apply depth_and_then; [apply H; now left|]. apply IH. intros; apply H; now right.
Qed.

Lemma height_list_child (l : list json) (v : json) :
  In v l -> S (height v) <= height (JList l).
Proof.
  change (height (JList l)) with (fold_right (fun c m => Nat.max (S (height c)) m) 0 l).
  induction l as [|x l IH]; cbn [fold_right In]; [contradiction|].
  intros [->|H]; [lia|]. specialize (IH H). lia.
Qed.

Lemma height_dict_child (kvs : list (string * json)) (k : string) (v : json) :
  In (k, v) kvs -> S (height v) <= height (JDict kvs).
Proof.
  change (height (JDict kvs))
    with (fold_right (fun kv m => Nat.max (S (height (snd kv))) m) 0 kvs).
  induction kvs as [|[k' x] l IH]; cbn [fold_right In snd]; [contradiction|].
  intros [H|H]; [injection H as -> ->; lia|]. specialize (IH H). lia.
Qed.

Section Depth.

Variable py_eval : string -> json -> res bool.
Variable next : json -> string -> Out.
Variable B : nat.
Hypothesis next_depth : forall v p, depth (next v p) <= B + height v.

Lemma depth_traverse (f : json -> string -> Out) obj path :
  (forall v p, depth (f v p) <= B + height v) ->
  depth (_traverse f obj path) <= B + height obj.
Proof.
  intros Hf. destruct obj; simpl; try lia.
  - apply depth_for_enum. intros i x Hx.
    pose proof (height_list_child _ _ Hx). specialize (Hf x (path_idx path i)).
    simpl in *. lia.
  - apply depth_for_items. intros k x Hx.
    pose proof (height_dict_child _ _ _ Hx). specialize (Hf x (path_key path k)).
    simpl in *. lia.
Qed.

Lemma depth_filter v p step : depth (_filter py_eval next v p step) <= B + height v.
Proof.
  unfold _filter. destruct (py_eval step v) as [e|[|]]; simpl; auto; lia.
Qed.

Lemma depth_filter_step obj path step :
  depth (match Filter.rewrite (Str.strip 2 step) 0 with
         | inl e => raise e
         | inr step' => _traverse (fun v p => _filter py_eval next v p step') obj path
         end) <= B + height obj.
Proof.
  destruct (Filter.rewrite _ _); simpl; [lia|].
  apply depth_traverse. intros; apply depth_filter.
Qed.

Lemma depth_sorted_then {K} (f : K -> json -> Out) (pairs : list (K * json)) sortbys n :
  (forall k v, In (k, v) pairs -> depth (f k v) <= n) ->
  depth (sorted_then f pairs sortbys) <= n.
Proof.
  intros H. unfold sorted_then.
  destruct (Sorter._sorter pairs sortbys) as [r lg] eqn:Es.
  apply depth_and_then; [simpl; lia|].
  destruct r as [e|sorted]; [simpl; lia|].
  apply depth_for_items. intros k v Hk. apply H.
  assert (Hp : Permutation pairs sorted) by (apply (sorter_perm pairs sortbys); now rewrite Es).
  eapply Permutation_in; [apply Permutation_sym; exact Hp|exact Hk].
Qed.

Lemma depth_descend obj : forall path, depth (descend next obj path) <= S (B + height obj).
Proof.
  induction obj as [| | | |l IH|kvs IH] using json_ind; intros path;
    rewrite descend_unfold; simpl depth; apply le_n_S;
    (apply depth_and_then; [apply next_depth|]); simpl; try lia.
  - apply depth_for_enum. intros i x Hx. rewrite Forall_forall in IH.
    specialize (IH x Hx (path_idx path i)).
    pose proof (height_list_child _ _ Hx). simpl in *. lia.
  - apply depth_for_items. intros k x Hx. rewrite Forall_forall in IH.
    specialize (IH (k, x) Hx (path_key path k)).
    pose proof (height_dict_child _ _ _ Hx). simpl in *. lia.
Qed.

Lemma depth_trace_body step obj path :
  not_extractor step ->
  depth (trace_body py_eval next step obj path) <= B + height obj.
Proof.
  intros Hne. unfold trace_body.
  destruct (step =? "*")%string; [apply depth_traverse, next_depth|].
  destruct obj as [| | | |l|kvs].
  1-4: destruct (Syntax.is_filter step); [apply depth_filter_step|];
       destruct (Syntax.is_sorter step); [simpl; lia|];
       destruct (Syntax.is_extractor step); simpl; lia.
  - destruct (Str.isdigit step).
    { destruct (nth_error l (Str.int step)) as [v|] eqn:En; [|simpl; lia].
      apply nth_error_In in En. pose proof (height_list_child _ _ En).
      specialize (next_depth v (path_key path step)). lia. }
    destruct (Syntax.slice_match step).
    { destruct (Slice.eval step (enumerate l)) as [e|vals] eqn:Ev; [simpl; lia|].
      apply depth_for_items. intros i v Hi.
      assert (Hv : In v l).
      { eapply nth_error_In, enumerate_In, slice_eval_In; eauto. }
      pose proof (height_list_child _ _ Hv).
      specialize (next_depth v (path_idx path i)). lia. }
    destruct (Syntax.is_filter step); [apply depth_filter_step|].
    destruct (Syntax.is_sorter step).
    { apply depth_sorted_then. intros i v Hi.
      assert (Hv : In v l) by (eapply nth_error_In, enumerate_In; eauto).
      pose proof (height_list_child _ _ Hv).
      specialize (next_depth v (path_idx path i)). lia. }
    destruct (Syntax.is_extractor step); simpl; lia.
  - destruct (lookup step kvs) as [v|] eqn:El.
    { apply lookup_In in El. pose proof (height_dict_child _ _ _ El).
      specialize (next_depth v (path_key path step)). lia. }
    destruct (Syntax.select_match step).
    { apply depth_for_each. intros k _.
      destruct (lookup k kvs) as [v|] eqn:Ek; [|simpl; lia].
      apply lookup_In in Ek. pose proof (height_dict_child _ _ _ Ek).
      specialize (next_depth v (path_key path k)). lia. }
    destruct (Syntax.is_filter step); [apply depth_filter_step|].
    destruct (Syntax.is_sorter step).
    { apply depth_sorted_then. intros k v Hk.
      pose proof (height_dict_child _ _ _ Hk).
      specialize (next_depth v (path_key path k)). lia. }
    rewrite Hne. simpl; lia.
Qed.

Lemma depth_trace_step step obj path :
  not_extractor step ->
  depth (trace_step py_eval next step obj path) <= S (B + height obj).
Proof.
  intros Hne. unfold trace_step.
  destruct (step =? "..")%string; [apply depth_descend|].
  simpl. apply le_n_S. now apply depth_trace_body.
Qed.

End Depth.

(** No call of [_trace] is nested deeper than the number of steps plus
    the depth of the document, the first call apart, when no step has
    the form of a field extractor. *)
Lemma trace_depth_bound py_eval rt segments :
  Forall not_extractor segments ->
  forall obj path,
    depth (_trace py_eval rt segments obj path) <= S (List.length segments + height obj).
Proof.
  induction 1 as [|step rest Hne _ IH]; intros obj path; simpl.
  - destruct rt; simpl; lia.
  - apply (@depth_trace_step py_eval (_trace py_eval rt rest) (S (List.length rest)));
      auto.
Qed.

(** C9.  For a plain name [k] and every document, the evaluation of the
    steps [".."; k] (the expression [$..k]) is a total function that
    returns without an exception; its results are those of the name rule
    applied to every node of the document once, a node before its
    children, so at most one result per node; and the calls of [_trace]
    are nested no deeper than the two steps plus the depth of the
    document, the first call apart. *)
Theorem recursive_descent_terminates :
  forall py_eval rt (k : string) (doc : json) (path : string),
    Str.forallb Str.is_word k = true ->
    let o := _trace py_eval rt [".."; k] doc path in
    raised o = None /\
    results o = flat_map (match_key rt k) (nodes doc path) /\
    List.length (nodes doc path) = size doc /\
    List.length (results o) <= size doc /\
    depth o <= S (2 + height doc).
Proof.
  intros py_eval rt k doc path Hk o.
  assert (Hrun : same_run o (mkOut (flat_map (match_key rt k) (nodes doc path)) [] None 0)).
  { unfold o. simpl. unfold trace_step at 1. simpl.
    eapply same_run_trans; [apply descend_nodes|].
    apply for_each_results. intros [v p].
    now apply trace_word_match. }
  destruct Hrun as (Hr & _ & Hx). simpl in Hr, Hx.
  split; [exact Hx|]. split; [exact Hr|]. split; [apply length_nodes|]. split.
  - rewrite Hr, <- (length_nodes doc path), <- (Nat.mul_1_l (List.length (nodes doc path))).
    apply length_flat_map_le. intros [v p]. unfold match_key.
    destruct v; simpl; try lia.
    + destruct (Str.isdigit k); simpl; [|lia].
      destruct (nth_error l (Str.int k)); simpl; lia.
    + destruct (lookup k kvs); simpl; lia.
  - apply (@trace_depth_bound py_eval rt [".."; k]).
    repeat constructor; unfold not_extractor, Syntax.is_extractor.
    now rewrite (@word_not_startswith _ _ _ Hk).
Qed.

Lemma recursive_descent_terminates_witness :
  Compiler.compile "$..name" = Ok [".."; "name"] /\
  Str.forallb Str.is_word "name" = true /\
  results (_trace no_eval VALUE [".."; "name"]
                  (JDict [("name", JStr "a");
                          ("kids", JList [JDict [("name", JStr "b")]])]) "$")
  = [EValue (JStr "a"); EValue (JStr "b")] /\
  depth (_trace no_eval VALUE [".."; "name"]
                (JDict [("name", JStr "a");
                        ("kids", JList [JDict [("name", JStr "b")]])]) "$")
  <= 6.
Proof.
  pose proof (recursive_descent_terminates no_eval VALUE "name"
                (JDict [("name", JStr "a");
                        ("kids", JList [JDict [("name", JStr "b")]])]) "$" eq_refl)
    as (_ & Hr & _ & _ & Hd).
  split; [reflexivity|]. split; [reflexivity|]. split; [exact Hr|exact Hd].
Defined.

(** ** C8: sorting when a sort field is missing *)

Lemma py_lt_null_l (v : json) : Sorter.py_lt JNull v = Raise TypeError.
Proof. destruct v; reflexivity. Qed.

Lemma py_lt_null_r (v : json) : Sorter.py_lt v JNull = Raise TypeError.
Proof. destruct v as [| [|] | | | |]; reflexivity. Qed.

(** [<] raises nothing but [TypeError]. *)
Lemma py_lt_raises (a : json) : forall b e, Sorter.py_lt a b = inl e -> e = TypeError.
Proof.
  induction a as [|x|x|x|l IH|kvs IH] using json_ind; intros b e; simpl.
  - intros H; injection H; auto.
  - destruct b as [| [|] | | | |]; simpl; intros H; try discriminate; injection H; auto.
  - destruct b as [| [|] | | | |]; simpl; intros H; try discriminate; injection H; auto.
  - destruct b; simpl; intros H; try discriminate; injection H; auto.
  - destruct b as [| | | |l'|]; simpl; try (intros H; injection H; auto; fail).
    revert l'. induction IH as [|x l Hx _ IHl]; intros [|y l'] H; try discriminate.
    destruct (Sorter.py_eq x y); eauto.
  - destruct b; simpl; intros H; injection H; auto.
Qed.

Lemma key_lt_raises {T} (a b : json * T) e : Sorter.key_lt a b = inl e -> e = TypeError.
Proof. apply py_lt_raises. Qed.

Lemma key_lt_not_null {T} (a b : json * T) r :
  Sorter.key_lt a b = Ok r -> ~ null_key a /\ ~ null_key b.
Proof.
  unfold Sorter.key_lt, null_key. intros H. split; intros Hn; rewrite Hn in H.
  - now rewrite py_lt_null_l in H.
  - now rewrite py_lt_null_r in H.
Qed.

Section SortRaises.

Variable T : Type.
Local Abbreviation lt := (@Sorter.key_lt T).

Lemma insert_raises x l e : Sorter.insert lt x l = inl e -> e = TypeError.
Proof.
  induction l as [|y l IH]; simpl; [discriminate|].
  destruct (lt x y) as [e'|[|]] eqn:E; simpl.
  - intros H; injection H as <-. eapply key_lt_raises; eauto.
  - discriminate.
  - destruct (Sorter.insert lt x l) as [e'|r]; simpl; [|discriminate].
    intros H; injection H as <-. auto.
Qed.

Lemma fold_insert_raises l acc e :
  fold_left (fun acc x => bind acc (Sorter.insert lt x)) l acc = inl e ->
  (forall e', acc = inl e' -> e' = TypeError) ->
  e = TypeError.
Proof.
  revert acc. induction l as [|x l IH]; simpl; intros acc H Hacc; [auto|].
  eapply IH; [exact H|]. intros e' He'. destruct acc as [e0|a]; simpl in He'.
  - injection He' as <-. auto.
  - eapply insert_raises; eauto.
Qed.

Lemma stable_sort_raises l e : Sorter.stable_sort lt l = inl e -> e = TypeError.
Proof. intros H. eapply fold_insert_raises; [exact H|discriminate]. Qed.

Lemma list_sort_raises reverse l e :
  Sorter.list_sort lt reverse l = inl e -> e = TypeError.
Proof.
  unfold Sorter.list_sort. destruct reverse; [|apply stable_sort_raises].
  destruct (Sorter.stable_sort lt (rev l)) as [e'|r] eqn:E; simpl; [|discriminate].
  intros H; injection H as <-. eapply stable_sort_raises; eauto.
Qed.

Lemma insert_comparable x l r :
  comparable l -> Sorter.insert lt x l = Ok r -> comparable r.
Proof.
  intros Hc H. destruct l as [|y l].
  - injection H as <-. left. simpl. lia.
  - right. assert (Hx : ~ null_key x).
    { simpl in H. destruct (lt x y) as [e|b] eqn:E; [discriminate|].
      now apply key_lt_not_null in E. }
    assert (Hl : Forall (fun a => ~ null_key a) (y :: l)).
    { destruct Hc as [Hc|Hc]; [|exact Hc]. destruct l; [|simpl in Hc; lia].
      simpl in H. destruct (lt x y) as [e|b] eqn:E; [discriminate|].
      apply key_lt_not_null in E. repeat constructor. tauto. }
    apply insert_perm in H. eapply Permutation_Forall; [exact H|].
    now constructor.
Qed.

Lemma fold_insert_comparable l acc r :
  comparable acc ->
  fold_left (fun acc x => bind acc (Sorter.insert lt x)) l (Ok acc) = Ok r ->
  comparable r.
Proof.
  revert acc. induction l as [|x l IH]; simpl; intros acc Hc H.
  - now injection H as <-.
  - destruct (Sorter.insert lt x acc) as [e|acc'] eqn:E.
    + now rewrite fold_insert_raise in H.
    + eapply IH; [|exact H]. eapply insert_comparable; eauto.
Qed.

(** A sort of two or more elements, one of which has the key [None],
    raises [TypeError]. *)
Lemma stable_sort_null l :
  2 <= List.length l -> Exists null_key l ->
  Sorter.stable_sort lt l = Raise TypeError.
Proof.
  intros Hlen Hex. destruct (Sorter.stable_sort lt l) as [e|r] eqn:E.
  - apply stable_sort_raises in E. now subst.
  - exfalso. pose proof (stable_sort_perm _ _ E) as Hp.
    apply fold_insert_comparable in E; [|left; simpl; lia].
    destruct E as [E|E].
    + apply Permutation_length in Hp. lia.
    + apply Exists_exists in Hex as (a & Ha & Hn).
      rewrite Forall_forall in E. apply (E a); [|exact Hn].
      eapply Permutation_in; eauto.
Qed.

Lemma list_sort_null reverse l :
  2 <= List.length l -> Exists null_key l ->
  Sorter.list_sort lt reverse l = Raise TypeError.
Proof.
  intros Hlen Hex. unfold Sorter.list_sort. destruct reverse; [|now apply stable_sort_null].
  rewrite stable_sort_null; [reflexivity| |].
  - now rewrite length_rev.
  - apply Exists_exists in Hex as (a & Ha & Hn). apply Exists_exists.
    exists a. split; [now apply in_rev in Ha|exact Hn].
Qed.

End SortRaises.

Lemma sort_pass_raises {K} (sortby : string) (obj : list (K * json)) e :
  fst (Sorter.sort_pass sortby obj) = inl e -> e = TypeError.
Proof.
  unfold Sorter.sort_pass. cbn [fst].
  destruct (Sorter.list_sort _ _ _) as [e'|r] eqn:E; simpl; [|discriminate].
  intros H; injection H as <-. eapply list_sort_raises; eauto.
Qed.

Lemma sort_pass_null {K} (sortby : string) (obj : list (K * json)) (t : K * json) :
  2 <= List.length obj -> In t obj -> Sorter.sort_key sortby (snd t) = JNull ->
  fst (Sorter.sort_pass sortby obj) = Raise TypeError.
Proof.
  intros Hlen Ht Hn. unfold Sorter.sort_pass. cbn [fst].
  rewrite list_sort_null; [reflexivity| |].
  - now rewrite length_map.
  - apply Exists_exists. exists (Sorter.sort_key sortby (snd t), t). split; [|exact Hn].
    apply in_map_iff. now exists t.
Qed.

Lemma sort_pass_short {K} (sortby : string) (obj : list (K * json)) :
  List.length obj <= 1 -> fst (Sorter.sort_pass sortby obj) = Ok obj.
Proof.
  intros H. destruct obj as [|x [|y l]]; [| |simpl in H; lia];
    unfold Sorter.sort_pass, Sorter.list_sort; destruct (Sorter.is_reverse sortby);
    reflexivity.
Qed.

Lemma sorter_fold_raised {K} (ks : list string) (e : exn) (lg : list exn) :
  fst (fold_left (@Sorter.next_pass K) ks (inl e, lg)) = inl e.
Proof. induction ks; simpl; auto. Qed.

Lemma sorter_fold_null {K} (obj : list (K * json)) (sortby : string) (t : K * json) :
  2 <= List.length obj -> In t obj -> Sorter.sort_key sortby (snd t) = JNull ->
  forall ks l lg,
    In sortby ks -> Permutation obj l ->
    fst (fold_left Sorter.next_pass ks (inr l, lg)) = Raise TypeError.
Proof.
  intros Hlen Ht Hn. induction ks as [|k ks IH]; intros l lg Hin Hp; [contradiction|].
  cbn [fold_left fst snd Sorter.next_pass].
  destruct (Sorter.sort_pass k l) as [r lg'] eqn:E. destruct r as [e|l'].
  - rewrite sorter_fold_raised. unfold Raise. f_equal.
    eapply sort_pass_raises. rewrite E. reflexivity.
  - assert (Hp' : Permutation obj l').
    { eapply perm_trans; [exact Hp|]. apply (sort_pass_perm k). now rewrite E. }
    destruct Hin as [->|Hin]; [|now apply IH].
    exfalso. assert (Hr : fst (Sorter.sort_pass sortby l) = Raise TypeError).
    { apply sort_pass_null with (t := t).
      - apply Permutation_length in Hp. lia.
      - eapply Permutation_in; eauto.
      - exact Hn. }
    rewrite E in Hr. discriminate.
Qed.

Lemma sorter_short {K} (obj : list (K * json)) (sortbys : string) :
  List.length obj <= 1 -> fst (Sorter._sorter obj sortbys) = Ok obj.
Proof.
  intros H. unfold Sorter._sorter. unfold Ok at 1.
  generalize (@nil exn) as lg.
  induction (rev (Str.split ","%char sortbys)) as [|k ks IH]; intros lg; [reflexivity|].
  cbn [fold_left fst snd Sorter.next_pass].
  pose proof (sort_pass_short k obj H) as Hs.
  destruct (Sorter.sort_pass k obj) as [r lg']. simpl in Hs. subst r. apply IH.
Qed.

(** ** C7: the sorter *)

(** *** The order of the passes *)

Lemma sorter_single {K} (obj : list (K * json)) (k : string) :
  Str.mem ","%char k = false ->
  Sorter._sorter obj k = Sorter.next_pass (Ok obj, []) k.
Proof. intros H. unfold Sorter._sorter. now rewrite (split_no_sep _ _ H). Qed.

Lemma sorter_cons {K} (obj : list (K * json)) (k1 rest : string) :
  Str.mem ","%char k1 = false ->
  Sorter._sorter obj (k1 ++ "," ++ rest) = Sorter.next_pass (Sorter._sorter obj rest) k1.
Proof.
  intros H. unfold Sorter._sorter.
  change (k1 ++ "," ++ rest)%string with (k1 ++ String ","%char rest)%string.
  rewrite split_app_sep, (split_no_sep _ _ H). simpl rev.
  now rewrite fold_left_app.
Qed.

(** *** Equality and order of well-formed values *)

Lemma existsb_keys (k : string) (kvs : list (string * json)) :
  existsb (fun kv => (fst kv =? k)%string) kvs = true <-> In k (map fst kvs).
Proof.
  rewrite existsb_exists. split.
  - intros ([k' v] & Hin & He). apply String.eqb_eq in He. simpl in He. subst.
    apply in_map_iff. now exists (k, v).
  - intros ([k' v] & He & Hin)%in_map_iff. simpl in He. subst.
    exists (k, v). split; [exact Hin|apply String.eqb_refl].
Qed.

Lemma distinct_keys_NoDup (kvs : list (string * json)) :
  distinct_keys kvs = true -> NoDup (map fst kvs).
Proof.
  induction kvs as [|[k v] kvs IH]; simpl; [constructor|].
  intros [Hn Hd]%andb_true_iff. constructor; [|auto].
  apply negb_true_iff in Hn. intros Hin. apply existsb_keys in Hin. congruence.
Qed.

Lemma In_keys_lookup (k : string) (kvs : list (string * json)) :
  In k (map fst kvs) -> exists v, lookup k kvs = Some v.
Proof.
  induction kvs as [|[k' v'] kvs IH]; simpl; [contradiction|].
  destruct (String.eqb_spec k' k) as [->|Hne]; [eauto|].
  intros [H|H]; [contradiction|auto].
Qed.

Lemma py_eq_dict (xs ys : list (string * json)) :
  Sorter.py_eq (JDict xs) (JDict ys)
  = (List.length xs =? List.length ys)
    && forallb (fun kv => match lookup (fst kv) ys with
                          | Some w => Sorter.py_eq (snd kv) w
                          | None => false
                          end) xs.
Proof.
  simpl. f_equal. induction xs as [|[k v] xs IH]; simpl; [reflexivity|]. now rewrite IH.
Qed.

Lemma wf_dict_child (kvs : list (string * json)) (k : string) (v : json) :
  wf_json (JDict kvs) = true -> In (k, v) kvs -> wf_json v = true.
Proof.
  simpl. intros [_ H]%andb_true_iff Hin. rewrite forallb_forall in H.
  apply (H (k, v) Hin).
Qed.

Lemma py_eq_sym_true (a : json) :
  forall b, wf_json a = true -> wf_json b = true ->
            Sorter.py_eq a b = true -> Sorter.py_eq b a = true.
Proof.
  induction a as [|x|x|x|l IH|xs IH] using json_ind; intros b Ha Hb.
  - destruct b; simpl; auto; discriminate.
  - destruct b; simpl; try discriminate; rewrite Z.eqb_sym; auto.
  - destruct b; simpl; try discriminate; rewrite Z.eqb_sym; auto.
  - destruct b; simpl; try discriminate. now rewrite String.eqb_sym.
  - destruct b as [| | | |l'|]; try discriminate.
    simpl in Ha, Hb. revert l' Hb.
    induction IH as [|x l Hx _ IHl]; intros [|y l'] Hb; try discriminate; auto.
    simpl in Ha, Hb. apply andb_true_iff in Ha as [Hax Hal].
    apply andb_true_iff in Hb as [Hby Hbl].
    change (Sorter.py_eq (JList (x :: l)) (JList (y :: l')))
      with (Sorter.py_eq x y && Sorter.py_eq (JList l) (JList l')).
    change (Sorter.py_eq (JList (y :: l')) (JList (x :: l)))
      with (Sorter.py_eq y x && Sorter.py_eq (JList l') (JList l)).
    intros [H1 H2]%andb_true_iff. apply andb_true_iff. split; auto.
  - destruct b as [| | | | |ys]; try discriminate.
    rewrite !py_eq_dict. intros [Hlen Hall]%andb_true_iff.
    apply Nat.eqb_eq in Hlen. rewrite forallb_forall in Hall.
    apply andb_true_iff. split; [now apply Nat.eqb_eq|].
    pose proof Ha as Ha'. pose proof Hb as Hb'. simpl in Ha', Hb'.
    apply andb_true_iff in Ha' as [Hdx _]. apply andb_true_iff in Hb' as [Hdy _].
    assert (Hperm : Permutation (map fst xs) (map fst ys)).
    { apply NoDup_Permutation_bis.
      - now apply distinct_keys_NoDup.
      - rewrite !length_map. lia.
      - intros k ([k' v] & He & Hin)%in_map_iff. simpl in He. subst k'.
        specialize (Hall _ Hin). simpl in Hall.
        destruct (lookup k ys) as [w|] eqn:El; [|discriminate].
        apply lookup_In in El. apply in_map_iff. now exists (k, w). }
    apply forallb_forall. intros [k w] Hin. simpl.
    assert (Hk : In k (map fst xs)).
    { eapply Permutation_in; [apply Permutation_sym; exact Hperm|].
      apply in_map_iff. now exists (k, w). }
    destruct (In_keys_lookup _ _ Hk) as [v Hv]. rewrite Hv.
    pose proof (lookup_In _ _ Hv) as Hvin.
    specialize (Hall _ Hvin). simpl in Hall.
    rewrite (distinct_keys_lookup _ _ _ Hdy Hin) in Hall.
    rewrite Forall_forall in IH. apply (IH (k, v) Hvin); auto.
    + simpl. eapply wf_dict_child; [exact Ha|exact Hvin].
    + eapply wf_dict_child; [exact Hb|exact Hin].
Qed.

Lemma py_eq_sym (a b : json) :
  wf_json a = true -> wf_json b = true -> Sorter.py_eq a b = Sorter.py_eq b a.
Proof.
  intros Ha Hb.
  destruct (Sorter.py_eq a b) eqn:E1, (Sorter.py_eq b a) eqn:E2; auto.
  - apply py_eq_sym_true in E1; auto. congruence.
  - apply py_eq_sym_true in E2; auto. congruence.
Qed.

Lemma string_ltb_asym (x y : string) : String.ltb x y = true -> String.ltb y x = false.
Proof.
  unfold String.ltb. rewrite (String.compare_antisym y x).
  destruct (x ?= y)%string; simpl; auto; discriminate.
Qed.

(** Where [a < b] is true, [b < a] is false. *)
Lemma py_lt_asym (a : json) :
  forall b, wf_json a = true -> wf_json b = true ->
            Sorter.py_lt a b = Ok true -> Sorter.py_lt b a = Ok false.
Proof.
  induction a as [|x|x|x|l IH|xs IH] using json_ind; intros b Ha Hb.
  - destruct b; discriminate.
  - destruct b as [| y | y | | |]; simpl; try discriminate;
      intros H; injection H as H; apply Z.ltb_lt in H;
      unfold Ok; f_equal; apply Z.ltb_ge; lia.
  - destruct b as [| y | y | | |]; simpl; try discriminate;
      intros H; injection H as H; apply Z.ltb_lt in H;
      unfold Ok; f_equal; apply Z.ltb_ge; lia.
  - destruct b; simpl; try discriminate.
    intros H; injection H as H. now rewrite (string_ltb_asym _ _ H).
  - destruct b as [| | | |l'|]; try discriminate.
    simpl in Ha, Hb. revert l' Hb.
    induction IH as [|x l Hx _ IHl]; intros [|y l'] Hb; try discriminate; auto.
    simpl in Ha, Hb. apply andb_true_iff in Ha as [Hax Hal].
    apply andb_true_iff in Hb as [Hby Hbl].
    change (Sorter.py_lt (JList (x :: l)) (JList (y :: l')))
      with (if Sorter.py_eq x y then Sorter.py_lt (JList l) (JList l') else Sorter.py_lt x y).
    change (Sorter.py_lt (JList (y :: l')) (JList (x :: l)))
      with (if Sorter.py_eq y x then Sorter.py_lt (JList l') (JList l) else Sorter.py_lt y x).
    rewrite (py_eq_sym y x Hby Hax). destruct (Sorter.py_eq x y); auto.
  - destruct b; discriminate.
Qed.

Lemma getattr_loop_wf (ks : list string) :
  forall v, wf_json v = true -> wf_json (fst (Sorter.getattr_loop v ks)) = true.
Proof.
  induction ks as [|k ks IH]; intros v Hv; simpl; [exact Hv|].
  destruct v; try reflexivity.
  apply IH. destruct (lookup k kvs) as [w|] eqn:E; [|reflexivity].
  eapply wf_dict_child; [exact Hv|]. eapply lookup_In; eauto.
Qed.

Lemma sort_key_wf (sortby : string) (v : json) :
  wf_json v = true -> wf_json (Sorter.sort_key sortby v) = true.
Proof. apply getattr_loop_wf. Qed.

(** *** A pass leaves its elements in order *)

Section SortSorted.

Variable A : Type.
Variable lt : A -> A -> res bool.
Variable good : A -> Prop.
Hypothesis lt_asym : forall a b, good a -> good b -> lt a b = Ok true -> lt b a = Ok false.

Local Abbreviation le := (fun a b : A => lt b a = Ok false).
Local Abbreviation ge := (fun a b : A => lt a b = Ok false).

Lemma insert_hd y x l r :
  HdRel le y l -> le y x -> Sorter.insert lt x l = Ok r -> HdRel le y r.
Proof.
  intros Hl Hx. destruct l as [|z l]; simpl.
  - intros H; injection H as <-. now constructor.
  - destruct (lt x z) as [e|[|]]; simpl; try discriminate.
    + intros H; injection H as <-. now constructor.
    + destruct (Sorter.insert lt x l) as [e|r']; simpl; try discriminate.
      intros H; injection H as <-. constructor. now apply HdRel_inv in Hl.
Qed.

Lemma insert_sorted x l :
  good x -> Forall good l -> Sorted le l ->
  forall r, Sorter.insert lt x l = Ok r -> Sorted le r.
Proof.
  intros Hx. induction l as [|y l IH]; intros Hg Hs r; simpl.
  - intros H; injection H as <-. repeat constructor.
  - apply Forall_cons_iff in Hg as [Hy Hg]. apply Sorted_inv in Hs as [Hs Hh].
    destruct (lt x y) as [e|[|]] eqn:E; simpl; try discriminate.
    + intros H; injection H as <-. constructor; [now constructor|].
      constructor. now apply lt_asym.
    + destruct (Sorter.insert lt x l) as [e|r'] eqn:Ei; simpl; try discriminate.
      intros H; injection H as <-. constructor; [now apply IH|].
      eapply insert_hd; eauto.
Qed.

Lemma fold_insert_sorted l :
  Forall good l ->
  forall acc r,
    Forall good acc -> Sorted le acc ->
    fold_left (fun acc x => bind acc (Sorter.insert lt x)) l (Ok acc) = Ok r ->
    Sorted le r.
Proof.
  induction 1 as [|x l Hx Hl IH]; intros acc r Hg Hs; simpl.
  - now intros H; injection H as <-.
  - destruct (Sorter.insert lt x acc) as [e|acc'] eqn:E.
    + now rewrite fold_insert_raise.
    + apply IH.
      * eapply Permutation_Forall; [eapply insert_perm; eauto|now constructor].
      * eapply insert_sorted; eauto.
Qed.

Lemma stable_sort_sorted l r :
  Forall good l -> Sorter.stable_sort lt l = Ok r -> Sorted le r.
Proof.
  intros Hg H. eapply fold_insert_sorted; [exact Hg| | |exact H]; constructor.
Qed.

Lemma Sorted_snoc (R : A -> A -> Prop) (l : list A) (x : A) :
  Sorted R l -> (forall y l', rev l = y :: l' -> R y x) -> Sorted R (l ++ [x]).
Proof.
  induction 1 as [|a l Hs IH Hh]; intros Hx; simpl; [repeat constructor|].
  constructor.
  - apply IH. intros y l' Hr. apply (Hx y (l' ++ [a])). simpl. now rewrite Hr.
  - destruct l as [|b l]; simpl.
    + constructor. now apply (Hx a []).
    + constructor. now apply HdRel_inv in Hh.
Qed.

Lemma Sorted_rev (R : A -> A -> Prop) (l : list A) :
  Sorted R l -> Sorted (fun a b => R b a) (rev l).
Proof.
  induction 1 as [|a l Hs IH Hh]; simpl; [constructor|].
  apply Sorted_snoc; [exact IH|].
  intros y l' Hr. rewrite rev_involutive in Hr. subst l. now apply HdRel_inv in Hh.
Qed.

Lemma list_sort_sorted (reverse : bool) l r :
  Forall good l -> Sorter.list_sort lt reverse l = Ok r ->
  if reverse then Sorted ge r else Sorted le r.
Proof.
  intros Hg. unfold Sorter.list_sort. destruct reverse; [|now apply stable_sort_sorted].
  destruct (Sorter.stable_sort lt (rev l)) as [e|r0] eqn:E; simpl; [discriminate|].
  intros H; injection H as <-.
  apply (Sorted_rev (R := le)). eapply stable_sort_sorted; [|exact E].
  now apply Forall_rev.
Qed.

End SortSorted.

Lemma Sorted_map_in {A B} (R : A -> A -> Prop) (R' : B -> B -> Prop) (Q : A -> Prop)
      (f : A -> B) (l : list A) :
  (forall a b, Q a -> Q b -> R a b -> R' (f a) (f b)) ->
  Sorted R l -> Forall Q l -> Sorted R' (map f l).
Proof.
  intros HR. induction 1 as [|a l Hs IH Hh]; intros HQ; simpl; [constructor|].
  apply Forall_cons_iff in HQ as [Ha HQ]. constructor; [auto|].
  destruct l as [|b l]; simpl; constructor.
  apply Forall_cons_iff in HQ as [Hb _]. apply HdRel_inv in Hh. auto.
Qed.

(** A pass that returns leaves the pairs in the order of its key. *)
Lemma sort_pass_sorted {K} (sortby : string) (obj r : list (K * json)) :
  Forall (fun t => wf_json (snd t) = true) obj ->
  fst (Sorter.sort_pass sortby obj) = Ok r ->
  Sorted (in_order sortby) r.
Proof.
  intros Hwf. unfold Sorter.sort_pass. cbn [fst].
  set (keyed := map (fun t => (Sorter.sort_key sortby (snd t), t)) obj).
  destruct (Sorter.list_sort Sorter.key_lt (Sorter.is_reverse sortby) keyed)
    as [e|r0] eqn:E; simpl; [discriminate|].
  intros H; injection H as <-.
  assert (Hk : Forall (fun a => wf_json (fst a) = true
                                /\ fst a = Sorter.sort_key sortby (snd (snd a))) keyed).
  { apply Forall_forall. intros a (t & <- & Ht)%in_map_iff. simpl. split; [|reflexivity].
    apply sort_key_wf. rewrite Forall_forall in Hwf. now apply Hwf. }
  assert (Hr0 : Forall (fun a => wf_json (fst a) = true
                                 /\ fst a = Sorter.sort_key sortby (snd (snd a))) r0).
  { eapply Permutation_Forall; [eapply list_sort_perm; exact E|exact Hk]. }
  assert (Hs' : if Sorter.is_reverse sortby
                then Sorted (fun a b => Sorter.key_lt a b = Ok false) r0
                else Sorted (fun a b => Sorter.key_lt b a = Ok false) r0).
  { apply (@list_sort_sorted (json * (K * json)) Sorter.key_lt
                             (fun a => wf_json (fst a) = true)) with (l := keyed).
    - intros a b Ha Hb. now apply py_lt_asym.
    - eapply Forall_impl; [|exact Hk]. now intros a [Ha _].
    - exact E. }
  unfold in_order. destruct (Sorter.is_reverse sortby).
  - eapply Sorted_map_in; [|exact Hs'|exact Hr0].
    intros a b [_ Ha] [_ Hb] H. unfold Sorter.key_lt in H. now rewrite <- Ha, <- Hb.
  - eapply Sorted_map_in; [|exact Hs'|exact Hr0].
    intros a b [_ Ha] [_ Hb] H. unfold Sorter.key_lt in H. now rewrite <- Ha, <- Hb.
Qed.

(** *** A pass is stable *)

Section SortStable.

Variable A : Type.
Variable lt : A -> A -> res bool.
Variable w : A -> Z.
Variable num : A -> Prop.
Hypothesis lt_num : forall a b, num a -> num b -> lt a b = Ok (w a <? w b)%Z.

Local Abbreviation le := (fun a b : A => (w a <= w b)%Z).
Local Abbreviation keyed z := (fun a : A => (w a =? z)%Z).

Lemma filter_above (z : Z) (l : list A) :
  Forall (fun b => (z < w b)%Z) l -> filter (keyed z) l = [].
Proof.
  induction 1 as [|b l Hb _ IH]; simpl; [reflexivity|].
  destruct (Z.eqb_spec (w b) z); [lia|exact IH].
Qed.

Lemma insert_stable x acc :
  num x -> Forall num acc -> StronglySorted le acc ->
  exists r, Sorter.insert lt x acc = Ok r /\ StronglySorted le r /\
            forall z, filter (keyed z) r = filter (keyed z) acc ++ filter (keyed z) [x].
Proof.
  intros Hx. induction acc as [|y l IH]; intros Hn Hs.
  - exists [x]. repeat split; auto. repeat constructor.
  - apply Forall_cons_iff in Hn as [Hy Hn]. apply StronglySorted_inv in Hs as [Hs Hyl].
    simpl Sorter.insert. rewrite (lt_num Hx Hy). simpl.
    destruct (Z.ltb_spec (w x) (w y)) as [Hlt|Hge].
    + exists (x :: y :: l). split; [reflexivity|]. split.
      * constructor; [now constructor|]. constructor; [lia|].
        eapply Forall_impl; [|exact Hyl]. simpl. intros; lia.
      * intros z. cbn [filter]. destruct (Z.eqb_spec (w x) z) as [Hz|Hz].
        -- rewrite (filter_above (l := l)).
           ++ destruct (Z.eqb_spec (w y) z); [lia|reflexivity].
           ++ eapply Forall_impl; [|exact Hyl]. simpl. intros; lia.
        -- now rewrite app_nil_r.
    + destruct (IH Hn Hs) as (r' & Hr' & Hs' & Hf). rewrite Hr'. simpl.
      exists (y :: r'). split; [reflexivity|]. split.
      * constructor; [exact Hs'|].
        eapply Permutation_Forall; [eapply insert_perm; exact Hr'|].
        constructor; [lia|exact Hyl].
      * intros z. cbn [filter]. rewrite Hf.
        destruct (w y =? z)%Z; [reflexivity|reflexivity].
Qed.

Lemma fold_insert_stable l :
  Forall num l ->
  forall acc,
    Forall num acc -> StronglySorted le acc ->
    exists r,
      fold_left (fun acc x => bind acc (Sorter.insert lt x)) l (Ok acc) = Ok r /\
      StronglySorted le r /\
      forall z, filter (keyed z) r = filter (keyed z) acc ++ filter (keyed z) l.
Proof.
  induction 1 as [|x l Hx Hl IH]; intros acc Hn Hs.
  - exists acc. repeat split; auto. intros z. now rewrite app_nil_r.
  - destruct (insert_stable Hx Hn Hs) as (acc' & Ha & Hs' & Hf).
    simpl. rewrite Ha. destruct (IH acc') as (r & Hr & Hsr & Hfr); [|exact Hs'|].
    + eapply Permutation_Forall; [eapply insert_perm; exact Ha|now constructor].
    + exists r. repeat split; auto. intros z. rewrite Hfr, Hf.
      cbn [filter]. rewrite <- app_assoc. now destruct (w x =? z)%Z.
Qed.

Lemma list_sort_stable (reverse : bool) l :
  Forall num l ->
  exists r, Sorter.list_sort lt reverse l = Ok r /\
            forall z, filter (keyed z) r = filter (keyed z) l.
Proof.
  intros Hn. unfold Sorter.list_sort, Sorter.stable_sort. destruct reverse.
  - destruct (@fold_insert_stable (rev l) (Forall_rev Hn) [] (Forall_nil _)
                                  (SSorted_nil _)) as (r & Hr & _ & Hf).
    rewrite Hr. simpl. exists (rev r). split; [reflexivity|].
    intros z. rewrite filter_rev, Hf. simpl. now rewrite filter_rev, rev_involutive.
  - destruct (@fold_insert_stable l Hn [] (Forall_nil _) (SSorted_nil _))
      as (r & Hr & _ & Hf).
    exists r. split; [exact Hr|exact Hf].
Qed.

End SortStable.

Lemma key_lt_num {T} (a b : json * T) :
  Sorter.num_of (fst a) <> None -> Sorter.num_of (fst b) <> None ->
  Sorter.key_lt a b = Ok (key_num a <? key_num b)%Z.
Proof.
  unfold Sorter.key_lt, key_num. destruct (fst a), (fst b); simpl; congruence.
Qed.

Lemma filter_map_keyed {A B} (g : A -> B) (h : B -> A) (p : B -> bool) (p' : A -> bool)
      (l : list A) :
  (forall t, In t l -> h (g t) = t /\ p (g t) = p' t) ->
  map h (filter p (map g l)) = filter p' l.
Proof.
  induction l as [|t l IH]; simpl; intros H; [reflexivity|].
  destruct (H t (or_introl eq_refl)) as [Hh Hp]. rewrite Hp.
  destruct (p' t); simpl; rewrite IH; auto; now rewrite Hh.
Qed.

Lemma filter_map_snd {A B} (h : B -> A) (p : B -> bool) (p' : A -> bool) (l : list B) :
  (forall a, In a l -> p a = p' (h a)) ->
  filter p' (map h l) = map h (filter p l).
Proof.
  induction l as [|a l IH]; simpl; intros H; [reflexivity|].
  rewrite <- (H a (or_introl eq_refl)). destruct (p a); simpl; rewrite IH; auto.
Qed.

(** A pass over numeric keys returns, and keeps the pairs of equal key
    in the order it found them. *)
Lemma sort_pass_stable {K} (sortby : string) (obj : list (K * json)) :
  Forall (numeric_key sortby) obj ->
  exists r, fst (Sorter.sort_pass sortby obj) = Ok r /\
            forall z, filter (has_key sortby z) r = filter (has_key sortby z) obj.
Proof.
  intros Hn. unfold Sorter.sort_pass. cbn [fst].
  set (g := fun t : K * json => (Sorter.sort_key sortby (snd t), t)).
  assert (Hk : Forall (fun a => Sorter.num_of (fst a) <> None) (map g obj)).
  { apply Forall_forall. intros a (t & <- & Ht)%in_map_iff.
    rewrite Forall_forall in Hn. now apply Hn. }
  destruct (@list_sort_stable _ Sorter.key_lt key_num
                              (fun a => Sorter.num_of (fst a) <> None)
                              (@key_lt_num _) (Sorter.is_reverse sortby) (map g obj) Hk)
    as (r0 & Hr0 & Hf).
  rewrite Hr0. simpl. exists (map snd r0). split; [reflexivity|].
  intros z.
  assert (Hp : forall t, In t obj ->
                         (key_num (g t) =? z)%Z = has_key sortby z t).
  { intros t Ht. unfold key_num, has_key, g. simpl.
    rewrite Forall_forall in Hn. specialize (Hn t Ht). unfold numeric_key in Hn.
    now destruct (Sorter.num_of (Sorter.sort_key sortby (snd t))). }
  rewrite (@filter_map_snd _ _ snd (fun a => (key_num a =? z)%Z)).
  - rewrite Hf. apply filter_map_keyed. intros t Ht. split; [reflexivity|now apply Hp].
  - intros a Ha.
    assert (Ha' : In a (map g obj)).
    { eapply Permutation_in; [apply Permutation_sym; eapply list_sort_perm; exact Hr0|exact Ha]. }
    apply in_map_iff in Ha' as (t & <- & Ht). now apply Hp.
Qed.

(** What [_sorter] returns on the pairs of a sequence: every pair still
    holds an index and the element at that index. *)
Lemma sorter_keeps_index (l : list json) (sortbys : string) (r : list (nat * json)) :
  fst (Sorter._sorter (enumerate l) sortbys) = Ok r ->
  Forall (fun t => nth_error l (fst t) = Some (snd t)) r.
Proof.
  intros H. apply sorter_perm in H. apply Forall_forall. intros [i v] Hin.
  apply enumerate_In. eapply Permutation_in; [apply Permutation_sym; exact H|exact Hin].
Qed.

(** ** C3: literals through the compiler *)

Local Infix "+++" := String.append (at level 60, right associativity).

Lemma sappend_assoc (a b c : string) : (a +++ b) +++ c = a +++ (b +++ c).
Proof. induction a as [|x a IH]; simpl; [reflexivity|now rewrite IH]. Qed.

Lemma sappend_nil_r (a : string) : a +++ EmptyString = a.
Proof. induction a as [|x a IH]; simpl; [reflexivity|now rewrite IH]. Qed.

Lemma slength_app (a b : string) : String.length (a +++ b) = String.length a + String.length b.
Proof. induction a as [|x a IH]; simpl; [reflexivity|now rewrite IH]. Qed.

Lemma mem_app (c : ascii) (a b : string) : Str.mem c (a +++ b) = Str.mem c a || Str.mem c b.
Proof. induction a as [|x a IH]; simpl; [reflexivity|now rewrite IH, orb_assoc]. Qed.

(** *** Picking up *)

Section Pickup.

Variables opn cls : ascii.
Variables lead tag : string.

Local Abbreviation pick := (Compiler.pickup opn cls lead tag).

Lemma pickup_lit1 c s tab :
  Ascii.eqb c opn = false ->
  pick (String c s) 0 tab = (String c (fst (pick s 0 tab)), snd (pick s 0 tab)).
Proof. intros H. simpl. rewrite H. now destruct (pick s 0 tab). Qed.

Lemma pickup_lits pre s tab :
  Str.mem opn pre = false ->
  pick (pre +++ s) 0 tab = (pre +++ fst (pick s 0 tab), snd (pick s 0 tab)).
Proof.
  induction pre as [|c pre IH]; simpl String.append; intros H.
  - now destruct (pick s 0 tab).
  - simpl in H. apply orb_false_iff in H as [Hc Hp].
    rewrite pickup_lit1 by exact Hc. rewrite IH by exact Hp. reflexivity.
Qed.

Lemma find_close_app content rest :
  Str.mem cls content = false -> Str.mem Str.newline content = false ->
  Compiler.find_close cls (content +++ String cls rest) = Some content.
Proof.
  induction content as [|c content IH]; simpl; intros Hc Hn.
  - now rewrite Ascii.eqb_refl.
  - apply orb_false_iff in Hc as [Hc1 Hc2]. apply orb_false_iff in Hn as [Hn1 Hn2].
    rewrite Hc1, Hn1, (IH Hc2 Hn2). reflexivity.
Qed.

Lemma pickup_skip a rest tab : pick (a +++ rest) (String.length a) tab = pick rest 0 tab.
Proof. induction a as [|c a IH]; simpl; [reflexivity|exact IH]. Qed.

Lemma pickup_match content rest tab :
  Str.mem cls content = false -> Str.mem Str.newline content = false ->
  pick (String opn (content +++ String cls rest)) 0 tab
  = (lead +++ tag +++ Str.of_nat (List.length tab)
          +++ fst (pick rest 0 (tab ++ [content])),
     snd (pick rest 0 (tab ++ [content]))).
Proof.
  intros Hc Hn. cbn [Compiler.pickup]. rewrite Ascii.eqb_refl.
  rewrite find_close_app by assumption.
  replace (content +++ String cls rest)
    with ((content +++ String cls EmptyString) +++ rest)
    by (now rewrite sappend_assoc).
  replace (S (String.length content))
    with (String.length (content +++ String cls EmptyString))
    by (rewrite slength_app; simpl; lia).
  rewrite pickup_skip. now destruct (pick rest 0 (tab ++ [content])).
Qed.

End Pickup.

Lemma group_ok_quoted (c : string) :
  group_ok (Quoted c) = true ->
  Str.mem "'"%char c = false /\ Str.mem Str.newline c = false
  /\ Str.mem Compiler.SEP c = false.
Proof.
  simpl. intros [[H1 H2]%andb_true_iff H3]%andb_true_iff.
  now rewrite negb_true_iff in H1, H2, H3.
Qed.

Lemma group_ok_plain (b : string) :
  group_ok (Plain b) = true ->
  Str.mem "'"%char b = false /\ Str.mem Str.newline b = false
  /\ Str.mem Compiler.SEP b = false /\ Str.mem "]"%char b = false
  /\ Str.mem "#"%char b = false.
Proof.
  simpl.
  intros [[[[H1 H2]%andb_true_iff H3]%andb_true_iff H4]%andb_true_iff H5]%andb_true_iff.
  now rewrite negb_true_iff in H1, H2, H3, H4, H5.
Qed.

Lemma source_quoted (c rest : string) :
  group_source (Quoted c) +++ rest
  = String "["%char (String "'"%char (c +++ String "'"%char (String "]"%char rest))).
Proof. simpl. now rewrite sappend_assoc. Qed.

Lemma source_plain (b rest : string) :
  group_source (Plain b) +++ rest = String "["%char (b +++ String "]"%char rest).
Proof. simpl. now rewrite sappend_assoc. Qed.

Lemma bracketed (p rest : string) :
  ("[" +++ p +++ "]") +++ rest = String "["%char (p +++ String "]"%char rest).
Proof. simpl. now rewrite sappend_assoc. Qed.

(** The first pass: every quoted literal goes to the table and leaves
    its placeholder between the brackets. *)
Lemma pickup_quote_groups (gs : list group) :
  forall tab,
    forallb group_ok gs = true ->
    Compiler.pickup_quote (join_all (map group_source gs)) tab
    = (join_all (map (fun p => "[" +++ p +++ "]") (bracket_contents (List.length tab) gs)),
       tab ++ quoted_texts gs).
Proof.
  unfold Compiler.pickup_quote.
  induction gs as [|[c|b] gs IH]; intros tab H; cbn [map join_all fold_right].
  - simpl. now rewrite app_nil_r.
  - cbn [forallb] in H. apply andb_true_iff in H as [Hg H].
    apply group_ok_quoted in Hg as (Hq & Hn & _).
    fold (join_all (map group_source gs)). rewrite source_quoted.
    rewrite pickup_lit1 by reflexivity.
    rewrite pickup_match by assumption.
    rewrite pickup_lit1 by reflexivity.
    rewrite (IH _ H). cbn [fst snd bracket_contents quoted_texts map join_all fold_right].
    rewrite length_app, Nat.add_1_r, <- app_assoc. cbn [app].
    f_equal. rewrite bracketed. reflexivity.
  - cbn [forallb] in H. apply andb_true_iff in H as [Hg H].
    apply group_ok_plain in Hg as (Hq & _).
    fold (join_all (map group_source gs)). rewrite source_plain.
    rewrite pickup_lit1 by reflexivity.
    rewrite pickup_lits by assumption.
    rewrite pickup_lit1 by reflexivity.
    rewrite (IH _ H). cbn [fst snd bracket_contents quoted_texts map join_all fold_right].
    f_equal. now rewrite bracketed.
Qed.

Lemma seq_shift_cons (n len : nat) : seq n (S len) = n :: seq (S n) len.
Proof. reflexivity. Qed.

(** The second pass: every bracket group goes to the table and leaves a
    dot and its placeholder. *)
Lemma pickup_bracket_groups (ps : list string) :
  forall tab,
    Forall (fun p => Str.mem "]"%char p = false /\ Str.mem Str.newline p = false) ps ->
    Compiler.pickup_bracket (join_all (map (fun p => "[" +++ p +++ "]") ps)) tab
    = (join_all (map (fun i => ".#B" +++ Str.of_nat i) (seq (List.length tab) (List.length ps))),
       tab ++ ps).
Proof.
  unfold Compiler.pickup_bracket.
  induction ps as [|p ps IH]; intros tab H; cbn [map join_all fold_right].
  - simpl. now rewrite app_nil_r.
  - apply Forall_cons_iff in H as [[Hb Hn] H].
    fold (join_all (map (fun p => "[" +++ p +++ "]") ps)). rewrite bracketed.
    rewrite pickup_match by assumption. rewrite (IH _ H).
    cbn [fst snd List.length]. rewrite seq_shift_cons.
    cbn [map join_all fold_right].
    rewrite length_app, Nat.add_1_r, <- app_assoc. cbn [app].
    reflexivity.
Qed.

Lemma digits_no_char (c : ascii) (n : nat) :
  Str.is_digit c = false -> Str.mem c (Str.of_nat n) = false.
Proof. intros H. apply (mem_forallb Str.is_digit); [apply of_nat_digits|exact H]. Qed.

Lemma bracket_contents_closed (gs : list group) :
  forall q,
    forallb group_ok gs = true ->
    Forall (fun p => Str.mem "]"%char p = false /\ Str.mem Str.newline p = false)
           (bracket_contents q gs).
Proof.
  induction gs as [|[c|b] gs IH]; intros q H; cbn [bracket_contents]; [constructor| |];
    cbn [forallb] in H; apply andb_true_iff in H as [Hg H]; constructor; auto.
  - split; simpl; now apply digits_no_char.
  - apply group_ok_plain in Hg. tauto.
Qed.

Lemma length_bracket_contents (gs : list group) :
  forall q, List.length (bracket_contents q gs) = List.length gs.
Proof. induction gs as [|[c|b] gs IH]; intros q; simpl; auto. Qed.

(** *** The dots *)

Lemma sub_doubledot_lit1 (c : ascii) (s : string) :
  Ascii.eqb c "."%char = false ->
  Compiler.sub_doubledot (String c s) = String c (Compiler.sub_doubledot s).
Proof. intros H. destruct s; simpl; [reflexivity|]. now rewrite H. Qed.

Lemma sub_doubledot_lits (pre s : string) :
  Str.mem "."%char pre = false ->
  Compiler.sub_doubledot (pre +++ s) = pre +++ Compiler.sub_doubledot s.
Proof.
  induction pre as [|c pre IH]; cbn [String.append]; intros H; [reflexivity|].
  simpl in H. apply orb_false_iff in H as [Hc Hp].
  rewrite sub_doubledot_lit1 by exact Hc. now rewrite IH.
Qed.

Lemma placeholder_piece (i : nat) (rest : string) :
  (".#B" +++ Str.of_nat i) +++ rest
  = String "."%char (String "#"%char (String "B"%char (Str.of_nat i +++ rest))).
Proof. reflexivity. Qed.

Lemma split_piece (i : nat) (rest : string) :
  (";#B" +++ Str.of_nat i) +++ rest
  = String ";"%char (String "#"%char (String "B"%char (Str.of_nat i +++ rest))).
Proof. reflexivity. Qed.

(** No two dots stand in a row: the third pass changes nothing. *)
Lemma sub_doubledot_placeholders (l : list nat) :
  Compiler.sub_doubledot (join_all (map (fun i => ".#B" +++ Str.of_nat i) l))
  = join_all (map (fun i => ".#B" +++ Str.of_nat i) l).
Proof.
  induction l as [|i l IH]; cbn [map join_all fold_right]; [reflexivity|].
  fold (join_all (map (fun i => ".#B" +++ Str.of_nat i) l)).
  rewrite placeholder_piece.
  change (Compiler.sub_doubledot
            (String "."%char (String "#"%char
               (String "B"%char (Str.of_nat i +++ join_all (map (fun i => ".#B" +++ Str.of_nat i) l))))))
    with (String "."%char
            (Compiler.sub_doubledot
               (String "#"%char
                  (String "B"%char (Str.of_nat i +++ join_all (map (fun i => ".#B" +++ Str.of_nat i) l)))))).
  rewrite sub_doubledot_lit1 by reflexivity.
  rewrite sub_doubledot_lit1 by reflexivity.
  rewrite sub_doubledot_lits by (now apply digits_no_char).
  now rewrite IH.
Qed.

Lemma sub_dot_lit1 (pd : bool) (c : ascii) (s : string) :
  Ascii.eqb c "."%char = false ->
  Compiler.sub_dot pd (String c s) = String c (Compiler.sub_dot false s).
Proof. intros H. simpl. now rewrite H. Qed.

Lemma sub_dot_lits (pre s : string) :
  Str.mem "."%char pre = false ->
  Compiler.sub_dot false (pre +++ s) = pre +++ Compiler.sub_dot false s.
Proof.
  induction pre as [|c pre IH]; cbn [String.append]; intros H; [reflexivity|].
  simpl in H. apply orb_false_iff in H as [Hc Hp].
  rewrite sub_dot_lit1 by exact Hc. now rewrite IH.
Qed.

(** The fourth pass turns the dot before each placeholder into the
    separator. *)
Lemma sub_dot_placeholders (l : list nat) :
  Compiler.sub_dot false (join_all (map (fun i => ".#B" +++ Str.of_nat i) l))
  = join_all (map (fun i => ";#B" +++ Str.of_nat i) l).
Proof.
  induction l as [|i l IH]; cbn [map join_all fold_right]; [reflexivity|].
  fold (join_all (map (fun i => ".#B" +++ Str.of_nat i) l)).
  fold (join_all (map (fun i => ";#B" +++ Str.of_nat i) l)).
  rewrite placeholder_piece, split_piece.
  change (Compiler.sub_dot false
            (String "."%char (String "#"%char
               (String "B"%char (Str.of_nat i +++ join_all (map (fun i => ".#B" +++ Str.of_nat i) l))))))
    with (String ";"%char
            (String "#"%char
               (Compiler.sub_dot false
                  (String "B"%char (Str.of_nat i +++ join_all (map (fun i => ".#B" +++ Str.of_nat i) l)))))).
  rewrite sub_dot_lit1 by reflexivity.
  rewrite sub_dot_lits by (now apply digits_no_char).
  now rewrite IH.
Qed.

(** *** Putting back *)

Lemma take_while_digits (ds rest : string) :
  Str.forallb Str.is_digit ds = true -> no_digit_ahead rest = true ->
  Str.take_while Str.is_digit (ds +++ rest) = ds.
Proof.
  induction ds as [|c ds IH]; cbn [String.append]; intros Hd Hr.
  - destruct rest as [|c rest]; simpl in *; [reflexivity|].
    apply negb_true_iff in Hr. now rewrite Hr.
  - simpl in Hd. apply andb_true_iff in Hd as [Hc Hd]. simpl. rewrite Hc.
    now rewrite IH.
Qed.

Section Putback.

Variable tagc : ascii.
Variable tab : list string.

Local Abbreviation put := (Compiler.putback tagc tab).

Lemma putback_lit1 c s out :
  Ascii.eqb c "#"%char = false -> put s 0 = Ok out ->
  put (String c s) 0 = Ok (String c out).
Proof. intros H Hs. simpl. now rewrite H, Hs. Qed.

Lemma putback_lits pre s out :
  Str.mem "#"%char pre = false -> put s 0 = Ok out ->
  put (pre +++ s) 0 = Ok (pre +++ out).
Proof.
  induction pre as [|c pre IH]; cbn [String.append]; intros H Hs; [exact Hs|].
  simpl in H. apply orb_false_iff in H as [Hc Hp].
  apply putback_lit1; auto.
Qed.

Lemma putback_skip a rest : put (a +++ rest) (String.length a) = put rest 0.
Proof. induction a as [|c a IH]; simpl; [reflexivity|exact IH]. Qed.

Lemma putback_match ds rest lit out :
  Str.forallb Str.is_digit ds = true -> ds <> EmptyString ->
  no_digit_ahead rest = true ->
  nth_error tab (Str.int ds) = Some lit ->
  put rest 0 = Ok out ->
  put (String "#"%char (String tagc (ds +++ rest))) 0 = Ok (lit +++ out).
Proof.
  intros Hd Hne Hr Hn Hs. cbn [Compiler.putback].
  replace (Ascii.eqb "#"%char "#"%char) with true by reflexivity.
  cbv iota. rewrite Ascii.eqb_refl.
  rewrite take_while_digits by assumption.
  apply String.eqb_neq in Hne. rewrite Hne. cbn [negb andb]. rewrite Hn.
  rewrite putback_skip, Hs. reflexivity.
Qed.

End Putback.

Lemma no_digit_ahead_join (f : string -> string) (l : list string) :
  (forall p, exists s, f p = String ";"%char s) ->
  no_digit_ahead (join_all (map f l)) = true.
Proof.
  intros H. destruct l as [|p l]; [reflexivity|].
  cbn [map join_all fold_right]. destruct (H p) as [s ->]. reflexivity.
Qed.

Lemma no_digit_ahead_pieces (l : list nat) :
  no_digit_ahead (join_all (map (fun i => ";#B" +++ Str.of_nat i) l)) = true.
Proof. destruct l; reflexivity. Qed.

(** The fifth pass: every placeholder of a bracket group gives way to
    what stood between the brackets. *)
Lemma putback_bracket_groups (tab ps : list string) :
  forall j,
    (forall i p, nth_error ps i = Some p -> nth_error tab (j + i) = Some p) ->
    Compiler.putback "B"%char tab
      (join_all (map (fun i => ";#B" +++ Str.of_nat i) (seq j (List.length ps)))) 0
    = Ok (join_all (map (fun p => ";" +++ p) ps)).
Proof.
  induction ps as [|p ps IH]; intros j H; [reflexivity|].
  cbn [List.length]. rewrite seq_shift_cons. cbn [map join_all fold_right].
  fold (join_all (map (fun i => ";#B" +++ Str.of_nat i) (seq (S j) (List.length ps)))).
  fold (join_all (map (fun p => ";" +++ p) ps)).
  rewrite split_piece.
  change ((";" +++ p) +++ join_all (map (fun p => ";" +++ p) ps))
    with (String ";"%char (p +++ join_all (map (fun p => ";" +++ p) ps))).
  apply putback_lit1; [reflexivity|].
  apply putback_match.
  - apply of_nat_digits.
  - apply of_nat_not_empty.
  - apply no_digit_ahead_pieces.
  - rewrite int_of_nat. specialize (H 0 p eq_refl). now rewrite Nat.add_0_r in H.
  - apply IH. intros i q Hq. specialize (H (S i) q Hq).
    now rewrite Nat.add_succ_r in H.
Qed.

(** The sixth pass: every placeholder of a quoted literal gives way to
    the literal. *)
Lemma putback_quote_groups (tab : list string) (gs : list group) :
  forall q,
    forallb group_ok gs = true ->
    (forall i c, nth_error (quoted_texts gs) i = Some c -> nth_error tab (q + i) = Some c) ->
    Compiler.putback "Q"%char tab
      (join_all (map (fun p => ";" +++ p) (bracket_contents q gs))) 0
    = Ok (join_all (map (fun c => ";" +++ c) (map group_text gs))).
Proof.
  induction gs as [|[c|b] gs IH]; intros q Hok H; [reflexivity| |];
    cbn [forallb] in Hok; apply andb_true_iff in Hok as [Hg Hok];
    cbn [bracket_contents map join_all fold_right group_text].
  - fold (join_all (map (fun p => ";" +++ p) (bracket_contents (S q) gs))).
    fold (join_all (map (fun c => ";" +++ c) (map group_text gs))).
    change ((";" +++ "#Q" +++ Str.of_nat q)
              +++ join_all (map (fun p => ";" +++ p) (bracket_contents (S q) gs)))
      with (String ";"%char (String "#"%char (String "Q"%char
              (Str.of_nat q +++ join_all (map (fun p => ";" +++ p) (bracket_contents (S q) gs)))))).
    change ((";" +++ c) +++ join_all (map (fun c => ";" +++ c) (map group_text gs)))
      with (String ";"%char (c +++ join_all (map (fun c => ";" +++ c) (map group_text gs)))).
    apply putback_lit1; [reflexivity|].
    apply putback_match.
    + apply of_nat_digits.
    + apply of_nat_not_empty.
    + apply no_digit_ahead_join. intros p. now exists p.
    + rewrite int_of_nat. specialize (H 0 c eq_refl). now rewrite Nat.add_0_r in H.
    + apply IH; [exact Hok|]. intros i c' Hc'. specialize (H (S i) c' Hc').
      now rewrite Nat.add_succ_r in H.
  - fold (join_all (map (fun p => ";" +++ p) (bracket_contents q gs))).
    fold (join_all (map (fun c => ";" +++ c) (map group_text gs))).
    apply group_ok_plain in Hg as (_ & _ & _ & _ & Hh).
    change ((";" +++ b) +++ join_all (map (fun p => ";" +++ p) (bracket_contents q gs)))
      with (String ";"%char (b +++ join_all (map (fun p => ";" +++ p) (bracket_contents q gs)))).
    change ((";" +++ b) +++ join_all (map (fun c => ";" +++ c) (map group_text gs)))
      with (String ";"%char (b +++ join_all (map (fun c => ";" +++ c) (map group_text gs)))).
    apply putback_lit1; [reflexivity|].
    apply putback_lits; [exact Hh|]. now apply IH.
Qed.

(** *** The split *)

Lemma split_joined (cs : list string) :
  forall c0,
    Str.mem Compiler.SEP c0 = false ->
    Forall (fun c => Str.mem Compiler.SEP c = false) cs ->
    Str.split Compiler.SEP (c0 +++ join_all (map (fun c => ";" +++ c) cs)) = c0 :: cs.
Proof.
  induction cs as [|c cs IH]; intros c0 H0 H; cbn [map join_all fold_right].
  - rewrite sappend_nil_r. now apply split_no_sep.
  - apply Forall_cons_iff in H as [Hc H].
    fold (join_all (map (fun c => ";" +++ c) cs)).
    change ((";" +++ c) +++ join_all (map (fun c => ";" +++ c) cs))
      with (String Compiler.SEP (c +++ join_all (map (fun c => ";" +++ c) cs))).
    rewrite split_app_sep, (split_no_sep _ _ H0), IH by assumption. reflexivity.
Qed.

Lemma group_text_sep_free (gs : list group) :
  forallb group_ok gs = true ->
  Forall (fun c => Str.mem Compiler.SEP c = false) (map group_text gs).
Proof.
  induction gs as [|[c|b] gs IH]; cbn [forallb map]; intros H; [constructor| |];
    apply andb_true_iff in H as [Hg H]; constructor; auto.
  - apply group_ok_quoted in Hg. tauto.
  - apply group_ok_plain in Hg. tauto.
Qed.

(** *** The whole compilation *)

Lemma parse_expr_groups (st : Compiler.subx) (gs : list group) :
  forallb group_ok gs = true ->
  fst (Compiler._parse_expr st (expr_of gs))
  = Ok (let e := String "$"%char (join_all (map (fun c => ";" +++ c) (map group_text gs))) in
        if Str.startswith "$;" e then Str.drop 2 e else e).
Proof.
  intros Hok. unfold Compiler._parse_expr, expr_of.
  set (q0 := List.length (Compiler.tabQ st)).
  set (ps := bracket_contents q0 gs).
  assert (E1 : Compiler.pickup_quote
                 (String "$"%char (join_all (map group_source gs))) (Compiler.tabQ st)
               = (String "$"%char (join_all (map (fun p => "[" +++ p +++ "]") ps)),
                  Compiler.tabQ st ++ quoted_texts gs)).
  { pose proof (pickup_quote_groups gs (Compiler.tabQ st) Hok) as E.
    unfold Compiler.pickup_quote in *. rewrite pickup_lit1 by reflexivity.
    now rewrite E. }
  rewrite E1.
  assert (E2 : Compiler.pickup_bracket
                 (String "$"%char (join_all (map (fun p => "[" +++ p +++ "]") ps)))
                 (Compiler.tabB st)
               = (String "$"%char
                    (join_all (map (fun i => ".#B" +++ Str.of_nat i)
                                   (seq (List.length (Compiler.tabB st)) (List.length ps)))),
                  Compiler.tabB st ++ ps)).
  { pose proof (@pickup_bracket_groups ps (Compiler.tabB st)
                  (@bracket_contents_closed gs q0 Hok)) as E.
    unfold Compiler.pickup_bracket in *. rewrite pickup_lit1 by reflexivity.
    now rewrite E. }
  rewrite E2. cbn [fst].
  rewrite sub_doubledot_lit1 by reflexivity. rewrite sub_doubledot_placeholders.
  rewrite sub_dot_lit1 by reflexivity. rewrite sub_dot_placeholders.
  assert (E5 : Compiler.putback_bracket (Compiler.tabB st ++ ps)
                 (String "$"%char
                    (join_all (map (fun i => ";#B" +++ Str.of_nat i)
                                   (seq (List.length (Compiler.tabB st)) (List.length ps)))))
               = Ok (String "$"%char (join_all (map (fun p => ";" +++ p) ps)))).
  { unfold Compiler.putback_bracket. apply putback_lit1; [reflexivity|].
    apply putback_bracket_groups. intros i p Hp.
    rewrite nth_error_app2 by lia.
    now replace (List.length (Compiler.tabB st) + i - List.length (Compiler.tabB st))
      with i by lia. }
  rewrite E5. unfold Ok at 1. cbn [bind].
  assert (E6 : Compiler.putback_quote (Compiler.tabQ st ++ quoted_texts gs)
                 (String "$"%char (join_all (map (fun p => ";" +++ p) ps)))
               = Ok (String "$"%char
                       (join_all (map (fun c => ";" +++ c) (map group_text gs))))).
  { unfold Compiler.putback_quote. apply putback_lit1; [reflexivity|].
    apply putback_quote_groups; [exact Hok|]. intros i c Hc.
    rewrite nth_error_app2 by (unfold q0; lia).
    now replace (q0 + i - List.length (Compiler.tabQ st)) with i by (unfold q0; lia). }
  rewrite E6. reflexivity.
Qed.

(** ** More on filters, slices and wildcards *)

(** The predicate of the claim C6: [@.missing ] is rewritten into a
    subscript of the child (the name runs up to the operator, the space
    included); when the evaluation raises [KeyError] on every child, no
    child is kept and nothing is raised. *)
Lemma filter_fail_open_witness :
  Compiler.compile "$[?(@.missing > 5)]" = Ok ["?(@.missing > 5)"] /\
  Filter.rewrite "@.missing > 5" 0
  = Ok ("__obj[" ++ Filter.dquote ++ "missing " ++ Filter.dquote ++ "]> 5")%string /\
  _filter key_error_eval (fun _ _ => emit (EPath "kept")) (JDict [("a", JNum 1)]) "$;0"
          "@.missing > 5"
  = log_error KeyError /\
  evaluate key_error_eval "$[?(@.missing > 5)]"
           (JList [JDict [("a", JNum 1)]; JDict [("a", JNum 9)]]) "VALUE"
  = Ok [].
Proof.
  split; [reflexivity|]. split; [reflexivity|]. split; [|reflexivity].
  apply (proj1 (filter_fail_open key_error_eval)). reflexivity.
Defined.

(** The slices [[1:3]] and [[:-1]] of [[10, 20, 30, 40]], and a stride
    of zero. *)
Example slice_examples :
  forall py_eval,
    evaluate py_eval "$[1:3]" doc_tens "VALUE" = Ok [EValue (JNum 20); EValue (JNum 30)] /\
    evaluate py_eval "$[:-1]" doc_tens "VALUE"
    = Ok [EValue (JNum 10); EValue (JNum 20); EValue (JNum 30)] /\
    evaluate py_eval "$[::-1]" doc_tens "PATH"
    = Ok [EPath "$;3"; EPath "$;2"; EPath "$;1"; EPath "$;0"] /\
    evaluate py_eval "$[::0]" doc_tens "VALUE" = Raise ValueError.
Proof. intros py_eval. repeat split; reflexivity. Qed.

Lemma for_enum_store py_eval rt (path : string) (l : list json) :
  forall i,
    same_run (for_enum (fun idx v => _trace py_eval rt [] v (path_idx path idx)) i l)
             (mkOut (map (fun t => entry_of rt (snd t) (path_idx path (fst t)))
                         (enumerate_from i l)) [] None 0).
Proof.
  induction l as [|x l IH]; intros i; simpl; [apply same_run_refl|].
  eapply same_run_trans; [apply same_run_and_then; [apply same_run_enter|apply IH]|].
  destruct rt; repeat split.
Qed.

Lemma for_items_store py_eval rt (path : string) (kvs : list (string * json)) :
  same_run (for_items (fun k v => _trace py_eval rt [] v (path_key path k)) kvs)
           (mkOut (map (fun t => entry_of rt (snd t) (path_key path (fst t))) kvs)
                  [] None 0).
Proof.
  induction kvs as [|[k x] l IH]; simpl; [apply same_run_refl|].
  eapply same_run_trans; [apply same_run_and_then; [apply same_run_enter|apply IH]|].
  destruct rt; repeat split.
Qed.

Lemma length_enumerate_from {A} (l : list A) :
  forall n, List.length (enumerate_from n l) = List.length l.
Proof. induction l as [|x l IH]; intros n; simpl; [reflexivity|now rewrite IH]. Qed.

(** X3.  A last step [*] yields one result per element of a sequence, in
    index order, and one per entry of a mapping, in the order of the
    mapping; nothing is raised. *)
Theorem wildcard_complete :
  forall py_eval rt (path : string),
    (forall l,
        results (_trace py_eval rt ["*"] (JList l) path)
        = map (fun t => entry_of rt (snd t) (path_idx path (fst t))) (enumerate l) /\
        List.length (results (_trace py_eval rt ["*"] (JList l) path)) = List.length l /\
        raised (_trace py_eval rt ["*"] (JList l) path) = None) /\
    (forall kvs,
        results (_trace py_eval rt ["*"] (JDict kvs) path)
        = map (fun t => entry_of rt (snd t) (path_key path (fst t))) kvs /\
        raised (_trace py_eval rt ["*"] (JDict kvs) path) = None).
Proof.
  intros py_eval rt path. split.
  - intros l.
    destruct (for_enum_store py_eval rt path l 0) as (Hr & _ & Hx).
    assert (Hres : results (_trace py_eval rt ["*"] (JList l) path)
                   = map (fun t => entry_of rt (snd t) (path_idx path (fst t))) (enumerate l))
      by exact Hr.
    split; [exact Hres|]. split; [|exact Hx].
    rewrite Hres, length_map. apply length_enumerate_from.
  - intros kvs. destruct (for_items_store py_eval rt path kvs) as (Hr & _ & Hx).
    split; [exact Hr|exact Hx].
Qed.

(** ** What the results are made of *)

Lemma Forall2_diag {A} (P : A -> Prop) (l l' : list A) :
  Forall2 (fun x y => x = y /\ P x) l l' -> Forall P l.
Proof. induction 1 as [|x y l l' [_ H] _ IH]; constructor; auto. Qed.

Lemma under_refl (root : string) : under root root.
Proof. exists EmptyString. split; [now rewrite sappend_nil_r|now left]. Qed.

Lemma under_key (root path k : string) : under root path -> under root (path_key path k).
Proof.
  intros (rest & -> & H). exists (rest +++ Compiler.SEPs +++ k).
  split; [unfold path_key; now rewrite sappend_assoc|]. right.
  destruct H as [->|H]; [reflexivity|].
  destruct rest as [|c rest]; [discriminate|exact H].
Qed.

Lemma trace_values py_eval segments obj path :
  out_rel (fun x y => x = y /\ is_value x) (fun _ _ => True)
          (_trace py_eval VALUE segments obj path)
          (_trace py_eval VALUE segments obj path).
Proof.
  apply (@rel_trace py_eval py_eval VALUE VALUE (fun x y => x = y /\ is_value x)
                    (fun _ _ => True) (fun _ _ => True) (fun _ => True)); auto.
  - intros o p _. repeat split; simpl; auto. repeat constructor. now exists o.
  - intros n1 n2 v p step H. unfold _filter.
    destruct (py_eval step v) as [e|[|]]; auto; repeat split; simpl; auto.
  - clear. induction segments; constructor; auto.
Qed.

Lemma trace_paths py_eval segments obj path :
  out_rel (fun x y => x = y /\ path_under path x) (fun _ _ => True)
          (_trace py_eval PATH segments obj path)
          (_trace py_eval PATH segments obj path).
Proof.
  apply (@rel_trace py_eval py_eval PATH PATH (fun x y => x = y /\ path_under path x)
                    (fun _ _ => True) (fun _ p => under path p) (fun _ => True)); auto.
  - intros l p i v H _. now apply under_key.
  - intros l p step v H _ _. now apply under_key.
  - intros kvs p k v H _. now apply under_key.
  - intros o p H. repeat split; simpl; auto. repeat constructor. now exists p.
  - intros n1 n2 v p step H. unfold _filter.
    destruct (py_eval step v) as [e|[|]]; auto; repeat split; simpl; auto.
  - clear. induction segments; constructor; auto.
  - apply under_refl.
Qed.

(** X6.  In VALUE mode every result is a value; in PATH mode every result is
    a path, the root marker [$] alone or followed by a separator and
    more. *)
Theorem results_match_mode :
  forall py_eval segments doc rs,
    (parse py_eval segments doc "VALUE" = Ok rs -> Forall is_value rs) /\
    (parse py_eval segments doc "PATH" = Ok rs -> Forall (path_under "$") rs).
Proof.
  intros py_eval segments doc rs. unfold parse.
  destruct (negb _); [split; discriminate|]. simpl. split.
  - destruct (trace_values py_eval segments doc "$") as (H & _).
    destruct (raised _); [discriminate|]. intros E. injection E as <-.
    eapply Forall2_diag; eauto.
  - destruct (trace_paths py_eval segments doc "$") as (H & _).
    destruct (raised _); [discriminate|]. intros E. injection E as <-.
    eapply Forall2_diag; eauto.
Qed.

Lemma results_match_mode_witness :
  Forall (path_under "$")
         [EPath "$;bicycle;color"; EPath "$;scores;0"; EPath "$;scores;1"; EPath "$;scores;2"].
Proof.
  apply (proj2 (results_match_mode no_eval ["*"; "*"] doc_bicycle
                  [EPath "$;bicycle;color"; EPath "$;scores;0"; EPath "$;scores;1";
                   EPath "$;scores;2"])).
  reflexivity.
Defined.

Lemma subvalues_self (v : json) : In v (subvalues v).
Proof. destruct v; simpl; auto. Qed.

Lemma subvalues_trans (a : json) :
  forall u w, In u (subvalues a) -> In w (subvalues u) -> In w (subvalues a).
Proof.
  induction a as [| | | |l IH|kvs IH] using json_ind; intros u w Hu Hw;
    try (destruct Hu as [<-|[]]; exact Hw).
  - destruct Hu as [<-|Hu]; [exact Hw|]. right.
    change (In u (flat_map subvalues l)) in Hu.
    change (In w (flat_map subvalues l)).
    apply in_flat_map in Hu as (x & Hx & Hu). apply in_flat_map. exists x. split; [exact Hx|].
    rewrite Forall_forall in IH. eapply IH; eauto.
  - destruct Hu as [<-|Hu]; [exact Hw|]. right.
    change (In u (flat_map (fun kv => subvalues (snd kv)) kvs)) in Hu.
    change (In w (flat_map (fun kv => subvalues (snd kv)) kvs)).
    apply in_flat_map in Hu as (x & Hx & Hu). apply in_flat_map. exists x. split; [exact Hx|].
    rewrite Forall_forall in IH. eapply IH; eauto.
Qed.

Lemma subvalues_element (doc : json) (l : list json) (v : json) :
  In (JList l) (subvalues doc) -> In v l -> In v (subvalues doc).
Proof.
  intros H Hv. eapply subvalues_trans; [exact H|]. right.
  change (In v (flat_map subvalues l)).
  apply in_flat_map. exists v. split; [exact Hv|apply subvalues_self].
Qed.

Lemma subvalues_entry (doc : json) (kvs : list (string * json)) (k : string) (v : json) :
  In (JDict kvs) (subvalues doc) -> In (k, v) kvs -> In v (subvalues doc).
Proof.
  intros H Hv. eapply subvalues_trans; [exact H|]. right.
  change (In v (flat_map (fun kv => subvalues (snd kv)) kvs)).
  apply in_flat_map. exists (k, v). split; [exact Hv|apply subvalues_self].
Qed.

Lemma trace_from_document py_eval segments doc path :
  Forall not_extractor segments ->
  out_rel (fun x y => x = y /\ from_document doc x) (fun _ _ => True)
          (_trace py_eval VALUE segments doc path)
          (_trace py_eval VALUE segments doc path).
Proof.
  intros Hseg.
  apply (@rel_trace py_eval py_eval VALUE VALUE (fun x y => x = y /\ from_document doc x)
                    (fun _ _ => True) (fun v _ => In v (subvalues doc)) not_extractor); auto.
  - intros l p i v H Hn. eapply subvalues_element; [exact H|]. eapply nth_error_In; eauto.
  - intros l p step v H _ Hn. eapply subvalues_element; [exact H|]. eapply nth_error_In; eauto.
  - intros kvs p k v H Hk. eapply subvalues_entry; eauto.
  - unfold not_extractor. intros; congruence.
  - intros o p H. repeat split; simpl; auto. repeat constructor. now exists o.
  - intros n1 n2 v p step H. unfold _filter.
    destruct (py_eval step v) as [e|[|]]; auto; repeat split; simpl; auto.
  - apply subvalues_self.
Qed.

(** X7.  When no step has the form of a field extractor, every VALUE result
    is a value that the document holds: the document itself, an element
    or an entry of it, at any depth.  (A field extractor returns a
    mapping that it builds.) *)
Theorem values_come_from_document :
  forall py_eval segments doc rs,
    Forall not_extractor segments ->
    parse py_eval segments doc "VALUE" = Ok rs ->
    Forall (from_document doc) rs.
Proof.
  intros py_eval segments doc rs Hseg. unfold parse.
  destruct (negb _); [discriminate|]. simpl.
  destruct (trace_from_document py_eval doc "$" Hseg) as (H & _).
  destruct (raised _); [discriminate|]. intros E. injection E as <-.
  eapply Forall2_diag; eauto.
Qed.

Lemma values_come_from_document_witness :
  Forall (from_document doc_bicycle)
         [EValue (JStr "red"); EValue (JNum 1); EValue (JNum 2); EValue (JNum 3)].
Proof.
  apply (@values_come_from_document no_eval [".."; "*"; "*"] doc_bicycle).
  - repeat constructor.
  - reflexivity.
Defined.

(** ** The exception of a sorter *)

Lemma sorter_raises {K} (obj : list (K * json)) (sortbys : string) (e : exn) :
  fst (Sorter._sorter obj sortbys) = inl e -> e = TypeError.
Proof.
  unfold Sorter._sorter. unfold Ok.
  generalize (@nil exn) as lg. revert obj.
  induction (rev (Str.split ","%char sortbys)) as [|k ks IH]; intros obj lg;
    cbn [fold_left fst snd Sorter.next_pass]; [discriminate|].
  destruct (Sorter.sort_pass k obj) as [r lg'] eqn:E. destruct r as [e'|l'].
  - rewrite sorter_fold_raised. intros H. injection H as <-.
    eapply sort_pass_raises. rewrite E. reflexivity.
  - apply IH.
Qed.

(** ** The children of a value *)

Lemma for_enum_children (f : json -> string -> Out) (path : string) (l : list json) :
  forall i,
    for_enum (fun idx v => f v (path_idx path idx)) i l
    = for_each (fun c => f (fst c) (snd c))
               (map (fun t => (snd t, path_idx path (fst t))) (enumerate_from i l)).
Proof. induction l as [|x l IH]; intros i; simpl; [reflexivity|now rewrite IH]. Qed.

Lemma for_items_children (f : json -> string -> Out) (path : string)
      (kvs : list (string * json)) :
  for_items (fun k v => f v (path_key path k)) kvs
  = for_each (fun c => f (fst c) (snd c))
             (map (fun kv => (snd kv, path_key path (fst kv))) kvs).
Proof. induction kvs as [|[k x] l IH]; simpl; [reflexivity|now rewrite IH]. Qed.

(** [_traverse] calls [f] on every child, in order. *)
Lemma traverse_children (f : json -> string -> Out) obj path :
  _traverse f obj path = for_each (fun c => f (fst c) (snd c)) (children obj path).
Proof.
  destruct obj; simpl; try reflexivity.
  - apply for_enum_children.
  - apply for_items_children.
Qed.

(** ** A filter as the last step *)

Lemma slice_match_mark (s : string) : Syntax.slice_match (String "?" s) = false.
Proof.
  unfold Syntax.slice_match. simpl.
  destruct (Str.split ":"%char s) as [|h [|b [|c [|d t]]]]; reflexivity.
Qed.

Lemma slice_match_slash (s : string) : Syntax.slice_match (String "/" s) = false.
Proof.
  unfold Syntax.slice_match. simpl.
  destruct (Str.split ":"%char s) as [|h [|b [|c [|d t]]]]; reflexivity.
Qed.

Lemma same_run_out (a : Out) (r : list entry) (l : list exn) :
  results a = r -> logs a = l -> raised a = None -> same_run a (mkOut r l None 0).
Proof. intros; repeat split; assumption. Qed.

Lemma filter_each py_eval rt (step' : string) (cs : list (json * string)) :
  same_run
    (for_each (fun c => _filter py_eval (_trace py_eval rt []) (fst c) (snd c) step') cs)
    (mkOut (map (node_entry rt) (filter (fun c => accepts py_eval step' (fst c)) cs))
           (flat_map (fun c => complaint py_eval step' (fst c)) cs) None 0).
Proof.
  induction cs as [|c cs IH]; [apply same_run_refl|].
  cbn [for_each filter flat_map].
  eapply same_run_trans; [apply same_run_and_then; [apply same_run_refl|apply IH]|].
  unfold _filter, accepts, complaint.
  destruct (py_eval step' (fst c)) as [e|[|]]; try (repeat split; fail).
  destruct rt; repeat split.
Qed.

(** X9.  A last step [?(pred)]: the predicate, rewritten once, is evaluated
    on every child in order; the results are the children on which the
    evaluation returns a true value, the log holds what the other
    evaluations raised, and nothing is raised. *)
Theorem filter_selects :
  forall py_eval rt (pred step' : string) obj path,
    Filter.rewrite pred 0 = Ok step' ->
    match obj with
    | JDict kvs => lookup ("?(" ++ pred ++ ")")%string kvs = None
    | _ => True
    end ->
    let o := _trace py_eval rt [("?(" ++ pred ++ ")")%string] obj path in
    results o
    = map (node_entry rt) (filter (fun c => accepts py_eval step' (fst c)) (children obj path)) /\
    logs o = flat_map (fun c => complaint py_eval step' (fst c)) (children obj path) /\
    raised o = None.
Proof.
  intros py_eval rt pred step' obj path Hrw Hkey o.
  assert (Hrun : same_run o
            (mkOut (map (node_entry rt)
                        (filter (fun c => accepts py_eval step' (fst c)) (children obj path)))
                   (flat_map (fun c => complaint py_eval step' (fst c)) (children obj path))
                   None 0)).
  { unfold o. cbn [_trace]. unfold trace_step.
    change ("?(" ++ pred ++ ")")%string with (String "?" (String "(" (pred +++ ")"))) in *.
    replace (String "?" (String "(" (pred +++ ")")) =? "..")%string with false by reflexivity.
    eapply same_run_trans; [apply same_run_enter|].
    unfold trace_body.
    replace (String "?" (String "(" (pred +++ ")")) =? "*")%string with false by reflexivity.
    assert (Hf : Syntax.is_filter (String "?" (String "(" (pred +++ ")"))) = true).
    { unfold Syntax.is_filter.
      change (String "?" (String "(" (pred +++ ")"))) with (("?(" +++ pred) +++ ")") at 2.
      now rewrite endswith_app. }
    assert (Hs : Str.strip 2 (String "?" (String "(" (pred +++ ")"))) = pred).
    { unfold Str.strip. simpl. apply drop_last_app1. }
    assert (Hgo : same_run
              (match Filter.rewrite (Str.strip 2 (String "?" (String "(" (pred +++ ")")))) 0 with
               | inl e => raise e
               | inr s' =>
                   _traverse (fun v p => _filter py_eval (_trace py_eval rt []) v p s') obj path
               end)
              (mkOut (map (node_entry rt)
                          (filter (fun c => accepts py_eval step' (fst c)) (children obj path)))
                     (flat_map (fun c => complaint py_eval step' (fst c)) (children obj path))
                     None 0)).
    { rewrite Hs, Hrw. unfold Ok. rewrite traverse_children. apply filter_each. }
    destruct obj as [| | | |l|kvs]; try (rewrite Hf; exact Hgo).
    - replace (Str.isdigit (String "?" (String "(" (pred +++ ")")))) with false by reflexivity.
      rewrite slice_match_mark, Hf. exact Hgo.
    - rewrite Hkey.
      replace (Syntax.select_match (String "?" (String "(" (pred +++ ")")))) with false
        by reflexivity.
      rewrite Hf. exact Hgo. }
  destruct Hrun as (Hr & Hl & Hx). auto.
Qed.

Lemma filter_selects_witness :
  results (_trace (fun _ v => match v with JNum 2%Z => Raise KeyError | _ => Ok true end)
                  PATH ["?(@.a>1)"] (JList [JNum 1; JNum 2; JNum 3]) "$")
  = [EPath "$;0"; EPath "$;2"] /\
  logs (_trace (fun _ v => match v with JNum 2%Z => Raise KeyError | _ => Ok true end)
               PATH ["?(@.a>1)"] (JList [JNum 1; JNum 2; JNum 3]) "$")
  = [KeyError].
Proof.
  destruct (@filter_selects
              (fun _ v => match v with JNum 2%Z => Raise KeyError | _ => Ok true end)
              PATH "@.a>1" _ (JList [JNum 1; JNum 2; JNum 3]) "$" eq_refl I)
    as (Hr & Hl & _).
  split; [exact Hr|exact Hl].
Defined.

(** ** A selection of names *)

Lemma select_from_run (st : Syntax.sel_state) (k rest : string) :
  st = Syntax.SelFirst \/ st = Syntax.SelName ->
  Str.forallb Syntax.is_sel_char k = true ->
  Syntax.select_from st (k +++ rest) = Syntax.select_from st rest.
Proof.
  intros Hst. induction k as [|c k IH]; cbn [String.append Str.forallb]; intros H;
    [reflexivity|].
  apply andb_true_iff in H as [Hc Hk].
  destruct Hst as [-> | ->]; cbn [Syntax.select_from]; rewrite Hc; now apply IH.
Qed.

Lemma select_from_comma (st : Syntax.sel_state) (k rest : string) :
  st = Syntax.SelFirst \/ st = Syntax.SelName ->
  sel_name k ->
  Syntax.select_from st (String ","%char (k +++ rest))
  = Syntax.select_from Syntax.SelName rest.
Proof.
  intros Hst [Hne Hk]. destruct k as [|c k]; [congruence|].
  cbn [Str.forallb] in Hk. apply andb_true_iff in Hk as [Hc Hk].
  assert (E : Syntax.select_from st (String ","%char (String c k +++ rest))
              = Syntax.select_from Syntax.SelComma (String c k +++ rest))
    by (destruct Hst as [-> | ->]; reflexivity).
  rewrite E. cbn [String.append Syntax.select_from]. rewrite Hc.
  apply select_from_run; auto.
Qed.

Lemma select_from_tail (l : list string) :
  forall st,
    st = Syntax.SelFirst \/ st = Syntax.SelName ->
    l <> [] -> Forall sel_name l ->
    Syntax.select_from st (String ","%char (join_with "," l)) = true.
Proof.
  induction l as [|k l IH]; intros st Hst Hne Hl; [congruence|].
  apply Forall_cons_iff in Hl as [Hk Hl].
  destruct l as [|k2 l].
  - cbn [join_with]. rewrite <- (sappend_nil_r k). now rewrite select_from_comma.
  - change (join_with "," (k :: k2 :: l))
      with (k +++ String ","%char (join_with "," (k2 :: l))).
    rewrite select_from_comma by assumption.
    apply IH; [now right|discriminate|exact Hl].
Qed.

Lemma select_match_join (k1 k2 : string) (ks : list string) :
  Forall sel_name (k1 :: k2 :: ks) ->
  Syntax.select_match (join_with "," (k1 :: k2 :: ks)) = true.
Proof.
  intros H. apply Forall_cons_iff in H as [[Hne Hk] Hl].
  change (join_with "," (k1 :: k2 :: ks))
    with (k1 +++ String ","%char (join_with "," (k2 :: ks))).
  unfold Syntax.select_match. destruct k1 as [|c k1]; [congruence|].
  cbn [Str.forallb] in Hk. apply andb_true_iff in Hk as [Hc Hk].
  cbn [String.append Syntax.select_from]. rewrite Hc. cbn [andb].
  rewrite select_from_run by auto.
  apply select_from_tail; [now left|discriminate|exact Hl].
Qed.

Lemma sel_name_no_comma (k : string) : sel_name k -> Str.mem ","%char k = false.
Proof. intros [_ H]. now apply (mem_forallb Syntax.is_sel_char). Qed.

Lemma split_join (l : list string) :
  l <> [] -> Forall sel_name l -> Str.split ","%char (join_with "," l) = l.
Proof.
  induction l as [|k l IH]; intros Hne Hl; [congruence|].
  apply Forall_cons_iff in Hl as [Hk Hl]. apply sel_name_no_comma in Hk.
  destruct l as [|k2 l].
  - cbn [join_with]. now apply split_no_sep.
  - change (join_with "," (k :: k2 :: l))
      with (k +++ String ","%char (join_with "," (k2 :: l))).
    rewrite split_app_sep, (split_no_sep _ _ Hk), IH; [reflexivity|discriminate|exact Hl].
Qed.

Lemma mem_neq (c : ascii) (s t : string) :
  Str.mem c s = true -> Str.mem c t = false -> (s =? t)%string = false.
Proof. intros Hs Ht. apply String.eqb_neq. intros ->. congruence. Qed.

(** X11.  A step [k1,k2,...] of two names or more, with no space, on a
    mapping that has no key equal to the whole step: the results are the
    entries under the listed names that the mapping has, in the order of
    the step and not of the mapping, a name listed twice yielding its
    entry twice; a name that the mapping has not is passed over, and
    nothing is raised. *)
Theorem select_in_listed_order :
  forall py_eval rt (k1 k2 : string) (ks : list string) kvs path,
    Forall sel_name (k1 :: k2 :: ks) ->
    lookup (join_with "," (k1 :: k2 :: ks)) kvs = None ->
    let o := _trace py_eval rt [join_with "," (k1 :: k2 :: ks)] (JDict kvs) path in
    results o = flat_map (fun k => match_key rt k (JDict kvs, path)) (k1 :: k2 :: ks) /\
    logs o = [] /\ raised o = None.
Proof.
  intros py_eval rt k1 k2 ks kvs path Hn Hl o.
  assert (Hrun : same_run o
            (mkOut (flat_map (fun k => match_key rt k (JDict kvs, path)) (k1 :: k2 :: ks))
                   [] None 0)).
  { unfold o. cbn [_trace]. unfold trace_step.
    assert (Hc : Str.mem ","%char (join_with "," (k1 :: k2 :: ks)) = true).
    { change (join_with "," (k1 :: k2 :: ks))
        with (k1 +++ String ","%char (join_with "," (k2 :: ks))).
      rewrite mem_app. simpl. now rewrite orb_true_r. }
    rewrite (mem_neq _ _ ".." Hc eq_refl).
    eapply same_run_trans; [apply same_run_enter|].
    unfold trace_body. rewrite (mem_neq _ _ "*" Hc eq_refl), Hl.
    rewrite select_match_join by exact Hn.
    rewrite split_join by (auto; discriminate).
    apply for_each_results. intros k. unfold match_key.
    destruct (lookup k kvs); [|apply same_run_refl].
    cbn [_trace]. eapply same_run_trans; [apply same_run_enter|].
    destruct rt; repeat split. }
  destruct Hrun as (Hr & Hg & Hx). auto.
Qed.

Lemma select_in_listed_order_witness :
  results (_trace no_eval VALUE ["c,x,a,c"] doc_ac "$")
  = [EValue (JNum 3); EValue (JNum 1); EValue (JNum 3)].
Proof.
  apply (@select_in_listed_order no_eval VALUE "c" "x" ["a"; "c"] [("a", JNum 1); ("c", JNum 3)] "$").
  - repeat constructor; discriminate.
  - reflexivity.
Defined.

(** ** The root marker alone *)

(** X12.  The expression [$] compiles to the one step ["$"], which no rule of
    [_trace] takes unless the document is a mapping with the key ["$"]:
    on every sequence, and on every mapping without that key, the
    evaluation returns no result at all, not the document. *)
Theorem root_alone_matches_nothing :
  forall py_eval (doc : json) (mode : string) (rt : result_type),
    result_type_of mode = Some rt ->
    match doc with
    | JList _ => True
    | JDict kvs => lookup "$" kvs = None
    | _ => False
    end ->
    Compiler.compile "$" = Ok ["$"] /\ evaluate py_eval "$" doc mode = Ok [].
Proof.
  intros py_eval doc mode rt Hm Hd. split; [reflexivity|].
  unfold evaluate. change (Compiler.compile "$") with (@Ok (list string) ["$"]).
  cbn [bind Ok]. unfold parse. rewrite Hm.
  destruct doc as [| | | |l|kvs]; try contradiction.
  - reflexivity.
  - cbn [is_list is_dict orb negb _trace]. unfold trace_step, trace_body.
    replace ("$" =? "..")%string with false by reflexivity.
    replace ("$" =? "*")%string with false by reflexivity.
    rewrite Hd. reflexivity.
Qed.

Lemma root_alone_matches_nothing_witness :
  evaluate no_eval "$" doc_bicycle "VALUE" = Ok [].
Proof.
  apply (@root_alone_matches_nothing no_eval doc_bicycle "VALUE" VALUE eq_refl eq_refl).
Defined.

(** ** Recursive descent followed by a wildcard *)

Lemma flat_map_single {A B} (f : A -> B) (l : list A) :
  flat_map (fun x => [f x]) l = map f l.
Proof. induction l as [|x l IH]; simpl; [reflexivity|now rewrite IH]. Qed.

Lemma map_flat_map_list {A B C} (f : B -> C) (g : A -> list B) (l : list A) :
  map f (flat_map g l) = flat_map (fun x => map f (g x)) l.
Proof. induction l as [|x l IH]; simpl; [reflexivity|now rewrite map_app, IH]. Qed.

Lemma flat_map_flat_map {A B C} (f : B -> list C) (g : A -> list B) (l : list A) :
  flat_map f (flat_map g l) = flat_map (fun x => flat_map f (g x)) l.
Proof. induction l as [|x l IH]; simpl; [reflexivity|now rewrite flat_map_app, IH]. Qed.

Lemma flat_enum_children (path : string) (l : list json) :
  forall i,
    flat_enum (fun idx c => nodes c (path_idx path idx)) i l
    = flat_map (fun c => nodes (fst c) (snd c))
               (map (fun t => (snd t, path_idx path (fst t))) (enumerate_from i l)).
Proof. induction l as [|x l IH]; intros i; simpl; [reflexivity|now rewrite IH]. Qed.

(** The nodes of a value: the value, then the nodes of its children. *)
Lemma nodes_children (v : json) (path : string) :
  nodes v path = (v, path) :: flat_map (fun c => nodes (fst c) (snd c)) (children v path).
Proof.
  destruct v; simpl; try reflexivity.
  - f_equal. apply flat_enum_children.
  - f_equal. induction kvs as [|[k x] l IH]; simpl; [reflexivity|now rewrite IH].
Qed.

Lemma children_In (v : json) (path : string) (c : json * string) :
  In c (children v path) ->
  match v with
  | JList l => In (fst c) l
  | JDict kvs => exists k, In (k, fst c) kvs
  | _ => False
  end.
Proof.
  destruct v; simpl; auto.
  - intros H. apply in_map_iff in H as ([i x] & <- & H). simpl.
    eapply nth_error_In, enumerate_In. exact H.
  - intros H. apply in_map_iff in H as ([k x] & <- & H). simpl. now exists k.
Qed.

Lemma perm_spread {A} (g h : A -> list A) (cs : list A) :
  (forall c, In c cs -> Permutation (g c) (h c)) ->
  Permutation (cs ++ flat_map g cs) (flat_map (fun c => c :: h c) cs).
Proof.
  induction cs as [|c cs IH]; intros H; simpl; [constructor|].
  apply perm_skip.
  eapply perm_trans; [apply Permutation_app_swap_app|].
  apply Permutation_app; [apply H; now left|].
  apply IH. intros; apply H; now right.
Qed.

(** The children of all the nodes are the nodes below the root, each one
    once. *)
Lemma children_of_nodes (v : json) :
  forall path,
    Permutation (flat_map (fun np => children (fst np) (snd np)) (nodes v path))
                (tl (nodes v path)).
Proof.
  induction v as [| | | |l IH|kvs IH] using json_ind; intros path;
    try (simpl; constructor); rewrite nodes_children; cbn [flat_map tl fst snd];
    rewrite flat_map_flat_map.
  - eapply perm_trans;
      [apply (@perm_spread _ _ (fun c : json * string => tl (nodes (fst c) (snd c))))|].
    + intros c Hc. apply children_In in Hc. rewrite Forall_forall in IH.
      apply (IH _ Hc (snd c)).
    + erewrite flat_map_ext; [apply Permutation_refl|].
      intros [x p]. simpl. now rewrite nodes_children.
  - eapply perm_trans;
      [apply (@perm_spread _ _ (fun c : json * string => tl (nodes (fst c) (snd c))))|].
    + intros c Hc. apply children_In in Hc as (k & Hk). rewrite Forall_forall in IH.
      apply (IH _ Hk (snd c)).
    + erewrite flat_map_ext; [apply Permutation_refl|].
      intros [x p]. simpl. now rewrite nodes_children.
Qed.

Lemma trace_wildcard_children py_eval rt obj path :
  same_run (_trace py_eval rt ["*"] obj path)
           (mkOut (map (node_entry rt) (children obj path)) [] None 0).
Proof.
  cbn [_trace]. unfold trace_step.
  replace ("*" =? "..")%string with false by reflexivity.
  eapply same_run_trans; [apply same_run_enter|].
  unfold trace_body. replace ("*" =? "*")%string with true by reflexivity.
  rewrite traverse_children, <- flat_map_single.
  apply for_each_results. intros c.
  eapply same_run_trans; [apply same_run_enter|].
  unfold node_entry. destruct rt; repeat split.
Qed.

(** X16.  The steps [".."; "*"] (the expression [$..*]) on any value: nothing
    is raised, and the results are the children of every node, node by
    node, a node before its children; so every value below the root is a
    result exactly once, and the root is none. *)
Theorem descent_wildcard_covers :
  forall py_eval rt (doc : json) (path : string),
    let o := _trace py_eval rt [".."; "*"] doc path in
    raised o = None /\
    results o
    = map (node_entry rt) (flat_map (fun np => children (fst np) (snd np)) (nodes doc path)) /\
    Permutation (results o) (map (node_entry rt) (tl (nodes doc path))) /\
    S (List.length (results o)) = size doc.
Proof.
  intros py_eval rt doc path o.
  assert (Hrun : same_run o
            (mkOut (flat_map (fun np => map (node_entry rt) (children (fst np) (snd np)))
                             (nodes doc path)) [] None 0)).
  { unfold o. cbn [_trace]. unfold trace_step at 1.
    replace (".." =? "..")%string with true by reflexivity.
    eapply same_run_trans; [apply descend_nodes|].
    apply for_each_results. intros [v p]. apply trace_wildcard_children. }
  destruct Hrun as (Hr & _ & Hx). cbn [results raised] in Hr, Hx.
  rewrite <- map_flat_map_list in Hr.
  assert (Hp : Permutation (results o) (map (node_entry rt) (tl (nodes doc path)))).
  { rewrite Hr. apply Permutation_map, children_of_nodes. }
  split; [exact Hx|]. split; [exact Hr|]. split; [exact Hp|].
  rewrite (Permutation_length Hp), length_map, <- (length_nodes doc path).
  rewrite nodes_children. reflexivity.
Qed.

(** ** A sorter as the last step *)

Lemma for_items_entries {K} (pk : K -> string) py_eval rt (path : string)
      (l : list (K * json)) :
  same_run (for_items (fun k v => _trace py_eval rt [] v (path_key path (pk k))) l)
           (mkOut (map (fun t => entry_of rt (snd t) (path_key path (pk (fst t)))) l)
                  [] None 0).
Proof.
  induction l as [|[k x] l IH]; simpl; [apply same_run_refl|].
  eapply same_run_trans; [apply same_run_and_then; [apply same_run_enter|apply IH]|].
  destruct rt; repeat split.
Qed.

Lemma sorted_then_entries {K} (pk : K -> string) py_eval rt (path : string)
      (pairs : list (K * json)) (keys : string) :
  let o := sorted_then (fun k v => _trace py_eval rt [] v (path_key path (pk k))) pairs keys in
  (raised o = None \/ raised o = Some TypeError) /\
  (raised o = None ->
   Permutation (results o)
               (map (fun t => entry_of rt (snd t) (path_key path (pk (fst t)))) pairs)).
Proof.
  unfold sorted_then.
  destruct (Sorter._sorter pairs keys) as [r lg] eqn:Es. destruct r as [e|sorted].
  - assert (He : e = TypeError) by (apply (sorter_raises pairs keys); now rewrite Es).
    subst e. split; [now right|discriminate].
  - destruct (for_items_entries pk py_eval rt path sorted) as (Hr & _ & Hx).
    cbn [results raised] in Hr, Hx.
    assert (Hp : Permutation pairs sorted)
      by (apply (sorter_perm pairs keys); now rewrite Es).
    split.
    + left. rewrite raised_and_then. exact Hx.
    + intros _. unfold and_then. cbn [raised log_errors results app].
      rewrite Hr. apply Permutation_map, Permutation_sym, Hp.
Qed.

(** X17.  A last step [/(keys)].  On a sequence, and on a mapping that has no
    key equal to the whole step, it either raises [TypeError] (the sort
    keys were not ordered) or returns one result per child, the children
    of the value each once, in the order the sort left them in.  On any
    other value it raises [ExprSyntaxError]. *)
Theorem sorter_permutes_children :
  forall py_eval rt (keys : string) obj path,
    let o := _trace py_eval rt [("/(" ++ keys ++ ")")%string] obj path in
    (match obj with
     | JList _ => True
     | JDict kvs => lookup ("/(" ++ keys ++ ")")%string kvs = None
     | _ => False
     end ->
     (raised o = None \/ raised o = Some TypeError) /\
     (raised o = None ->
      Permutation (results o) (map (node_entry rt) (children obj path)))) /\
    (is_list obj = false -> is_dict obj = false ->
     raised o = Some ExprSyntaxError /\ results o = []).
Proof.
  intros py_eval rt keys obj path o.
  assert (Hso : Syntax.is_sorter (String "/" (String "(" (keys +++ ")"))) = true).
  { unfold Syntax.is_sorter.
    change (String "/" (String "(" (keys +++ ")"))) with (("/(" +++ keys) +++ ")") at 2.
    now rewrite endswith_app. }
  assert (Hs : Str.strip 2 (String "/" (String "(" (keys +++ ")"))) = keys).
  { unfold Str.strip. simpl. apply drop_last_app1. }
  unfold o. cbn [_trace]. unfold trace_step, trace_body.
  change ("/(" ++ keys ++ ")")%string with (String "/" (String "(" (keys +++ ")"))).
  replace (String "/" (String "(" (keys +++ ")")) =? "..")%string with false by reflexivity.
  replace (String "/" (String "(" (keys +++ ")")) =? "*")%string with false by reflexivity.
  replace (Syntax.is_filter (String "/" (String "(" (keys +++ ")")))) with false
    by reflexivity.
  split.
  - destruct obj as [| | | |l|kvs]; try contradiction; intros Hk.
    + replace (Str.isdigit (String "/" (String "(" (keys +++ ")")))) with false by reflexivity.
      rewrite slice_match_slash, Hso, Hs. cbn [raised results enter].
      pose proof (sorted_then_entries Str.of_nat py_eval rt path (enumerate l) keys) as H.
      cbn zeta in H. unfold children. rewrite map_map. exact H.
    + rewrite Hk.
      replace (Syntax.select_match (String "/" (String "(" (keys +++ ")")))) with false
        by reflexivity.
      rewrite Hso, Hs. cbn [raised results enter].
      pose proof (sorted_then_entries (fun k : string => k) py_eval rt path kvs keys) as H.
      cbn zeta in H. unfold children. rewrite map_map. exact H.
  - intros Hl Hd. destruct obj; try discriminate; rewrite Hso; split; reflexivity.
Qed.

Lemma sorter_permutes_children_witness :
  Permutation
    (results (_trace no_eval VALUE ["/(a)"]
                     (JList [JDict [("a", JNum 2)]; JDict [("a", JNum 1)]]) "$"))
    [EValue (JDict [("a", JNum 2)]); EValue (JDict [("a", JNum 1)])].
Proof.
  apply (proj1 (@sorter_permutes_children no_eval VALUE "a"
                  (JList [JDict [("a", JNum 2)]; JDict [("a", JNum 1)]]) "$") I).
  reflexivity.
Defined.

(** ** Expressions in dot notation *)

Lemma plain_name_inv (n : string) :
  plain_name n = true ->
  n <> EmptyString /\ Str.mem "'"%char n = false /\ Str.mem "["%char n = false
  /\ Str.mem "."%char n = false /\ Str.mem "#"%char n = false
  /\ Str.mem Compiler.SEP n = false.
Proof.
  unfold plain_name.
  intros [[[[[H1 H2]%andb_true_iff H3]%andb_true_iff H4]%andb_true_iff
             H5]%andb_true_iff H6]%andb_true_iff.
  rewrite negb_true_iff in H1, H2, H3, H4, H5, H6.
  apply String.eqb_neq in H1. tauto.
Qed.

Lemma mem_join_all (c : ascii) (l : list string) :
  Forall (fun s => Str.mem c s = false) l -> Str.mem c (join_all l) = false.
Proof.
  induction 1 as [|s l Hs _ IH]; [reflexivity|].
  cbn [join_all fold_right]. fold (join_all l). now rewrite mem_app, Hs, IH.
Qed.

Lemma pickup_none (opn cls : ascii) (lead tag s : string) (tab : list string) :
  Str.mem opn s = false -> Compiler.pickup opn cls lead tag s 0 tab = (s, tab).
Proof.
  intros H. rewrite <- (sappend_nil_r s) at 1.
  rewrite pickup_lits by exact H. simpl. now rewrite sappend_nil_r.
Qed.

Lemma putback_none (tagc : ascii) (tab : list string) (s : string) :
  Str.mem "#"%char s = false -> Compiler.putback tagc tab s 0 = Ok s.
Proof.
  intros H. rewrite <- (sappend_nil_r s) at 1.
  rewrite (@putback_lits tagc tab s EmptyString EmptyString H eq_refl).
  now rewrite sappend_nil_r.
Qed.

Lemma sub_doubledot_dot1 (c : ascii) (s : string) :
  Ascii.eqb c "."%char = false ->
  Compiler.sub_doubledot (String "."%char (String c s))
  = String "."%char (Compiler.sub_doubledot (String c s)).
Proof.
  intros H.
  change (Compiler.sub_doubledot (String "."%char (String c s)))
    with (if Ascii.eqb "."%char "."%char && Ascii.eqb c "."%char
          then ";..;" +++ Compiler.sub_doubledot s
          else String "."%char (Compiler.sub_doubledot (String c s))).
  now rewrite H.
Qed.

Lemma sub_doubledot_dot2 (s : string) :
  Compiler.sub_doubledot (String "."%char (String "."%char s))
  = ";..;" +++ Compiler.sub_doubledot s.
Proof. reflexivity. Qed.

Lemma sub_dot_sep (c : ascii) (s : string) :
  Ascii.eqb c "."%char = false ->
  Compiler.sub_dot false (String "."%char (String c s))
  = String ";"%char (String c (Compiler.sub_dot false s)).
Proof.
  intros H.
  change (Compiler.sub_dot false (String "."%char (String c s)))
    with (if negb false && negb (Ascii.eqb c "."%char)
          then String Compiler.SEP (Compiler.sub_dot true (String c s))
          else String "."%char (Compiler.sub_dot true (String c s))).
  rewrite H. cbn [negb andb]. now rewrite sub_dot_lit1.
Qed.

Lemma sub_dot_descent (s : string) :
  Compiler.sub_dot false (";..;" +++ s) = ";..;" +++ Compiler.sub_dot false s.
Proof. reflexivity. Qed.

Lemma dotted_ok_inv (d : dotted) :
  plain_name (dotted_name d) = true ->
  exists c n, dotted_name d = String c n /\ Ascii.eqb c "."%char = false
              /\ Str.mem "."%char n = false.
Proof.
  intros H. apply plain_name_inv in H as (Hne & _ & _ & Hd & _).
  destruct (dotted_name d) as [|c n]; [congruence|].
  simpl in Hd. apply orb_false_iff in Hd as [Hc Hn]. now exists c, n.
Qed.

Lemma sub_doubledot_dotted (ds : list dotted) :
  forallb (fun d => plain_name (dotted_name d)) ds = true ->
  Compiler.sub_doubledot (join_all (map dotted_source ds)) = join_all (map dotted_mid ds).
Proof.
  induction ds as [|d ds IH]; cbn [forallb map join_all fold_right]; [reflexivity|].
  intros [Hd Hds]%andb_true_iff.
  fold (join_all (map dotted_source ds)). fold (join_all (map dotted_mid ds)).
  destruct (dotted_ok_inv d Hd) as (c & n & En & Hc & Hn).
  destruct d as [m|m]; simpl in En; subst m; cbn [dotted_source dotted_mid].
  - change (("." +++ String c n) +++ join_all (map dotted_source ds))
      with (String "."%char (String c (n +++ join_all (map dotted_source ds)))).
    rewrite sub_doubledot_dot1, sub_doubledot_lit1 by exact Hc.
    rewrite sub_doubledot_lits by exact Hn. now rewrite IH.
  - change ((".." +++ String c n) +++ join_all (map dotted_source ds))
      with (String "."%char (String "."%char (String c (n +++ join_all (map dotted_source ds))))).
    rewrite sub_doubledot_dot2, sub_doubledot_lit1 by exact Hc.
    rewrite sub_doubledot_lits by exact Hn. now rewrite IH.
Qed.

Lemma sub_dot_dotted (ds : list dotted) :
  forallb (fun d => plain_name (dotted_name d)) ds = true ->
  Compiler.sub_dot false (join_all (map dotted_mid ds))
  = join_all (map (fun c => ";" +++ c) (flat_map dotted_steps ds)).
Proof.
  induction ds as [|d ds IH]; cbn [forallb map join_all fold_right flat_map]; [reflexivity|].
  intros [Hd Hds]%andb_true_iff.
  fold (join_all (map dotted_mid ds)).
  destruct (dotted_ok_inv d Hd) as (c & n & En & Hc & Hn).
  destruct d as [m|m]; simpl in En; subst m; cbn [dotted_mid dotted_steps app map join_all fold_right];
    fold (join_all (map (fun c => ";" +++ c) (flat_map dotted_steps ds))).
  - change (("." +++ String c n) +++ join_all (map dotted_mid ds))
      with (String "."%char (String c (n +++ join_all (map dotted_mid ds)))).
    rewrite sub_dot_sep by exact Hc. rewrite sub_dot_lits by exact Hn. now rewrite IH.
  - change ((";..;" +++ String c n) +++ join_all (map dotted_mid ds))
      with (";..;" +++ String c (n +++ join_all (map dotted_mid ds))).
    rewrite sub_dot_descent, sub_dot_lit1 by exact Hc.
    rewrite sub_dot_lits by exact Hn. now rewrite IH.
Qed.

Lemma dotted_source_free (c : ascii) (ds : list dotted) :
  Ascii.eqb "."%char c = false ->
  Forall (fun d => Str.mem c (dotted_name d) = false) ds ->
  Str.mem c (join_all (map dotted_source ds)) = false.
Proof.
  intros Hc H. apply mem_join_all. apply Forall_map.
  eapply Forall_impl; [|exact H]. intros [n|n] Hn; simpl in *; now rewrite Hc, ?Hc, Hn.
Qed.

Lemma dotted_steps_free (c : ascii) (ds : list dotted) :
  Ascii.eqb "."%char c = false ->
  Forall (fun d => Str.mem c (dotted_name d) = false) ds ->
  Forall (fun s => Str.mem c s = false) (flat_map dotted_steps ds).
Proof.
  intros Hc. induction 1 as [|d ds Hd _ IH]; [constructor|].
  destruct d as [n|n]; simpl in *; repeat constructor; auto.
  simpl. now rewrite Hc.
Qed.

Lemma dotted_names_free (ds : list dotted) :
  forallb (fun d => plain_name (dotted_name d)) ds = true ->
  Forall (fun d => Str.mem "'"%char (dotted_name d) = false) ds /\
  Forall (fun d => Str.mem "["%char (dotted_name d) = false) ds /\
  Forall (fun d => Str.mem "#"%char (dotted_name d) = false) ds /\
  Forall (fun d => Str.mem Compiler.SEP (dotted_name d) = false) ds.
Proof.
  intros H. rewrite forallb_forall in H.
  repeat split; apply Forall_forall; intros d Hd; apply H, plain_name_inv in Hd; tauto.
Qed.

Lemma mem_joined_steps (c : ascii) (cs : list string) :
  Ascii.eqb ";"%char c = false ->
  Forall (fun s => Str.mem c s = false) cs ->
  Str.mem c (join_all (map (fun s => ";" +++ s) cs)) = false.
Proof.
  intros Hc H. apply mem_join_all, Forall_map.
  eapply Forall_impl; [|exact H]. intros s Hs.
  change (Str.mem c (";" +++ s)) with (Ascii.eqb ";"%char c || Str.mem c s).
  now rewrite Hc, Hs.
Qed.

Lemma parse_expr_dotted (st : Compiler.subx) (ds : list dotted) :
  forallb (fun d => plain_name (dotted_name d)) ds = true ->
  Compiler._parse_expr st (dotted_expr ds)
  = (Ok (let e := String "$"%char
                         (join_all (map (fun c => ";" +++ c) (flat_map dotted_steps ds))) in
         if Str.startswith "$;" e then Str.drop 2 e else e),
     st).
Proof.
  intros Hok. destruct (dotted_names_free ds Hok) as (Hq & Hb & Hh & Hs).
  unfold Compiler._parse_expr, dotted_expr, Compiler.pickup_quote, Compiler.pickup_bracket.
  rewrite pickup_none
    by (simpl; apply dotted_source_free; [reflexivity|exact Hq]).
  rewrite pickup_none
    by (simpl; apply dotted_source_free; [reflexivity|exact Hb]).
  rewrite sub_doubledot_lit1 by reflexivity. rewrite sub_doubledot_dotted by exact Hok.
  rewrite sub_dot_lit1 by reflexivity. rewrite sub_dot_dotted by exact Hok.
  assert (Hm : Str.mem "#"%char
                 (String "$"%char
                    (join_all (map (fun c => ";" +++ c) (flat_map dotted_steps ds)))) = false).
  { simpl. apply mem_joined_steps; [reflexivity|].
    apply dotted_steps_free; [reflexivity|exact Hh]. }
  unfold Compiler.putback_bracket, Compiler.putback_quote.
  rewrite (putback_none _ _ _ Hm). unfold Ok at 1. cbn [bind].
  rewrite (putback_none _ _ _ Hm). unfold Ok at 1. cbn [bind].
  destruct st; reflexivity.
Qed.

Lemma steps_split (cs : list string) :
  cs <> [] ->
  Forall (fun c => Str.mem Compiler.SEP c = false) cs ->
  (e <- Ok (let e := String "$"%char (join_all (map (fun c => ";" +++ c) cs)) in
            if Str.startswith "$;" e then Str.drop 2 e else e) ;;
   Ok (Str.split Compiler.SEP e)) = Ok cs.
Proof.
  intros Hne H. destruct cs as [|c0 cs]; [congruence|].
  apply Forall_cons_iff in H as [H0 H].
  cbn [map join_all fold_right]. fold (join_all (map (fun c => ";" +++ c) cs)).
  change (Str.startswith "$;"
            (String "$"%char ((";" +++ c0) +++ join_all (map (fun c => ";" +++ c) cs))))
    with true.
  change (Str.drop 2
            (String "$"%char ((";" +++ c0) +++ join_all (map (fun c => ";" +++ c) cs))))
    with (c0 +++ join_all (map (fun c => ";" +++ c) cs)).
  cbn [bind Ok]. unfold Ok. f_equal. now apply split_joined.
Qed.

Lemma compile_in_dotted (st : Compiler.subx) (ds : list dotted) :
  ds <> [] ->
  forallb (fun d => plain_name (dotted_name d)) ds = true ->
  Compiler.compile_in st (dotted_expr ds) = (Ok (flat_map dotted_steps ds), st).
Proof.
  intros Hne Hok. unfold Compiler.compile_in.
  rewrite parse_expr_dotted by exact Hok. f_equal.
  apply steps_split.
  - destruct ds as [|[n|n] ds]; [congruence| |]; discriminate.
  - apply dotted_steps_free; [reflexivity|]. now apply dotted_names_free.
Qed.

(** X21.  An expression in dot notation, [$] followed by one or more steps
    [.name] or [..name] whose names are not empty and hold no quote, no
    opening bracket, no dot, no [#] and no separator: it compiles to the
    names in order, with the step [..] before the name of each [..name],
    and it leaves the shared tables as they were. *)
Theorem dotted_compiles :
  forall (st : Compiler.subx) (ds : list dotted),
    ds <> [] ->
    forallb (fun d => plain_name (dotted_name d)) ds = true ->
    Compiler.compile_in st (dotted_expr ds) = (Ok (flat_map dotted_steps ds), st).
Proof. intros st ds. apply compile_in_dotted. Qed.

Lemma dotted_compiles_witness :
  dotted_expr [Child "store"; Deep "price"; Child "*"] = "$.store..price.*" /\
  Compiler.compile "$.store..price.*" = Ok ["store"; ".."; "price"; "*"].
Proof.
  split; [reflexivity|].
  unfold Compiler.compile.
  change "$.store..price.*" with (dotted_expr [Child "store"; Deep "price"; Child "*"]).
  rewrite (@dotted_compiles Compiler.subx0 [Child "store"; Deep "price"; Child "*"]);
    [reflexivity|discriminate|reflexivity].
Defined.

(** ** The three notations of a name *)

Lemma compile_in_groups (st : Compiler.subx) (gs : list group) :
  gs <> [] -> forallb group_ok gs = true ->
  fst (Compiler.compile_in st (expr_of gs)) = Ok (map group_text gs).
Proof.
  intros Hne Hok. unfold Compiler.compile_in.
  pose proof (parse_expr_groups st gs Hok) as E.
  destruct (Compiler._parse_expr st (expr_of gs)) as [r st']. cbn [fst] in *. subst r.
  apply steps_split.
  - destruct gs; [congruence|discriminate].
  - now apply group_text_sep_free.
Qed.

Lemma word_name_inv (n : string) :
  word_name n = true -> n <> EmptyString /\ Str.forallb Str.is_word n = true.
Proof.
  unfold word_name. intros [H1 H2]%andb_true_iff.
  apply negb_true_iff, String.eqb_neq in H1. auto.
Qed.

Lemma word_name_plain (n : string) : word_name n = true -> plain_name n = true.
Proof.
  intros H. apply word_name_inv in H as [Hne Hw]. unfold plain_name.
  apply String.eqb_neq in Hne. rewrite Hne.
  now rewrite !(mem_forallb Str.is_word _ _ Hw) by reflexivity.
Qed.

Lemma word_name_group (n : string) :
  word_name n = true -> group_ok (Plain n) = true /\ group_ok (Quoted n) = true.
Proof.
  intros H. apply word_name_inv in H as [_ Hw]. unfold group_ok.
  now rewrite !(mem_forallb Str.is_word _ _ Hw) by reflexivity.
Qed.

(** X22.  For names made of word characters, the dot notation [$.a.b], the
    bracket notation [$[a][b]] and the quoted notation [$['a']['b']]
    compile to the same steps, the names in order, whatever was compiled
    before. *)
Theorem notations_agree :
  forall (st1 st2 st3 : Compiler.subx) (ns : list string),
    ns <> [] ->
    forallb word_name ns = true ->
    fst (Compiler.compile_in st1 (dotted_expr (map Child ns))) = Ok ns /\
    fst (Compiler.compile_in st2 (expr_of (map Plain ns))) = Ok ns /\
    fst (Compiler.compile_in st3 (expr_of (map Quoted ns))) = Ok ns.
Proof.
  intros st1 st2 st3 ns Hne Hok. rewrite forallb_forall in Hok.
  split; [|split].
  - rewrite compile_in_dotted.
    + cbn [fst]. f_equal. clear. induction ns as [|n ns IH]; simpl; [reflexivity|now rewrite IH].
    + destruct ns; [congruence|discriminate].
    + apply forallb_forall. intros d Hd. apply in_map_iff in Hd as (n & <- & Hn).
      simpl. now apply word_name_plain, Hok.
  - rewrite compile_in_groups.
    + f_equal. rewrite map_map. apply map_id.
    + destruct ns; [congruence|discriminate].
    + apply forallb_forall. intros g Hg. apply in_map_iff in Hg as (n & <- & Hn).
      now apply word_name_group, Hok.
  - rewrite compile_in_groups.
    + f_equal. rewrite map_map. apply map_id.
    + destruct ns; [congruence|discriminate].
    + apply forallb_forall. intros g Hg. apply in_map_iff in Hg as (n & <- & Hn).
      now apply word_name_group, Hok.
Qed.

Lemma notations_agree_witness :
  Compiler.compile "$.store.book" = Ok ["store"; "book"] /\
  Compiler.compile "$[store][book]" = Ok ["store"; "book"] /\
  Compiler.compile "$['store']['book']" = Ok ["store"; "book"].
Proof.
  exact (@notations_agree Compiler.subx0 Compiler.subx0 Compiler.subx0 ["store"; "book"]
           ltac:(discriminate) eq_refl).
Defined.

(** ** A child by its name, an element by its index *)

Lemma parse_results py_eval (segments : list string) (doc : json) (mode : string)
      (rt : result_type) (r : list entry) :
  is_list doc || is_dict doc = true ->
  result_type_of mode = Some rt ->
  same_run (_trace py_eval rt segments doc "$") (mkOut r [] None 0) ->
  parse py_eval segments doc mode = Ok r.
Proof.
  intros Hd Hm (Hr & _ & Hx). unfold parse. rewrite Hd, Hm. cbn [negb].
  rewrite Hx. now rewrite Hr.
Qed.

Lemma trace_names py_eval rt (ks : list string) :
  Forall (fun k => Str.forallb Str.is_word k = true) ks ->
  forall obj path,
    same_run (_trace py_eval rt ks obj path)
             (mkOut (match walk ks obj with
                     | Some v => [entry_of rt v (fold_left path_key ks path)]
                     | None => []
                     end) [] None 0).
Proof.
  induction 1 as [|k ks Hk _ IH]; intros obj path.
  - cbn [_trace walk fold_left]. eapply same_run_trans; [apply same_run_enter|].
    destruct rt; repeat split.
  - cbn [_trace walk fold_left]. rewrite trace_body_word by exact Hk.
    eapply same_run_trans; [apply same_run_enter|].
    destruct obj; try apply same_run_refl.
    + destruct (Str.isdigit k); [|apply same_run_refl].
      destruct (nth_error l (Str.int k)); [apply IH|apply same_run_refl].
    + destruct (lookup k kvs); [apply IH|apply same_run_refl].
Qed.

(** X13.  The expression [$.k1.k2...] for names made of word characters, on a
    sequence or a mapping: the one result is the value reached by going
    down name by name, a name being a key of a mapping or, when it is
    made of digits, an index of a sequence, and its path is [$] followed
    by the names; when a name is missing on the way, a key that the
    mapping has not, an index at or past the end, a value that has no
    children, there is no result and nothing is raised. *)
Theorem path_of_names :
  forall py_eval (ks : list string) (doc : json) (mode : string) (rt : result_type),
    ks <> [] ->
    forallb word_name ks = true ->
    is_list doc || is_dict doc = true ->
    result_type_of mode = Some rt ->
    evaluate py_eval (dotted_expr (map Child ks)) doc mode
    = Ok (match walk ks doc with
          | Some v => [entry_of rt v (fold_left path_key ks "$")]
          | None => []
          end).
Proof.
  intros py_eval ks doc mode rt Hne Hk Hd Hm. unfold evaluate, Compiler.compile.
  rewrite forallb_forall in Hk.
  rewrite compile_in_dotted.
  - cbn [fst].
    replace (flat_map dotted_steps (map Child ks)) with ks
      by (clear; induction ks as [|n ns IH]; simpl; [reflexivity|now rewrite <- IH]).
    cbn [bind Ok]. eapply parse_results; [exact Hd|exact Hm|].
    apply trace_names. apply Forall_forall. intros k Hin.
    now apply word_name_inv, Hk.
  - destruct ks; [congruence|discriminate].
  - apply forallb_forall. intros d Hin. apply in_map_iff in Hin as (n & <- & Hn).
    simpl. now apply word_name_plain, Hk.
Qed.

Lemma path_of_names_witness :
  dotted_expr (map Child ["scores"; "1"]) = "$.scores.1" /\
  evaluate no_eval "$.scores.1" doc_bicycle "PATH" = Ok [EPath "$;scores;1"] /\
  evaluate no_eval "$.bicycle.price" doc_bicycle "VALUE" = Ok [].
Proof.
  split; [reflexivity|]. split.
  - apply (@path_of_names no_eval ["scores"; "1"] doc_bicycle "PATH" PATH);
      [discriminate|reflexivity|reflexivity|reflexivity].
  - apply (@path_of_names no_eval ["bicycle"; "price"] doc_bicycle "VALUE" VALUE);
      [discriminate|reflexivity|reflexivity|reflexivity].
Defined.

Lemma digits_are_words (s : string) :
  Str.forallb Str.is_digit s = true -> Str.forallb Str.is_word s = true.
Proof.
  induction s as [|c s IH]; simpl; [reflexivity|].
  intros [Hc Hs]%andb_true_iff. unfold Str.is_word at 1. rewrite Hc. simpl. auto.
Qed.

Lemma word_name_of_nat (n : nat) : word_name (Str.of_nat n) = true.
Proof.
  unfold word_name. rewrite (digits_are_words _ (of_nat_digits n)), andb_true_r.
  apply negb_true_iff, String.eqb_neq, of_nat_not_empty.
Qed.

(** X14.  The expression [$[n]] on a sequence: the element at the index [n]
    with the path [$;n] when the sequence has one, and otherwise, the
    index being at or past the end, no result; nothing is raised. *)
Theorem index_selects_element :
  forall py_eval (n : nat) (l : list json) (mode : string) (rt : result_type),
    result_type_of mode = Some rt ->
    evaluate py_eval ("$[" ++ Str.of_nat n ++ "]") (JList l) mode
    = Ok (match nth_error l n with
          | Some v => [entry_of rt v (path_idx "$" n)]
          | None => []
          end).
Proof.
  intros py_eval n l mode rt Hm. unfold evaluate, Compiler.compile.
  replace ("$[" ++ Str.of_nat n ++ "]")%string with (expr_of [Plain (Str.of_nat n)])
    by (unfold expr_of; simpl; now rewrite sappend_nil_r).
  rewrite compile_in_groups;
    [|discriminate|cbn [forallb]; now rewrite (proj1 (word_name_group _ (word_name_of_nat n)))].
  cbn [map group_text bind Ok].
  eapply parse_results; [reflexivity|exact Hm|].
  pose proof (@trace_word_match py_eval rt (Str.of_nat n) (JList l) "$"
                (digits_are_words _ (of_nat_digits n))) as H.
  unfold match_key in H. rewrite isdigit_of_nat, int_of_nat in H. exact H.
Qed.

Lemma index_selects_element_witness :
  evaluate no_eval "$[1]" doc_tens "PATH" = Ok [EPath "$;1"] /\
  evaluate no_eval "$[7]" doc_tens "VALUE" = Ok [].
Proof.
  split.
  - apply (@index_selects_element no_eval 1 [JNum 10; JNum 20; JNum 30; JNum 40] "PATH" PATH).
    reflexivity.
  - apply (@index_selects_element no_eval 7 [JNum 10; JNum 20; JNum 30; JNum 40] "VALUE" VALUE).
    reflexivity.
Defined.

(** ** The shared tables only grow *)

Lemma extends_refl {A} (l : list A) : extends l l.
Proof. exists []. now rewrite app_nil_r. Qed.

Lemma extends_trans {A} (a b c : list A) : extends a b -> extends b c -> extends a c.
Proof. intros [x ->] [y ->]. exists (x ++ y). now rewrite app_assoc. Qed.

Lemma pickup_extends (opn cls : ascii) (lead tag s : string) :
  forall skip tab, extends tab (snd (Compiler.pickup opn cls lead tag s skip tab)).
Proof.
  induction s as [|c s IH]; intros skip tab; [apply extends_refl|].
  cbn [Compiler.pickup]. destruct skip as [|k]; [|apply IH].
  destruct (Ascii.eqb c opn).
  - destruct (Compiler.find_close cls s) as [content|].
    + specialize (IH (S (String.length content)) (tab ++ [content])).
      destruct (Compiler.pickup opn cls lead tag s (S (String.length content))
                                (tab ++ [content])) as [out tab'].
      cbn [snd] in *. eapply extends_trans; [|exact IH]. now exists [content].
    + specialize (IH 0 tab).
      destruct (Compiler.pickup opn cls lead tag s 0 tab) as [out tab']. exact IH.
  - specialize (IH 0 tab).
    destruct (Compiler.pickup opn cls lead tag s 0 tab) as [out tab']. exact IH.
Qed.

Lemma compile_in_extends (st : Compiler.subx) (expr : string) :
  extends (Compiler.tabQ st) (Compiler.tabQ (snd (Compiler.compile_in st expr))) /\
  extends (Compiler.tabB st) (Compiler.tabB (snd (Compiler.compile_in st expr))).
Proof.
  unfold Compiler.compile_in, Compiler._parse_expr,
    Compiler.pickup_quote, Compiler.pickup_bracket.
  pose proof (pickup_extends "'"%char "'"%char "" "#Q" expr 0 (Compiler.tabQ st)) as Hq.
  destruct (Compiler.pickup "'"%char "'"%char "" "#Q" expr 0 (Compiler.tabQ st)) as [e1 q].
  pose proof (pickup_extends "["%char "]"%char "." "#B" e1 0 (Compiler.tabB st)) as Hb.
  destruct (Compiler.pickup "["%char "]"%char "." "#B" e1 0 (Compiler.tabB st)) as [e2 b].
  cbn [snd Compiler.tabQ Compiler.tabB] in *. auto.
Qed.

(** X23.  Every compilation leaves in the shared tables what it found there,
    in the same places, and appends to it; this holds whether the
    compilation returns or raises, and so over any number of
    compilations in a row: no entry is ever removed or changed. *)
Theorem subx_only_grows :
  forall (st : Compiler.subx) (exprs : list string),
    let st' := fold_left (fun s e => snd (Compiler.compile_in s e)) exprs st in
    extends (Compiler.tabQ st) (Compiler.tabQ st') /\
    extends (Compiler.tabB st) (Compiler.tabB st').
Proof.
  intros st exprs. revert st.
  induction exprs as [|e exprs IH]; intros st; cbn [fold_left].
  - split; apply extends_refl.
  - destruct (compile_in_extends st e) as [Hq Hb].
    destruct (IH (snd (Compiler.compile_in st e))) as [Hq' Hb'].
    split; eapply extends_trans; eauto.
Qed.

(** ** How a predicate is rewritten *)

Lemma rewrite_skip (a rest : string) :
  Filter.rewrite (a +++ rest) (String.length a) = Filter.rewrite rest 0.
Proof. induction a as [|c a IH]; [reflexivity|exact IH]. Qed.

Lemma startswith_word (p0 c : ascii) (p s : string) :
  Str.is_word c = true -> Str.is_word p0 = false ->
  Str.startswith (String p0 p) (String c s) = false.
Proof.
  intros Hc Hp. cbn [Str.startswith].
  destruct (Ascii.eqb_spec p0 c) as [->|]; [congruence|reflexivity].
Qed.

Lemma startswith_forallb (P : ascii -> bool) (p : string) :
  forall s, Str.startswith p s = true -> Str.forallb P s = true -> Str.forallb P p = true.
Proof.
  induction p as [|a p IH]; intros s; [reflexivity|].
  destruct s as [|c s]; [discriminate|]. cbn [Str.startswith Str.forallb].
  intros [Ha Hp]%andb_true_iff [Hc Hs]%andb_true_iff.
  apply Ascii.eqb_eq in Ha. subst c. rewrite Hc. now apply (IH s).
Qed.

Lemma at_operator_word (c : ascii) (s : string) :
  Str.is_word c = true -> Filter.at_operator (String c s) = false.
Proof.
  intros Hc. unfold Filter.at_operator.
  now rewrite !(@startswith_word _ c _ s Hc) by reflexivity.
Qed.

Lemma at_sign_operator (rest : string) :
  at_sign rest = true ->
  Filter.at_operator rest = true /\ Filter.at_operator (String " "%char rest) = false.
Proof.
  unfold at_sign, Filter.at_operator. intros H. split.
  - destruct (Str.startswith "<=" rest), (Str.startswith ">=" rest),
      (Str.startswith "==" rest), (Str.startswith "!=" rest),
      (Str.startswith ">" rest), (Str.startswith "<" rest); simpl in *; congruence.
  - destruct rest as [|r rest]; [discriminate|].
    cbn [Str.startswith] in *.
    replace (Ascii.eqb "<"%char " "%char) with false by reflexivity.
    replace (Ascii.eqb ">"%char " "%char) with false by reflexivity.
    replace (Ascii.eqb "="%char " "%char) with false by reflexivity.
    replace (Ascii.eqb "!"%char " "%char) with false by reflexivity.
    replace (Ascii.eqb " "%char " "%char) with true by reflexivity.
    cbn [andb orb].
    destruct (Ascii.eqb_spec "i"%char r) as [<-|]; [discriminate|].
    destruct (Ascii.eqb_spec "n"%char r) as [<-|]; [discriminate|].
    reflexivity.
Qed.

Lemma find_operator_word (w rest : string) (g : string) :
  Str.forallb Str.is_word w = true ->
  Filter.find_operator rest = Some g ->
  Filter.find_operator (w +++ rest) = Some (w +++ g).
Proof.
  intros Hw Hr. induction w as [|c w IH]; [exact Hr|].
  cbn [Str.forallb] in Hw. apply andb_true_iff in Hw as [Hc Hw].
  cbn [String.append Filter.find_operator].
  rewrite (at_operator_word _ _ Hc).
  assert (Hn : Ascii.eqb c Str.newline = false).
  { destruct (Ascii.eqb_spec c Str.newline) as [->|]; [discriminate|reflexivity]. }
  rewrite Hn, (IH Hw). reflexivity.
Qed.

Lemma find_operator_here (rest : string) :
  Filter.at_operator rest = true -> Filter.find_operator rest = Some EmptyString.
Proof. intros H. destruct rest; cbn [Filter.find_operator]; now rewrite H. Qed.

Lemma find_operator_space (rest : string) :
  at_sign rest = true -> Filter.find_operator (String " "%char rest) = Some " ".
Proof.
  intros H. destruct (at_sign_operator rest H) as [H1 H2].
  cbn [Filter.find_operator]. rewrite H2.
  replace (Ascii.eqb " "%char Str.newline) with false by reflexivity.
  now rewrite (find_operator_here rest H1).
Qed.

Lemma rewrite_name (g rest : string) :
  Filter.find_operator (g +++ rest) = Some g ->
  Filter.rewrite ("@." +++ g +++ rest) 0
  = (out <- Filter.rewrite rest 0 ;; Ok (Filter._f_brackets g +++ out)).
Proof.
  intros H.
  change ("@." +++ g +++ rest) with (String "@"%char (String "."%char (g +++ rest))).
  cbn [Filter.rewrite].
  replace (Str.startswith "@." (String "@"%char (String "."%char (g +++ rest)))) with true
    by reflexivity.
  replace (Str.drop 2 (String "@"%char (String "."%char (g +++ rest)))) with (g +++ rest)
    by reflexivity.
  rewrite H. now rewrite rewrite_skip.
Qed.

Lemma f_brackets_word (w : string) :
  Str.mem "."%char w = false -> Filter._f_brackets w = "__obj" +++ subscript w.
Proof. intros H. unfold Filter._f_brackets. now rewrite (split_no_sep _ _ H). Qed.

(** X10.  A reference [@.name] of a predicate runs up to the next operator of
    the lookahead, whatever stands before that operator.  For a name
    made of word characters followed at once by a comparison sign, the
    reference becomes the subscript of the name; with a space between
    the name and the sign, the space is taken into the key: [@.name <]
    becomes the subscript of [name ] with that space.  With no operator
    behind it on the line, the reference is left as it is. *)
Theorem filter_name_runs_to_operator :
  forall (w rest : string),
    Str.forallb Str.is_word w = true ->
    (at_sign rest = true ->
     Filter.rewrite ("@." ++ w ++ rest) 0
     = (out <- Filter.rewrite rest 0 ;; Ok ("__obj" ++ subscript w ++ out)%string) /\
     Filter.rewrite ("@." ++ w ++ " " ++ rest) 0
     = (out <- Filter.rewrite rest 0 ;; Ok ("__obj" ++ subscript (w ++ " ") ++ out)%string)) /\
    Filter.rewrite ("@." ++ w) 0 = Ok ("@." ++ w)%string.
Proof.
  intros w rest Hw.
  assert (Hd : Str.mem "."%char w = false) by (now apply (mem_forallb Str.is_word)).
  split.
  - intros Hs. destruct (at_sign_operator rest Hs) as [Hop _]. split.
    + rewrite rewrite_name.
      * rewrite (f_brackets_word _ Hd). destruct (Filter.rewrite rest 0); simpl; [reflexivity|].
        now rewrite sappend_assoc.
      * rewrite <- (sappend_nil_r w) at 2. apply find_operator_word; [exact Hw|].
        now apply find_operator_here.
    + replace (w ++ " " ++ rest)%string with ((w +++ " ") +++ rest)
        by (now rewrite sappend_assoc).
      rewrite rewrite_name.
      * rewrite f_brackets_word by (rewrite mem_app, Hd; reflexivity).
        destruct (Filter.rewrite rest 0); simpl; [reflexivity|].
        now rewrite sappend_assoc.
      * rewrite sappend_assoc. apply find_operator_word; [exact Hw|].
        now apply find_operator_space.
  - change ("@." ++ w)%string with (String "@"%char (String "."%char w)).
    assert (Hnone : forall s, Str.forallb Str.is_word s = true ->
                              Filter.find_operator s = None).
    { induction s as [|c s IH]; [reflexivity|].
      cbn [Str.forallb]. intros [Hc Hs]%andb_true_iff.
      cbn [Filter.find_operator]. rewrite (at_operator_word _ _ Hc).
      destruct (Ascii.eqb c Str.newline); [reflexivity|]. now rewrite (IH Hs). }
    assert (Hlit : forall s, Str.forallb Str.is_word s = true -> Filter.rewrite s 0 = Ok s).
    { induction s as [|c s IH]; [reflexivity|].
      cbn [Str.forallb]. intros [Hc Hs]%andb_true_iff.
      cbn [Filter.rewrite].
      rewrite (@startswith_word "@" c "." s Hc eq_refl).
      assert (Hl : Str.startswith "len(@." (String c s) = false).
      { destruct (Str.startswith "len(@." (String c s)) eqn:El; [|reflexivity].
        apply (startswith_forallb Str.is_word) in El; [discriminate|].
        cbn [Str.forallb]. now rewrite Hc, Hs. }
      rewrite Hl.
      now rewrite (IH Hs). }
    cbn [Filter.rewrite].
    replace (Str.startswith "@." (String "@"%char (String "."%char w))) with true
      by reflexivity.
    replace (Str.drop 2 (String "@"%char (String "."%char w))) with w by reflexivity.
    rewrite (Hnone w Hw).
    change (Filter.rewrite (String "."%char w) 0)
      with (out <- Filter.rewrite w 0 ;; Ok (String "."%char out)).
    now rewrite (Hlit w Hw).
Qed.

Lemma filter_name_runs_to_operator_witness :
  Filter.rewrite "@.price < 10" 0 = Ok ("__obj" ++ subscript "price " ++ "< 10")%string /\
  Filter.rewrite "@.price<10" 0 = Ok ("__obj" ++ subscript "price" ++ "<10")%string.
Proof.
  split.
  - exact (proj2 (proj1 (@filter_name_runs_to_operator "price" "< 10" eq_refl) eq_refl)).
  - exact (proj1 (proj1 (@filter_name_runs_to_operator "price" "<10" eq_refl) eq_refl)).
Defined.

Lemma rewrite_len (name rest : string) :
  Str.mem ")"%char name = false -> Str.mem Str.newline name = false ->
  Filter.rewrite ("len(@." +++ name +++ ")" +++ rest) 0 = Raise AttributeError.
Proof.
  intros Hc Hn.
  change ("len(@." +++ name +++ ")" +++ rest)
    with (String "l"%char ("en(@." +++ name +++ String ")"%char rest)).
  cbn [Filter.rewrite].
  replace (Str.startswith "@." (String "l"%char ("en(@." +++ name +++ String ")"%char rest)))
    with false by reflexivity.
  replace (Str.startswith "len(@."
             (String "l"%char ("en(@." +++ name +++ String ")"%char rest)))
    with true by reflexivity.
  replace (Str.drop 6 (String "l"%char ("en(@." +++ name +++ String ")"%char rest)))
    with (name +++ String ")"%char rest) by reflexivity.
  now rewrite find_close_app.
Qed.

(** X1.  A filter whose predicate begins with [len(@.name)]: the second
    alternative of [REP_FILTER_CONTENT] matches there with no first
    group, [_f_brackets] fails on it with [AttributeError], and since the
    step is rewritten in [_trace], outside the [try] of [_filter], the
    exception ends the evaluation before any child is looked at, on
    every value. *)
Theorem len_filter_raises :
  forall py_eval rt (name rest : string) (more : list string) obj path,
    Str.mem ")"%char name = false ->
    Str.mem Str.newline name = false ->
    match obj with
    | JDict kvs => lookup ("?(len(@." ++ name ++ ")" ++ rest ++ ")")%string kvs = None
    | _ => True
    end ->
    Filter.rewrite ("len(@." ++ name ++ ")" ++ rest) 0 = Raise AttributeError /\
    _trace py_eval rt (("?(len(@." ++ name ++ ")" ++ rest ++ ")")%string :: more) obj path
    = enter (raise AttributeError).
Proof.
  intros py_eval rt name rest more obj path Hc Hn Hkey.
  pose proof (rewrite_len name rest Hc Hn) as Hrw. split; [exact Hrw|].
  set (pred := "len(@." +++ name +++ ")" +++ rest) in *.
  replace ("?(len(@." ++ name ++ ")" ++ rest ++ ")")%string
    with (String "?" (String "(" (pred +++ ")"))) in *
    by (unfold pred; simpl; now rewrite !sappend_assoc).
  clearbody pred.
  cbn [_trace]. unfold trace_step.
  replace (String "?" (String "(" (pred +++ ")")) =? "..")%string with false by reflexivity.
  f_equal. unfold trace_body.
  replace (String "?" (String "(" (pred +++ ")")) =? "*")%string with false by reflexivity.
  assert (Hf : Syntax.is_filter (String "?" (String "(" (pred +++ ")"))) = true).
  { unfold Syntax.is_filter.
    change (String "?" (String "(" (pred +++ ")"))) with (("?(" +++ pred) +++ ")") at 2.
    now rewrite endswith_app. }
  assert (Hs : Str.strip 2 (String "?" (String "(" (pred +++ ")"))) = pred).
  { unfold Str.strip. simpl. apply drop_last_app1. }
  destruct obj as [| | | |l|kvs]; try (rewrite Hf, Hs, Hrw; reflexivity).
  - replace (Str.isdigit (String "?" (String "(" (pred +++ ")")))) with false by reflexivity.
    rewrite slice_match_mark, Hf, Hs, Hrw. reflexivity.
  - rewrite Hkey.
    replace (Syntax.select_match (String "?" (String "(" (pred +++ ")")))) with false
      by reflexivity.
    rewrite Hf, Hs, Hrw. reflexivity.
Qed.

Lemma len_filter_raises_witness :
  Compiler.compile "$[?(len(@.a) > 1)]" = Ok ["?(len(@.a) > 1)"] /\
  _trace no_eval VALUE ["?(len(@.a) > 1)"] (JList [JDict [("a", JList [JNum 1; JNum 2])]]) "$"
  = enter (raise AttributeError).
Proof.
  split; [reflexivity|].
  exact (proj2 (@len_filter_raises no_eval VALUE "a" " > 1" []
                  (JList [JDict [("a", JList [JNum 1; JNum 2])]]) "$" eq_refl eq_refl I)).
Defined.

(** ** Slices *)

Lemma pos_of_uint_acc (d : Decimal.uint) :
  forall p, Pos.to_nat (Pos.of_uint_acc d p) = Nat.of_uint_acc d (Pos.to_nat p).
Proof.
  induction d; intros p; cbn [Pos.of_uint_acc Nat.of_uint_acc]; [reflexivity|..];
    rewrite IHd; f_equal; rewrite Nat.tail_mul_spec;
    rewrite ?Pos2Nat.inj_add, Pos2Nat.inj_mul;
    change (Pos.to_nat 10) with 10; simpl Pos.to_nat; lia.
Qed.

Lemma pos_of_uint (d : Decimal.uint) : N.to_nat (Pos.of_uint d) = Nat.of_uint d.
Proof.
  unfold Nat.of_uint.
  induction d; cbn [Pos.of_uint Nat.of_uint_acc]; [reflexivity|exact IHd|..];
    cbn [N.to_nat]; rewrite pos_of_uint_acc; reflexivity.
Qed.

Lemma z_of_uint (d : Decimal.uint) : Z.of_uint d = Z.of_nat (Nat.of_uint d).
Proof. unfold Z.of_uint. now rewrite <- pos_of_uint, N_nat_Z. Qed.

Lemma nzhead_no_zero (d d' : Decimal.uint) : Decimal.nzhead d <> Decimal.D0 d'.
Proof. induction d; simpl; try discriminate; auto. Qed.

Lemma to_uint_zero (n : nat) (d : Decimal.uint) : Nat.to_uint n = Decimal.D0 d -> n = 0.
Proof.
  intros H. apply Unsigned.to_uint_inj.
  assert (Hn : Decimal.unorm (Nat.to_uint n) = Nat.to_uint n)
    by (now rewrite <- Unsigned.to_of, Unsigned.of_to).
  rewrite H in Hn. rewrite DecimalFacts.unorm_D0 in Hn.
  unfold Decimal.unorm in Hn.
  destruct (Decimal.nzhead d) eqn:E; try discriminate.
  - injection Hn as <-. rewrite H. reflexivity.
  - exfalso. injection Hn as Hn. subst. eapply nzhead_no_zero; eauto.
Qed.

Lemma literal_of_nat (n : nat) : Slice.literal (Str.of_nat n) = Ok (Z.of_nat n).
Proof.
  unfold Slice.literal, Str.of_nat. rewrite NilEmpty.usu.
  pose proof (of_nat_not_empty n) as Hne. apply String.eqb_neq in Hne.
  unfold Str.of_nat in Hne. rewrite Hne.
  rewrite z_of_uint, Unsigned.of_to.
  destruct (Str.startswith "0" (NilEmpty.string_of_uint (Nat.to_uint n))) eqn:E;
    [|reflexivity].
  assert (H0 : n = 0).
  { destruct (Nat.to_uint n) eqn:Ed; try discriminate. eapply to_uint_zero; eauto. }
  subst n. reflexivity.
Qed.

Lemma skipn_cons_nth {A} (l : list A) :
  forall i x, nth_error l i = Some x -> skipn i l = x :: skipn (S i) l.
Proof.
  induction l as [|y l IH]; intros [|i] x H; try discriminate.
  - injection H as ->. reflexivity.
  - simpl in H. now apply IH.
Qed.

Lemma pick_run {A} (l : list A) (n : nat) :
  forall lo, lo + n <= List.length l -> flat_map (pick l) (seq lo n) = firstn n (skipn lo l).
Proof.
  induction n as [|n IH]; intros lo H; [reflexivity|].
  cbn [seq flat_map]. unfold pick at 1.
  destruct (nth_error l lo) as [x|] eqn:E.
  - rewrite (skipn_cons_nth _ _ E). cbn [firstn app]. f_equal. apply IH. lia.
  - apply nth_error_None in E. lia.
Qed.

Lemma take_is_picks {A} (l : list A) start stop k :
  Slice.take l start stop k = flat_map (pick l) (Slice.indices (List.length l) start stop k).
Proof. reflexivity. Qed.

(** A slice of stride one: the elements from the lower bound up to the
    upper bound, both between nought and the length. *)
Lemma take_stride_one {A} (l : list A) (start stop : option Z) :
  let lo := fst (Slice.bounds (Z.of_nat (List.length l)) start stop 1) in
  let hi := snd (Slice.bounds (Z.of_nat (List.length l)) start stop 1) in
  (0 <= lo <= Z.of_nat (List.length l))%Z /\ (0 <= hi <= Z.of_nat (List.length l))%Z /\
  Slice.take l start stop 1 = firstn (Z.to_nat (hi - lo)) (skipn (Z.to_nat lo) l).
Proof.
  intros lo hi.
  assert (Hlo : (0 <= lo <= Z.of_nat (List.length l))%Z).
  { unfold lo, Slice.bounds. cbn [fst]. replace (1 <? 0)%Z with false by reflexivity.
    destruct start as [v|]; [|lia]. destruct (Z.ltb_spec v 0); lia. }
  assert (Hhi : (0 <= hi <= Z.of_nat (List.length l))%Z).
  { unfold hi, Slice.bounds. cbn [snd]. replace (1 <? 0)%Z with false by reflexivity.
    destruct stop as [v|]; [|lia]. destruct (Z.ltb_spec v 0); lia. }
  split; [exact Hlo|]. split; [exact Hhi|].
  rewrite take_is_picks. unfold Slice.indices.
  fold lo hi.
  replace (Slice.bounds (Z.of_nat (List.length l)) start stop 1) with (lo, hi)
    by (unfold lo, hi; now destruct (Slice.bounds _ _ _ _)).
  assert (Hc : Slice.count lo hi 1 = Z.to_nat (hi - lo)).
  { unfold Slice.count. replace (1 <? 0)%Z with false by reflexivity.
    destruct (lo <? hi)%Z eqn:E.
    - rewrite Z.div_1_r. f_equal. lia.
    - apply Z.ltb_ge in E. lia. }
  rewrite Hc.
  replace (map (fun j => Z.to_nat (lo + Z.of_nat j * 1)) (seq 0 (Z.to_nat (hi - lo))))
    with (seq (Z.to_nat lo) (Z.to_nat (hi - lo))).
  - destruct (Z.le_gt_cases hi lo) as [Hle|Hgt].
    + replace (Z.to_nat (hi - lo)) with 0 by lia. reflexivity.
    + apply pick_run. lia.
  - generalize (Z.to_nat (hi - lo)) as n. intros n.
    rewrite <- (Nat.add_0_r (Z.to_nat lo)) at 1.
    generalize 0 as i. induction n as [|n IH]; intros i; [reflexivity|].
    cbn [seq map]. f_equal; [lia|].
    rewrite <- IH. f_equal. lia.
Qed.

Lemma take_whole {A} (l : list A) : Slice.take l None None 1 = l.
Proof.
  destruct (take_stride_one l None None) as (_ & _ & H). rewrite H.
  cbn [Slice.bounds fst snd]. replace (1 <? 0)%Z with false by reflexivity.
  rewrite Z.sub_0_r, Nat2Z.id. simpl skipn. apply firstn_all.
Qed.

Lemma take_window {A} (l : list A) (a b : nat) :
  Slice.take l (Some (Z.of_nat a)) (Some (Z.of_nat b)) 1 = firstn (b - a) (skipn a l).
Proof.
  destruct (take_stride_one l (Some (Z.of_nat a)) (Some (Z.of_nat b))) as (_ & _ & H).
  rewrite H. cbn [Slice.bounds fst snd]. replace (1 <? 0)%Z with false by reflexivity.
  replace (Z.of_nat a <? 0)%Z with false by (symmetry; apply Z.ltb_ge; lia).
  replace (Z.of_nat b <? 0)%Z with false by (symmetry; apply Z.ltb_ge; lia).
  destruct (Nat.le_gt_cases (List.length l) a) as [Ha|Ha].
  - rewrite !skipn_all2 by lia. now rewrite !firstn_nil.
  - replace (Z.to_nat (Z.min (Z.of_nat a) (Z.of_nat (List.length l)))) with a by lia.
    destruct (Nat.le_gt_cases b (List.length l)) as [Hb|Hb].
    + f_equal. lia.
    + replace (Z.to_nat (Z.min (Z.of_nat b) (Z.of_nat (List.length l))
                         - Z.min (Z.of_nat a) (Z.of_nat (List.length l))))
        with (List.length l - a) by lia.
      rewrite !firstn_all2; [reflexivity| |]; rewrite length_skipn; lia.
Qed.

Lemma take_last {A} (l : list A) (k : nat) :
  0 < k -> Slice.take l (Some (- Z.of_nat k)%Z) None 1 = skipn (List.length l - k) l.
Proof.
  intros Hk.
  destruct (take_stride_one l (Some (- Z.of_nat k)%Z) None) as (_ & _ & H).
  rewrite H. cbn [Slice.bounds fst snd]. replace (1 <? 0)%Z with false by reflexivity.
  replace (- Z.of_nat k <? 0)%Z with true by (symmetry; apply Z.ltb_lt; lia).
  replace (Z.to_nat (Z.max (- Z.of_nat k + Z.of_nat (List.length l)) 0))
    with (List.length l - k) by lia.
  apply firstn_all2. rewrite length_skipn. lia.
Qed.

Lemma pick_app1 {A} (l : list A) (x : A) (i : nat) :
  i < List.length l -> pick (l ++ [x]) i = pick l i.
Proof. intros H. unfold pick. now rewrite nth_error_app1. Qed.

Lemma picks_backwards {A} (l : list A) :
  flat_map (pick l) (map (fun j => List.length l - 1 - j) (seq 0 (List.length l))) = rev l.
Proof.
  induction l as [|x l IH] using rev_ind; [reflexivity|].
  rewrite rev_app_distr, length_app, Nat.add_1_r. cbn [rev app seq map flat_map List.length].
  unfold pick at 1.
  replace (S (List.length l) - 1 - 0) with (List.length l) by lia.
  rewrite nth_error_app2, Nat.sub_diag by lia. cbn [nth_error app]. f_equal.
  rewrite <- IH, <- seq_shift, map_map.
  rewrite !flat_map_concat_map, !map_map. f_equal.
  apply map_ext_in. intros j Hj. apply in_seq in Hj.
  replace (S (List.length l) - 1 - S j) with (List.length l - 1 - j) by lia.
  apply pick_app1. lia.
Qed.

Lemma take_reversed {A} (l : list A) : Slice.take l None None (-1) = rev l.
Proof.
  rewrite take_is_picks, <- picks_backwards. f_equal.
  unfold Slice.indices, Slice.bounds. replace (-1 <? 0)%Z with true by reflexivity.
  assert (Hc : Slice.count (Z.of_nat (List.length l) - 1) (-1) (-1) = List.length l).
  { unfold Slice.count. replace (-1 <? 0)%Z with true by reflexivity.
    destruct (-1 <? Z.of_nat (List.length l) - 1)%Z eqn:E.
    - replace (- -1)%Z with 1%Z by reflexivity. rewrite Z.div_1_r. lia.
    - apply Z.ltb_ge in E. lia. }
  rewrite Hc. apply map_ext_in. intros j Hj. apply in_seq in Hj. lia.
Qed.

Lemma part_digit (c : ascii) (s : string) :
  Str.is_digit c = true ->
  Slice.part (String c s) = (z <- Slice.literal (String c s) ;; Ok (Some z)).
Proof.
  intros Hc. unfold Slice.part.
  destruct c as [[|] [|] [|] [|] [|] [|] [|] [|]]; try reflexivity. discriminate.
Qed.

Lemma part_of_nat (n : nat) : Slice.part (Str.of_nat n) = Ok (Some (Z.of_nat n)).
Proof.
  pose proof (literal_of_nat n) as Hl. pose proof (of_nat_digits n) as Hd.
  pose proof (of_nat_not_empty n) as Hne.
  destruct (Str.of_nat n) as [|c s]; [congruence|].
  cbn [Str.forallb] in Hd. apply andb_true_iff in Hd as [Hc _].
  rewrite (@part_digit c s Hc), Hl. reflexivity.
Qed.

Lemma slice_part_digits (s : string) :
  Str.forallb Str.is_digit s = true -> Syntax.slice_part s = true.
Proof.
  intros H. destruct s as [|c s]; [reflexivity|].
  unfold Syntax.slice_part.
  destruct c as [[|] [|] [|] [|] [|] [|] [|] [|]]; try exact H. discriminate.
Qed.

Lemma forallb_mem (P : ascii -> bool) (c : ascii) (s : string) :
  Str.mem c s = true -> P c = false -> Str.forallb P s = false.
Proof.
  intros Hm Hp. destruct (Str.forallb P s) eqn:E; [|reflexivity].
  rewrite (mem_forallb P c s E Hp) in Hm. discriminate.
Qed.

Lemma for_items_enumerate {A} (f : nat -> A -> Out) (l : list A) :
  forall i, for_items f (enumerate_from i l) = for_enum f i l.
Proof. induction l as [|x l IH]; intros i; simpl; [reflexivity|now rewrite IH]. Qed.

(** What [_trace] does with a step that holds a colon, on a sequence,
    once the slice is known. *)
Lemma trace_slice py_eval rt (step : string) (rest : list string) (l : list json)
      (path : string) (vals : list (nat * json)) :
  Str.mem ":"%char step = true ->
  Syntax.slice_match step = true ->
  Slice.eval step (enumerate l) = Ok vals ->
  _trace py_eval rt (step :: rest) (JList l) path
  = enter (for_items (fun idx v => _trace py_eval rt rest v (path_idx path idx)) vals).
Proof.
  intros Hc Hm He. cbn [_trace]. unfold trace_step, trace_body.
  rewrite (mem_neq _ _ ".." Hc eq_refl), (mem_neq _ _ "*" Hc eq_refl).
  assert (Hd : Str.isdigit step = false).
  { unfold Str.isdigit. rewrite (forallb_mem Str.is_digit _ _ Hc eq_refl).
    apply andb_false_r. }
  now rewrite Hd, Hm, He.
Qed.

(** X2.  The step [a:b] on a sequence, [a] and [b] written in decimal: the
    elements from the index [a] up to, and without, the index [b], in
    order and each with its own index in the sequence as the last
    segment of its path; bounds past the end are cut to the length, and
    nothing is raised. *)
Theorem slice_window :
  forall py_eval rt (a b : nat) (rest : list string) (l : list json) (path : string),
    _trace py_eval rt ((Str.of_nat a ++ ":" ++ Str.of_nat b)%string :: rest) (JList l) path
    = enter (for_items (fun idx v => _trace py_eval rt rest v (path_idx path idx))
                       (firstn (b - a) (skipn a (enumerate l)))).
Proof.
  intros py_eval rt a b rest l path.
  change (Str.of_nat a ++ ":" ++ Str.of_nat b)%string
    with (Str.of_nat a +++ String ":"%char (Str.of_nat b)).
  assert (Hs : Str.split ":"%char (Str.of_nat a +++ String ":"%char (Str.of_nat b))
               = [Str.of_nat a; Str.of_nat b]).
  { rewrite split_app_sep, !split_no_sep by (now apply digits_no_char). reflexivity. }
  apply trace_slice.
  - rewrite mem_app. simpl. now rewrite orb_true_r.
  - unfold Syntax.slice_match. rewrite Hs.
    now rewrite !slice_part_digits by apply of_nat_digits.
  - unfold Slice.eval. rewrite Hs, !part_of_nat. cbn [bind Ok].
    unfold Ok. f_equal. apply take_window.
Qed.

(** X4.  The step [-k:] on a sequence, for [k] above nought: the last [k]
    elements, or all of them when there are fewer, in order and each
    with its own index in the sequence. *)
Theorem slice_from_end :
  forall py_eval rt (k : nat) (rest : list string) (l : list json) (path : string),
    0 < k ->
    _trace py_eval rt (("-" ++ Str.of_nat k ++ ":")%string :: rest) (JList l) path
    = enter (for_items (fun idx v => _trace py_eval rt rest v (path_idx path idx))
                       (skipn (List.length l - k) (enumerate l))).
Proof.
  intros py_eval rt k rest l path Hk.
  change ("-" ++ Str.of_nat k ++ ":")%string
    with (String "-"%char (Str.of_nat k) +++ String ":"%char EmptyString).
  assert (Hs : Str.split ":"%char (String "-"%char (Str.of_nat k) +++ String ":"%char EmptyString)
               = [String "-"%char (Str.of_nat k); EmptyString]).
  { rewrite split_app_sep, split_no_sep; [reflexivity|].
    simpl. now apply digits_no_char. }
  apply trace_slice.
  - rewrite mem_app. simpl. now rewrite orb_true_r.
  - unfold Syntax.slice_match. rewrite Hs. simpl. now rewrite of_nat_digits.
  - unfold Slice.eval. rewrite Hs.
    change (Slice.part (String "-"%char (Str.of_nat k)))
      with (z <- Slice.literal (Str.of_nat k) ;; Ok (Some (- z)%Z)).
    rewrite literal_of_nat. cbn [bind Ok Slice.part].
    unfold Ok. f_equal. rewrite take_last by exact Hk.
    unfold enumerate. now rewrite length_enumerate_from.
Qed.

Lemma slice_from_end_witness :
  results (_trace no_eval PATH ["-2:"] doc_tens "$") = [EPath "$;2"; EPath "$;3"].
Proof.
  exact (f_equal results
           (@slice_from_end no_eval PATH 2 [] [JNum 10; JNum 20; JNum 30; JNum 40] "$"
              (Nat.lt_0_succ 1))).
Defined.

(** X5.  The step [:] on a sequence does what the wildcard does, and the
    step [::-1] visits the same elements from the last one to the first,
    each with its own index in the sequence. *)
Theorem slice_whole_and_reversed :
  forall py_eval rt (rest : list string) (l : list json) (path : string),
    _trace py_eval rt (":" :: rest) (JList l) path
    = _trace py_eval rt ("*" :: rest) (JList l) path /\
    _trace py_eval rt ("::-1" :: rest) (JList l) path
    = enter (for_items (fun idx v => _trace py_eval rt rest v (path_idx path idx))
                       (rev (enumerate l))).
Proof.
  intros py_eval rt rest l path. split.
  - rewrite (@trace_slice py_eval rt ":" rest l path (enumerate l));
      try reflexivity.
    + unfold enumerate. now rewrite for_items_enumerate.
    + unfold Slice.eval. simpl. unfold Ok. f_equal. apply take_whole.
  - apply trace_slice; try reflexivity.
    unfold Slice.eval. simpl. unfold Ok. f_equal. apply take_reversed.
Qed.

(** ** The dotted lookup *)

Lemma getattr_loop_app (ks1 ks2 : list string) :
  ks2 <> [] ->
  forall r,
    fst (Sorter.getattr_loop r (ks1 ++ ks2))
    = fst (Sorter.getattr_loop (fst (Sorter.getattr_loop r ks1)) ks2).
Proof.
  intros Hne. induction ks1 as [|k ks1 IH]; intros r; [reflexivity|].
  cbn [app Sorter.getattr_loop].
  destruct r; try (destruct ks2; [congruence|reflexivity]).
  apply IH.
Qed.

Lemma getattr_loop_logs (ks : list string) :
  forall r,
    snd (Sorter.getattr_loop r ks) = [] \/
    (snd (Sorter.getattr_loop r ks) = [AttributeError] /\
     fst (Sorter.getattr_loop r ks) = JNull).
Proof.
  induction ks as [|k ks IH]; intros r; [now left|].
  cbn [Sorter.getattr_loop]. destruct r; try (right; split; reflexivity).
  apply IH.
Qed.

(** X18.  [_getattr] never raises.  The value of a path [p.q] is the value of
    [q] looked up in the value of [p]; a name that a mapping has not
    gives [None] and the lookup goes on from there; and at most one
    error is logged, an [AttributeError], in which case the value is
    [None]. *)
Theorem getattr_dotted :
  forall (obj : json) (p q : string),
    fst (Sorter._getattr obj (p ++ "." ++ q))
    = fst (Sorter._getattr (fst (Sorter._getattr obj p)) q) /\
    (snd (Sorter._getattr obj p) = [] \/
     (snd (Sorter._getattr obj p) = [AttributeError] /\ fst (Sorter._getattr obj p) = JNull)) /\
    (forall kvs, Str.mem "."%char p = false ->
                 Sorter._getattr (JDict kvs) p
                 = (match lookup p kvs with Some v => v | None => JNull end, [])).
Proof.
  intros obj p q. unfold Sorter._getattr. split; [|split].
  - change (p ++ "." ++ q)%string with (p +++ String "."%char q).
    rewrite split_app_sep. apply getattr_loop_app, split_not_nil.
  - apply getattr_loop_logs.
  - intros kvs Hp. now rewrite (split_no_sep _ _ Hp).
Qed.

(** ** The mapping of the field extractor *)

Lemma lookup_dict_set (k k' : string) (v : json) (kvs : list (string * json)) :
  lookup k (dict_set k' v kvs) = if (k' =? k)%string then Some v else lookup k kvs.
Proof.
  induction kvs as [|[k0 v0] kvs IH]; cbn [dict_set lookup].
  - destruct (k' =? k)%string; reflexivity.
  - destruct (String.eqb_spec k0 k') as [->|Hn]; cbn [lookup].
    + destruct (k' =? k)%string; reflexivity.
    + rewrite IH. destruct (String.eqb_spec k0 k) as [->|]; [|reflexivity].
      apply String.eqb_neq in Hn. rewrite String.eqb_sym in Hn. now rewrite Hn.
Qed.

Lemma exists_dict_set (k k' : string) (v : json) (kvs : list (string * json)) :
  (k' =? k)%string = false ->
  existsb (fun kv => (fst kv =? k)%string) (dict_set k' v kvs)
  = existsb (fun kv => (fst kv =? k)%string) kvs.
Proof.
  intros Hn. induction kvs as [|[k0 v0] kvs IH]; cbn [dict_set existsb fst].
  - now rewrite Hn.
  - destruct (String.eqb_spec k0 k') as [->|]; cbn [existsb fst]; [reflexivity|].
    now rewrite IH.
Qed.

Lemma distinct_dict_set (k : string) (v : json) (kvs : list (string * json)) :
  distinct_keys kvs = true -> distinct_keys (dict_set k v kvs) = true.
Proof.
  induction kvs as [|[k0 v0] kvs IH]; cbn [dict_set distinct_keys]; [reflexivity|].
  intros [Hn Hd]%andb_true_iff.
  destruct (String.eqb_spec k0 k) as [->|Hne]; cbn [distinct_keys].
  - now rewrite Hn, Hd.
  - rewrite (IH Hd), andb_true_r. rewrite exists_dict_set; [exact Hn|].
    apply String.eqb_neq. congruence.
Qed.

Lemma extract_fold (kvs : list (string * json)) (keys : list string) :
  forall acc k,
    lookup k (fold_left
                (fun obj_ k' =>
                   dict_set k' (match lookup k' kvs with Some v => v | None => JNull end) obj_)
                keys acc)
    = if existsb (String.eqb k) keys
      then Some (match lookup k kvs with Some v => v | None => JNull end)
      else lookup k acc.
Proof.
  induction keys as [|k' keys IH]; intros acc k; cbn [fold_left existsb]; [reflexivity|].
  rewrite IH, lookup_dict_set, (String.eqb_sym k k').
  destruct (String.eqb_spec k' k) as [->|]; cbn [orb]; [|reflexivity].
  destruct (existsb (String.eqb k) keys); reflexivity.
Qed.

(** X19.  The mapping that the field extractor builds: it has exactly the
    listed names as keys, each once; under a name stands the value that
    the extracted mapping has under it, or [None] when it has none. *)
Theorem extract_lookup :
  forall (kvs : list (string * json)) (keys : list string) (k : string),
    lookup k (extract kvs keys)
    = (if existsb (String.eqb k) keys
       then Some (match lookup k kvs with Some v => v | None => JNull end)
       else None) /\
    distinct_keys (extract kvs keys) = true.
Proof.
  intros kvs keys k. unfold extract. split; [apply extract_fold|].
  assert (H : forall acc, distinct_keys acc = true ->
              distinct_keys
                (fold_left
                   (fun obj_ k' =>
                      dict_set k' (match lookup k' kvs with Some v => v | None => JNull end)
                               obj_) keys acc) = true).
  { induction keys as [|k' keys IH]; intros acc Ha; cbn [fold_left]; [exact Ha|].
    apply IH. now apply distinct_dict_set. }
  now apply H.
Qed.

(** ** How deep the evaluation goes *)

(** X20.  When no step has the form of a field extractor, the calls of
    [_trace] are nested no deeper than one plus the number of steps plus
    the depth of the value that the evaluation starts from. *)
Theorem evaluation_depth_bounded :
  forall py_eval rt (segments : list string) (obj : json) (path : string),
    Forall not_extractor segments ->
    depth (_trace py_eval rt segments obj path) <= S (List.length segments + height obj).
Proof. intros py_eval rt segments obj path H. now apply trace_depth_bound. Qed.

Lemma evaluation_depth_bounded_witness :
  depth (_trace no_eval VALUE [".."; "*"; "0"] doc_bicycle "$") <= 6.
Proof.
  apply (@evaluation_depth_bounded no_eval VALUE [".."; "*"; "0"] doc_bicycle "$").
  repeat constructor.
Defined.

(** ** A step on a value that is neither a sequence nor a mapping *)

(** X15.  On a value that is neither a sequence nor a mapping, a step [..]
    hands the value on to the next step and finds nothing below it, and
    every other step that is no sorter and no field extractor, and whose
    predicate, if it is a filter, can be rewritten, ends the branch: no
    result, no log entry, no exception. *)
Theorem leaf_ends_the_path :
  forall py_eval rt (step : string) (rest : list string) (obj : json) (path : string),
    is_list obj = false -> is_dict obj = false ->
    same_run (_trace py_eval rt (".." :: rest) obj path) (_trace py_eval rt rest obj path) /\
    ((step =? "..")%string = false ->
     Syntax.is_sorter step = false -> Syntax.is_extractor step = false ->
     (Syntax.is_filter step = true ->
      exists step', Filter.rewrite (Str.strip 2 step) 0 = Ok step') ->
     _trace py_eval rt (step :: rest) obj path = enter skip).
Proof.
  intros py_eval rt step rest obj path Hl Hd. split.
  - cbn [_trace]. unfold trace_step.
    replace (".." =? "..")%string with true by reflexivity.
    rewrite descend_unfold. eapply same_run_trans; [apply same_run_enter|].
    destruct obj; try discriminate; simpl _traverse; rewrite and_then_skip_r;
      apply same_run_refl.
  - intros Hdd Hso He Hf. cbn [_trace]. unfold trace_step, trace_body. rewrite Hdd.
    destruct (step =? "*")%string; [destruct obj; try discriminate; reflexivity|].
    destruct obj; try discriminate;
      (destruct (Syntax.is_filter step);
       [destruct (Hf eq_refl) as [s' ->]; reflexivity|now rewrite Hso, He]).
Qed.

Lemma leaf_ends_the_path_witness :
  _trace no_eval VALUE ["color"; "*"] (JStr "red") "$" = enter skip.
Proof.
  apply (proj2 (@leaf_ends_the_path no_eval VALUE "color" ["*"] (JStr "red") "$"
                  eq_refl eq_refl)); try reflexivity.
  discriminate.
Defined.

(** ** A placeholder written in an expression *)

Lemma putback_raise1 (tagc : ascii) (tab : list string) (c : ascii) (s : string) (e : exn) :
  Ascii.eqb c "#"%char = false -> Compiler.putback tagc tab s 0 = inl e ->
  Compiler.putback tagc tab (String c s) 0 = inl e.
Proof. intros H Hs. simpl. now rewrite H, Hs. Qed.

Lemma putback_other_tag (tagc t : ascii) (tab : list string) (s out : string) :
  Ascii.eqb t tagc = false ->
  Compiler.putback tagc tab (String t s) 0 = Ok out ->
  Compiler.putback tagc tab (String "#"%char (String t s)) 0 = Ok (String "#"%char out).
Proof.
  intros Ht Hs. cbn [Compiler.putback] in *.
  replace (Ascii.eqb "#"%char "#"%char) with true by reflexivity. cbv iota.
  rewrite Ht. cbn [andb].
  destruct (Ascii.eqb t "#"%char) eqn:E.
  - apply Ascii.eqb_eq in E. subst t. cbn [Compiler.putback] in Hs.
    now rewrite Hs.
  - now rewrite Hs.
Qed.

(** X24.  The expression [$.#Qn], [n] written in decimal, whatever was
    compiled before: when the shared table of quoted literals has an
    entry at the index [n], left there by any earlier compilation, the
    expression compiles to that literal, split at the separators;
    otherwise the compilation raises [IndexError].  The tables are left
    as they were. *)
Theorem placeholder_reads_table :
  forall (st : Compiler.subx) (n : nat),
    Compiler.compile_in st ("$.#Q" ++ Str.of_nat n)
    = (match nth_error (Compiler.tabQ st) n with
       | Some lit => Ok (Str.split Compiler.SEP lit)
       | None => Raise IndexError
       end, st).
Proof.
  intros st n. unfold Compiler.compile_in, Compiler._parse_expr,
                 Compiler.pickup_quote, Compiler.pickup_bracket.
  change ("$.#Q" ++ Str.of_nat n)%string
    with (String "$"%char (String "."%char (String "#"%char (String "Q"%char (Str.of_nat n))))).
  rewrite pickup_none by (simpl; now apply digits_no_char).
  rewrite pickup_none by (simpl; now apply digits_no_char).
  rewrite sub_doubledot_lit1 by reflexivity.
  rewrite sub_doubledot_dot1 by reflexivity.
  rewrite <- (sappend_nil_r (String "#"%char (String "Q"%char (Str.of_nat n)))).
  rewrite sub_doubledot_lits by (simpl; now apply digits_no_char).
  rewrite sappend_nil_r. cbn [Compiler.sub_doubledot].
  rewrite sub_dot_lit1 by reflexivity.
  rewrite sub_dot_sep by reflexivity.
  rewrite <- (sappend_nil_r (String "Q"%char (Str.of_nat n))).
  rewrite sub_dot_lits by (simpl; now apply digits_no_char).
  rewrite sappend_nil_r. cbn [Compiler.sub_dot].
  assert (Eb : Compiler.putback_bracket (Compiler.tabB st)
                 (String "$"%char (String ";"%char
                    (String "#"%char (String "Q"%char (Str.of_nat n)))))
               = Ok (String "$"%char (String ";"%char
                       (String "#"%char (String "Q"%char (Str.of_nat n)))))).
  { unfold Compiler.putback_bracket.
    apply putback_lit1; [reflexivity|]. apply putback_lit1; [reflexivity|].
    apply putback_other_tag; [reflexivity|].
    apply putback_none. simpl. now apply digits_no_char. }
  rewrite Eb. unfold Ok at 1. cbn [bind].
  unfold Compiler.putback_quote.
  destruct (nth_error (Compiler.tabQ st) n) as [lit|] eqn:En.
  - assert (Eq : Compiler.putback "Q"%char (Compiler.tabQ st)
                   (String "$"%char (String ";"%char
                      (String "#"%char (String "Q"%char (Str.of_nat n))))) 0
                 = Ok (String "$"%char (String ";"%char lit))).
    { apply putback_lit1; [reflexivity|]. apply putback_lit1; [reflexivity|].
      rewrite <- (sappend_nil_r (Str.of_nat n)), <- (sappend_nil_r lit).
      apply putback_match; try reflexivity.
      - apply of_nat_digits.
      - apply of_nat_not_empty.
      - now rewrite int_of_nat. }
    rewrite Eq. destruct st; reflexivity.
  - assert (Eq : Compiler.putback "Q"%char (Compiler.tabQ st)
                   (String "$"%char (String ";"%char
                      (String "#"%char (String "Q"%char (Str.of_nat n))))) 0
                 = inl IndexError).
    { apply putback_raise1; [reflexivity|]. apply putback_raise1; [reflexivity|].
      cbn [Compiler.putback].
      replace (Ascii.eqb "#"%char "#"%char) with true by reflexivity. cbv iota.
      replace (Ascii.eqb "Q"%char "Q"%char) with true by reflexivity.
      rewrite <- (sappend_nil_r (Str.of_nat n)).
      rewrite take_while_digits by (try apply of_nat_digits; reflexivity).
      pose proof (of_nat_not_empty n) as Hne. apply String.eqb_neq in Hne.
      rewrite Hne, int_of_nat, En. reflexivity. }
    rewrite Eq. destruct st; reflexivity.
Qed.

(** ** A space after the comma of a selection *)

Lemma select_match_spaced (k1 k2 : string) :
  sel_name k1 -> sel_name k2 ->
  Syntax.select_match (k1 +++ String ","%char (String " "%char k2)) = true.
Proof.
  intros [Hn1 H1] [Hn2 H2]. unfold Syntax.select_match.
  destruct k1 as [|c1 k1]; [congruence|]. destruct k2 as [|c2 k2]; [congruence|].
  cbn [Str.forallb] in H1, H2.
  apply andb_true_iff in H1 as [Hc1 H1]. apply andb_true_iff in H2 as [Hc2 H2].
  cbn [String.append Syntax.select_from]. rewrite Hc1. cbn [andb].
  rewrite select_from_run by auto.
  cbn [Syntax.select_from].
  replace (Syntax.is_sel_char ","%char) with false by reflexivity.
  replace (Syntax.is_sel_char " "%char) with false by reflexivity.
  cbn [Ascii.eqb andb]. rewrite Hc2.
  replace (Ascii.eqb ","%char ","%char) with true by reflexivity.
  replace (Ascii.eqb " "%char " "%char) with true by reflexivity.
  cbn [andb]. rewrite <- (sappend_nil_r k2). now rewrite select_from_run by auto.
Qed.

(** X25.  A last step [k1, k2] written with a space after the comma, on
    a mapping that has no key equal to the whole step:
    [REP_SELECT_CONTENT] accepts the step, and the step is split at the
    comma only, so the second name is looked up with the space before
    it.  The results are the entry under [k1], if the mapping has one,
    and the entry under the key made of a space and [k2], if the mapping
    has one; the entry under [k2] itself is not among the names. *)
Theorem select_keeps_the_space :
  forall py_eval rt (k1 k2 : string) kvs path,
    sel_name k1 -> sel_name k2 ->
    lookup (k1 ++ ", " ++ k2) kvs = None ->
    let o := _trace py_eval rt [(k1 ++ ", " ++ k2)%string] (JDict kvs) path in
    results o
    = match_key rt k1 (JDict kvs, path) ++ match_key rt (" " ++ k2) (JDict kvs, path) /\
    logs o = [] /\ raised o = None.
Proof.
  intros py_eval rt k1 k2 kvs path H1 H2 Hl o.
  assert (Hrun : same_run o
            (mkOut (flat_map (fun k => match_key rt k (JDict kvs, path))
                             [k1; String " "%char k2]) [] None 0)).
  { unfold o. change (k1 ++ ", " ++ k2)%string
      with (k1 +++ String ","%char (String " "%char k2)) in *.
    cbn [_trace]. unfold trace_step.
    assert (Hc : Str.mem ","%char (k1 +++ String ","%char (String " "%char k2)) = true).
    { rewrite mem_app. simpl. now rewrite orb_true_r. }
    rewrite (mem_neq _ _ ".." Hc eq_refl).
    eapply same_run_trans; [apply same_run_enter|].
    unfold trace_body. rewrite (mem_neq _ _ "*" Hc eq_refl), Hl.
    rewrite select_match_spaced by assumption.
    rewrite split_app_sep, (split_no_sep _ _ (sel_name_no_comma H1)).
    rewrite split_no_sep by (simpl; now apply sel_name_no_comma).
    apply for_each_results. intros k. unfold match_key.
    destruct (lookup k kvs); [|apply same_run_refl].
    cbn [_trace]. eapply same_run_trans; [apply same_run_enter|].
    destruct rt; repeat split. }
  destruct Hrun as (Hr & Hg & Hx). cbn [flat_map] in Hr. rewrite app_nil_r in Hr. auto.
Qed.

Lemma select_keeps_the_space_witness :
  results (_trace no_eval VALUE ["a, c"] (JDict [("a", JNum 1); ("c", JNum 3); (" c", JNum 4)]) "$")
  = [EValue (JNum 1); EValue (JNum 4)].
Proof.
  apply (@select_keeps_the_space no_eval VALUE "a" "c"
           [("a", JNum 1); ("c", JNum 3); (" c", JNum 4)] "$").
  - split; [discriminate|reflexivity].
  - split; [discriminate|reflexivity].
  - reflexivity.
Defined.

(** ** A key written as a quoted literal *)

(** X26.  The expression [$['k']] on a mapping that has the key [k],
    for a key without quote, newline and separator that is neither [*]
    nor [..], and whatever was compiled before: the one result is the
    entry under [k], with the path [$;k]; dots, brackets, spaces and
    signs in the key are taken as they stand. *)
Theorem quoted_key_lookup :
  forall py_eval (st : Compiler.subx) (k : string) kvs (v : json) (rt : result_type),
    group_ok (Quoted k) = true ->
    k <> "*" -> k <> ".." ->
    lookup k kvs = Some v ->
    fst (Compiler.compile_in st (expr_of [Quoted k])) = Ok [k] /\
    _trace py_eval rt [k] (JDict kvs) "$" = enter (enter (emit (entry_of rt v (path_key "$" k)))).
Proof.
  intros py_eval st k kvs v rt Hk Hs Hd Hl. split.
  - rewrite compile_in_groups; [reflexivity|discriminate|].
    cbn [forallb]. now rewrite Hk.
  - cbn [_trace]. unfold trace_step, trace_body.
    apply String.eqb_neq in Hs, Hd. rewrite Hs, Hd, Hl.
    destruct rt; reflexivity.
Qed.

Lemma quoted_key_lookup_witness :
  expr_of [Quoted "a.b c"] = "$['a.b c']" /\
  Compiler.compile "$['a.b c']" = Ok ["a.b c"] /\
  _trace no_eval PATH ["a.b c"] (JDict [("a.b c", JNum 1)]) "$"
  = enter (enter (emit (EPath "$;a.b c"))).
Proof.
  split; [reflexivity|].
  exact (@quoted_key_lookup no_eval Compiler.subx0 "a.b c" [("a.b c", JNum 1)] (JNum 1) PATH
           eq_refl ltac:(discriminate) ltac:(discriminate) eq_refl).
Defined.

(** ** The order of well-formed values *)


Lemma wf_list_inv (x : json) (l : list json) :
  wf_json (JList (x :: l)) = true -> wf_json x = true /\ wf_json (JList l) = true.
Proof. simpl. now intros [H1 H2]%andb_true_iff. Qed.

Lemma py_eq_cons (x y : json) (l l' : list json) :
  Sorter.py_eq (JList (x :: l)) (JList (y :: l'))
  = Sorter.py_eq x y && Sorter.py_eq (JList l) (JList l').
Proof. reflexivity. Qed.

Lemma py_lt_cons (x y : json) (l l' : list json) :
  Sorter.py_lt (JList (x :: l)) (JList (y :: l'))
  = if Sorter.py_eq x y then Sorter.py_lt (JList l) (JList l') else Sorter.py_lt x y.
Proof. reflexivity. Qed.

Lemma py_eq_trans (a : json) :
  forall b c, wf_json a = true -> wf_json b = true -> wf_json c = true ->
              Sorter.py_eq a b = true -> Sorter.py_eq b c = true -> Sorter.py_eq a c = true.
Proof.
  induction a as [|x|x|x|l IH|xs IH] using json_ind; intros b c Ha Hb Hc.
  - destruct b; try discriminate. auto.
  - destruct b as [|y|y| | |]; try discriminate; destruct c as [|z|z| | |]; try discriminate;
      simpl; rewrite !Z.eqb_eq; congruence.
  - destruct b as [|y|y| | |]; try discriminate; destruct c as [|z|z| | |]; try discriminate;
      simpl; rewrite !Z.eqb_eq; congruence.
  - destruct b; try discriminate; destruct c; try discriminate.
    simpl. rewrite !String.eqb_eq. congruence.
  - destruct b as [| | | |l'|]; try discriminate. destruct c as [| | | |l''|]; try discriminate.
    revert l' l'' Ha Hb Hc.
    induction IH as [|x l Hx _ IHl]; intros [|y l'] [|z l''] Ha Hb Hc;
      try (intros H1 H2; (discriminate H1 || discriminate H2)); auto.
    apply wf_list_inv in Ha as [Hax Hal]. apply wf_list_inv in Hb as [Hby Hbl].
    apply wf_list_inv in Hc as [Hcz Hcl].
    rewrite !py_eq_cons. intros [H1 H2]%andb_true_iff [H3 H4]%andb_true_iff.
    apply andb_true_iff. split; [apply (Hx y z); auto|apply (IHl l' l''); auto].
  - destruct b as [| | | | |ys]; try discriminate. destruct c as [| | | | |zs]; try discriminate.
    rewrite !py_eq_dict.
    intros [Hl1 Ha1]%andb_true_iff [Hl2 Ha2]%andb_true_iff.
    apply Nat.eqb_eq in Hl1, Hl2. rewrite forallb_forall in Ha1, Ha2.
    apply andb_true_iff. split; [apply Nat.eqb_eq; congruence|].
    apply forallb_forall. intros [k v] Hin. simpl.
    specialize (Ha1 _ Hin). simpl in Ha1.
    destruct (lookup k ys) as [w|] eqn:Ew; [|discriminate].
    pose proof (lookup_In _ _ Ew) as Hw. specialize (Ha2 _ Hw). simpl in Ha2.
    destruct (lookup k zs) as [u|] eqn:Eu; [|discriminate].
    rewrite Forall_forall in IH. apply (IH (k, v) Hin w u); auto.
    + eapply wf_dict_child; [exact Ha|exact Hin].
    + eapply wf_dict_child; [exact Hb|exact Hw].
    + eapply wf_dict_child; [exact Hc|]. eapply lookup_In; eauto.
Qed.

(** Equal values are equal to the same values. *)
Lemma py_eq_congr (a b c : json) :
  wf_json a = true -> wf_json b = true -> wf_json c = true ->
  Sorter.py_eq a b = true -> Sorter.py_eq a c = Sorter.py_eq b c.
Proof.
  intros Ha Hb Hc H.
  destruct (Sorter.py_eq a c) eqn:E1, (Sorter.py_eq b c) eqn:E2; auto.
  - rewrite (py_eq_sym a b Ha Hb) in H.
    rewrite (py_eq_trans b a c Hb Ha Hc H E1) in E2. discriminate.
  - rewrite (py_eq_trans a b c Ha Hb Hc H E2) in E1. discriminate.
Qed.

(** Equal values are ordered alike against any value, on the left. *)
Lemma py_lt_congr_l (a : json) :
  forall b c, wf_json a = true -> wf_json b = true -> wf_json c = true ->
              Sorter.py_eq a b = true -> Sorter.py_lt a c = Sorter.py_lt b c.
Proof.
  induction a as [|x|x|x|l IH|xs IH] using json_ind; intros b c Ha Hb Hc.
  - destruct b; try discriminate. reflexivity.
  - destruct b as [|y|y| | |]; try discriminate; simpl; rewrite Z.eqb_eq; intros E;
      destruct c; simpl; try reflexivity; now rewrite E.
  - destruct b as [|y|y| | |]; try discriminate; simpl; rewrite Z.eqb_eq; intros E;
      destruct c; simpl; try reflexivity; now rewrite E.
  - destruct b; try discriminate. simpl. rewrite String.eqb_eq. now intros ->.
  - destruct b as [| | | |l'|]; try discriminate.
    destruct c as [| | | |l''|]; try reflexivity.
    revert l' l'' Ha Hb Hc.
    induction IH as [|x l Hx _ IHl]; intros [|y l'] l'' Ha Hb Hc; try discriminate; auto.
    apply wf_list_inv in Ha as [Hax Hal]. apply wf_list_inv in Hb as [Hby Hbl].
    rewrite py_eq_cons. intros [H1 H2]%andb_true_iff.
    destruct l'' as [|z l'']; [reflexivity|].
    apply wf_list_inv in Hc as [Hcz Hcl].
    rewrite !py_lt_cons. rewrite (py_eq_congr x y z Hax Hby Hcz H1).
    destruct (Sorter.py_eq y z); [now apply IHl|now apply Hx].
  - destruct b; try discriminate. reflexivity.
Qed.

(** And on the right. *)
Lemma py_lt_congr_r (c : json) :
  forall a b, wf_json a = true -> wf_json b = true -> wf_json c = true ->
              Sorter.py_eq a b = true -> Sorter.py_lt c a = Sorter.py_lt c b.
Proof.
  induction c as [|x|x|x|l IH|xs IH] using json_ind; intros a b Ha Hb Hc.
  - destruct a, b; try discriminate; reflexivity.
  - destruct a as [|y|y| | |], b as [|z|z| | |]; try discriminate; try reflexivity;
      simpl; rewrite Z.eqb_eq; now intros ->.
  - destruct a as [|y|y| | |], b as [|z|z| | |]; try discriminate; try reflexivity;
      simpl; rewrite Z.eqb_eq; now intros ->.
  - destruct a, b; try discriminate; try reflexivity.
    simpl. rewrite String.eqb_eq. now intros ->.
  - destruct a as [| | | |l'|], b as [| | | |l''|]; try discriminate; try reflexivity.
    revert l' l'' Ha Hb Hc.
    induction IH as [|x l Hx _ IHl]; intros [|y l'] [|z l''] Ha Hb Hc; try discriminate; auto.
    apply wf_list_inv in Ha as [Hay Hal]. apply wf_list_inv in Hb as [Hbz Hbl].
    apply wf_list_inv in Hc as [Hcx Hcl].
    rewrite py_eq_cons. intros [H1 H2]%andb_true_iff.
    rewrite !py_lt_cons.
    assert (E : Sorter.py_eq x y = Sorter.py_eq x z).
    { rewrite (py_eq_sym x y Hcx Hay), (py_eq_sym x z Hcx Hbz).
      now apply py_eq_congr. }
    rewrite E. destruct (Sorter.py_eq x z); [now apply IHl|now apply Hx].
  - destruct a, b; try discriminate; reflexivity.
Qed.

Lemma ascii_compare_trans (a b c : ascii) :
  (a ?= b)%char = Lt -> (b ?= c)%char = Lt -> (a ?= c)%char = Lt.
Proof.
  unfold Ascii.compare. rewrite !N.compare_lt_iff. apply N.lt_trans.
Qed.

Lemma string_compare_trans (a : string) :
  forall b c, (a ?= b)%string = Lt -> (b ?= c)%string = Lt -> (a ?= c)%string = Lt.
Proof.
  induction a as [|x a IH]; intros [|y b] [|z c]; simpl; try discriminate; auto.
  destruct (x ?= y)%char eqn:Exy; try discriminate.
  - apply Ascii.compare_eq_iff in Exy. subst y.
    destruct (x ?= z)%char; try discriminate; auto. apply IH.
  - intros _. destruct (y ?= z)%char eqn:Eyz; try discriminate.
    + apply Ascii.compare_eq_iff in Eyz. subst z. now rewrite Exy.
    + now rewrite (ascii_compare_trans _ _ _ Exy Eyz).
Qed.

(** Below a value that is less than [z] stands no value that is not
    less than [z]. *)
Lemma py_lt_below (x : json) :
  forall z s, wf_json x = true -> wf_json z = true -> wf_json s = true ->
              Sorter.py_lt x z = Ok true -> Sorter.py_lt s z = Ok false ->
              Sorter.py_lt s x = Ok false.
Proof.
  induction x as [|x|x|x|l IH|xs IH] using json_ind; intros z s Hx Hz Hs.
  - destruct z; discriminate.
  - destruct z as [|z|z| | |]; try discriminate; destruct s as [|s|s| | |]; try discriminate;
      simpl; intros H1 H2; injection H1 as H1; injection H2 as H2;
      apply Z.ltb_lt in H1; apply Z.ltb_ge in H2; unfold Ok; f_equal; apply Z.ltb_ge; lia.
  - destruct z as [|z|z| | |]; try discriminate; destruct s as [|s|s| | |]; try discriminate;
      simpl; intros H1 H2; injection H1 as H1; injection H2 as H2;
      apply Z.ltb_lt in H1; apply Z.ltb_ge in H2; unfold Ok; f_equal; apply Z.ltb_ge; lia.
  - destruct z as [| | |z| |]; try discriminate. destruct s as [| | |s| |]; try discriminate.
    simpl. unfold String.ltb. intros H1 H2. unfold Ok. f_equal.
    destruct (s ?= x)%string eqn:E; try reflexivity.
    destruct (x ?= z)%string eqn:E1; try discriminate.
    rewrite (string_compare_trans _ _ _ E E1) in H2. discriminate.
  - destruct z as [| | | |l'|]; try discriminate. destruct s as [| | | |l''|]; try discriminate.
    revert l' l'' Hx Hz Hs.
    induction IH as [|x l Hx0 _ IHl]; intros [|z l'] [|s l''] Hx Hz Hs; try discriminate; auto.
    apply wf_list_inv in Hx as [Hwx Hwl]. apply wf_list_inv in Hz as [Hwz Hwl'].
    apply wf_list_inv in Hs as [Hws Hwl''].
    rewrite !py_lt_cons.
    destruct (Sorter.py_eq x z) eqn:E1, (Sorter.py_eq s z) eqn:E2; intros H1 H2.
    + assert (E : Sorter.py_eq s x = true).
      { apply (py_eq_trans s z x); auto. now rewrite (py_eq_sym z x). }
      rewrite E. now apply (IHl l' l'').
    + assert (E : Sorter.py_eq s x = false).
      { rewrite (py_eq_sym s x), (py_eq_congr x z s), (py_eq_sym z s); auto. }
      rewrite E. now rewrite (py_lt_congr_r s x z).
    + assert (E : Sorter.py_eq s x = false).
      { rewrite (py_eq_congr s z x), (py_eq_sym z x); auto. }
      rewrite E. apply py_lt_asym; auto.
      now rewrite (py_lt_congr_r x s z).
    + destruct (Sorter.py_eq s x) eqn:E.
      * rewrite (py_lt_congr_l s x z) in H2; auto. rewrite H1 in H2. discriminate H2.
      * now apply (Hx0 z s).
  - destruct z; discriminate.
Qed.

(** ** A pass keeps ties in order *)

Section SortTies.

Variable A : Type.
Variable C : Type.
Variable lt : A -> A -> res bool.
Variable cls : C -> A -> bool.
Variable good : A -> Prop.
Hypothesis lt_asym : forall a b, good a -> good b -> lt a b = Ok true -> lt b a = Ok false.
Hypothesis lt_below :
  forall x z s, good x -> good z -> good s ->
                lt x z = Ok true -> lt s z = Ok false -> lt s x = Ok false.
Hypothesis cls_lt :
  forall k a b c, good a -> good b -> good c ->
                  cls k a = true -> cls k b = true -> lt a c = lt b c.

Local Abbreviation le := (fun a b : A => lt b a = Ok false).

Lemma filter_none (p : A -> bool) (l : list A) :
  Forall (fun a => p a = false) l -> filter p l = [].
Proof. induction 1 as [|a l Ha _ IH]; simpl; [reflexivity|now rewrite Ha]. Qed.

Lemma insert_ties x acc :
  good x -> Forall good acc -> StronglySorted le acc ->
  forall r, Sorter.insert lt x acc = Ok r ->
            StronglySorted le r /\
            forall k, filter (cls k) r = filter (cls k) acc ++ filter (cls k) [x].
Proof.
  intros Hx. induction acc as [|y l IH]; intros Hg Hs r.
  - simpl. intros H; injection H as <-. split; [repeat constructor|reflexivity].
  - apply Forall_cons_iff in Hg as [Hy Hg]. apply StronglySorted_inv in Hs as [Hs Hyl].
    simpl Sorter.insert. destruct (lt x y) as [e|[|]] eqn:E; cbn [bind]; try discriminate.
    + intros H; injection H as <-.
      assert (Hxl : Forall (le x) (y :: l)).
      { constructor; [now apply lt_asym|].
        rewrite Forall_forall in Hyl, Hg |- *. intros z Hz.
        apply (lt_below (x := x) (z := y) (s := z)); auto. }
      split; [constructor; [now constructor|exact Hxl]|].
      intros k.
      change (filter (cls k) (x :: y :: l))
        with (if cls k x then x :: filter (cls k) (y :: l) else filter (cls k) (y :: l)).
      change (filter (cls k) [x]) with (if cls k x then [x] else []).
      destruct (cls k x) eqn:Ek.
      * rewrite (@filter_none (cls k) (y :: l)); [reflexivity|].
        rewrite Forall_forall in Hxl |- *. intros z Hz.
        destruct (cls k z) eqn:Ez; [exfalso|reflexivity].
        assert (Hgz : good z).
        { destruct Hz as [<-|Hz]; [exact Hy|]. rewrite Forall_forall in Hg. auto. }
        assert (Hzy : lt z y = Ok true).
        { rewrite (@cls_lt k z x y); auto. }
        destruct Hz as [<-|Hz].
        -- rewrite (lt_asym Hy Hy Hzy) in Hzy. discriminate.
        -- rewrite Forall_forall in Hyl. rewrite (Hyl z Hz) in Hzy. discriminate.
      * now rewrite app_nil_r.
    + destruct (Sorter.insert lt x l) as [e|r'] eqn:Ei; cbn [bind]; try discriminate.
      intros H; injection H as <-.
      destruct (IH Hg Hs r' eq_refl) as [Hs' Hf]. split.
      * constructor; [exact Hs'|].
        eapply Permutation_Forall; [eapply insert_perm; exact Ei|].
        constructor; [exact E|exact Hyl].
      * intros k. cbn [filter]. rewrite Hf. now destruct (cls k y).
Qed.

Lemma fold_insert_ties l :
  Forall good l ->
  forall acc r,
    Forall good acc -> StronglySorted le acc ->
    fold_left (fun acc x => bind acc (Sorter.insert lt x)) l (Ok acc) = Ok r ->
    StronglySorted le r /\
    forall k, filter (cls k) r = filter (cls k) acc ++ filter (cls k) l.
Proof.
  induction 1 as [|x l Hx Hl IH]; intros acc r Hg Hs; simpl.
  - intros H; injection H as <-. split; [exact Hs|]. intros k. now rewrite app_nil_r.
  - destruct (Sorter.insert lt x acc) as [e|acc'] eqn:E.
    + now rewrite fold_insert_raise.
    + intros H. destruct (insert_ties Hx Hg Hs E) as [Hs' Hf].
      destruct (IH acc' r) as [Hsr Hfr]; [|exact Hs'|exact H|].
      * eapply Permutation_Forall; [eapply insert_perm; exact E|now constructor].
      * split; [exact Hsr|]. intros k. rewrite Hfr, Hf. cbn [filter].
        rewrite <- app_assoc. now destruct (cls k x).
Qed.

Lemma list_sort_ties (reverse : bool) l r :
  Forall good l -> Sorter.list_sort lt reverse l = Ok r ->
  forall k, filter (cls k) r = filter (cls k) l.
Proof.
  intros Hg. unfold Sorter.list_sort, Sorter.stable_sort. destruct reverse.
  - destruct (fold_left _ (rev l) (Ok [])) as [e|r0] eqn:E; cbn [bind]; [discriminate|].
    intros H; injection H as <-. intros k.
    destruct (@fold_insert_ties (rev l) (Forall_rev Hg) [] r0 (Forall_nil _)
                                (SSorted_nil _) E) as [_ Hf].
    rewrite filter_rev, Hf. simpl. now rewrite filter_rev, rev_involutive.
  - intros H k.
    destruct (@fold_insert_ties l Hg [] r (Forall_nil _) (SSorted_nil _) H) as [_ Hf].
    exact (Hf k).
Qed.

End SortTies.

(** A pass that returns keeps the pairs of equal key in the order it
    found them. *)
Lemma sort_pass_ties {K} (sortby : string) (obj r : list (K * json)) :
  Forall (fun t => wf_json (snd t) = true) obj ->
  fst (Sorter.sort_pass sortby obj) = Ok r ->
  forall k, wf_json k = true -> filter (tied sortby k) r = filter (tied sortby k) obj.
Proof.
  intros Hwf. unfold Sorter.sort_pass. cbn [fst].
  set (g := fun t : K * json => (Sorter.sort_key sortby (snd t), t)).
  destruct (Sorter.list_sort Sorter.key_lt (Sorter.is_reverse sortby) (map g obj))
    as [e|r0] eqn:E; cbn [bind]; [discriminate|].
  intros H; injection H as <-. intros k Hk.
  assert (Hg : Forall (fun a : json * (K * json) => wf_json (fst a) = true) (map g obj)).
  { apply Forall_forall. intros a (t & <- & Ht)%in_map_iff. simpl.
    apply sort_key_wf. rewrite Forall_forall in Hwf. now apply Hwf. }
  pose proof (@list_sort_ties (json * (K * json)) {k : json | wf_json k = true}
                Sorter.key_lt
                (fun k a => Sorter.py_eq (fst a) (proj1_sig k))
                (fun a => wf_json (fst a) = true)) as Hties.
  specialize (Hties
    (fun a b Ha Hb => @py_lt_asym (fst a) (fst b) Ha Hb)
    (fun x z s Hx Hz Hs => @py_lt_below (fst x) (fst z) (fst s) Hx Hz Hs)).
  assert (Hcl : forall (k : {k : json | wf_json k = true}) (a b c : json * (K * json)),
             wf_json (fst a) = true -> wf_json (fst b) = true -> wf_json (fst c) = true ->
             Sorter.py_eq (fst a) (proj1_sig k) = true ->
             Sorter.py_eq (fst b) (proj1_sig k) = true ->
             Sorter.key_lt a c = Sorter.key_lt b c).
  { intros [k' Hk'] a b c Ha Hb Hc Eak Ebk. simpl in Eak, Ebk. unfold Sorter.key_lt.
    apply py_lt_congr_l; auto.
    apply (py_eq_trans (fst a) k' (fst b)); auto.
    now rewrite (py_eq_sym k' (fst b)). }
  specialize (Hties Hcl (Sorter.is_reverse sortby) (map g obj) r0 Hg E
                    (exist _ k Hk)).
  cbn [proj1_sig] in Hties.
  rewrite (@filter_map_snd _ _ snd (fun a : json * (K * json) => Sorter.py_eq (fst a) k)).
  - rewrite Hties. apply filter_map_keyed. intros t Ht. split; reflexivity.
  - intros a Ha.
    assert (Ha' : In a (map g obj)).
    { eapply Permutation_in; [apply Permutation_sym; eapply list_sort_perm; exact E|exact Ha]. }
    apply in_map_iff in Ha' as (t & <- & Ht). reflexivity.
Qed.

(** ** C3: literals through the compiler, in any expression *)

Lemma body_ok_with (text_ok : string -> bool) (b : body) :
  body_ok text_ok b = true -> body_with (fun t => text_ok t = true) b.
Proof.
  unfold body_ok, body_with. intros [H1 H2]%andb_true_iff. split; [exact H1|].
  apply Forall_forall. intros ct Hct. rewrite forallb_forall in H2.
  apply H2 in Hct. apply andb_true_iff in Hct as [[Ha Hb]%andb_true_iff Hc]. auto.
Qed.

Lemma body_with_impl (T T' : string -> Prop) (b : body) :
  (forall t, T t -> T' t) -> body_with T b -> body_with T' b.
Proof.
  intros HT [H1 H2]. split; [auto|]. eapply Forall_impl; [|exact H2].
  intros ct (Ha & Hb & Hc). auto.
Qed.

Lemma literal_ok_inv (c : string) :
  literal_ok c = true ->
  Str.mem "'"%char c = false /\ Str.mem Str.newline c = false
  /\ Str.mem Compiler.SEP c = false.
Proof.
  unfold literal_ok. intros [[H1 H2]%andb_true_iff H3]%andb_true_iff.
  now rewrite negb_true_iff in H1, H2, H3.
Qed.

Lemma dot_text_ok_inv (t : string) :
  dot_text_ok t = true ->
  Str.mem "'"%char t = false /\ Str.mem "["%char t = false /\ Str.mem "."%char t = false
  /\ Str.mem Compiler.SEP t = false
  /\ holds_tag "Q"%char t = false /\ holds_tag "B"%char t = false.
Proof.
  unfold dot_text_ok.
  intros [[[[[H1 H2]%andb_true_iff H3]%andb_true_iff H4]%andb_true_iff
            H5]%andb_true_iff H6]%andb_true_iff.
  now rewrite negb_true_iff in H1, H2, H3, H4, H5, H6.
Qed.

Lemma bracket_text_ok_inv (t : string) :
  bracket_text_ok t = true ->
  Str.mem "'"%char t = false /\ Str.mem "]"%char t = false
  /\ Str.mem Str.newline t = false /\ Str.mem Compiler.SEP t = false
  /\ holds_tag "Q"%char t = false.
Proof.
  unfold bracket_text_ok.
  intros [[[[H1 H2]%andb_true_iff H3]%andb_true_iff H4]%andb_true_iff H5]%andb_true_iff.
  now rewrite negb_true_iff in H1, H2, H3, H4, H5.
Qed.

(** *** Characters of the intermediate texts *)

Lemma mem_literals_mid (x : ascii) (l : list (string * string)) :
  Str.is_digit x = false -> Ascii.eqb "#"%char x = false -> Ascii.eqb "Q"%char x = false ->
  Forall (fun ct => Str.mem x (snd ct) = false) l ->
  forall q, Str.mem x (literals_mid q l) = false.
Proof.
  intros Hd Hh HQ. induction 1 as [|[c t] l Ht _ IH]; intros q; [reflexivity|].
  cbn [literals_mid]. simpl in Ht.
  change ("#Q" +++ Str.of_nat q +++ t +++ literals_mid (S q) l)
    with (String "#"%char (String "Q"%char (Str.of_nat q +++ t +++ literals_mid (S q) l))).
  cbn [Str.mem]. rewrite Hh, HQ, !mem_app, (digits_no_char _ q Hd), Ht, IH. reflexivity.
Qed.

Lemma mem_body_mid (x : ascii) (b : body) (q : nat) :
  Str.is_digit x = false -> Ascii.eqb "#"%char x = false -> Ascii.eqb "Q"%char x = false ->
  body_with (fun t => Str.mem x t = false) b ->
  Str.mem x (body_mid q b) = false.
Proof.
  intros Hd Hh HQ [H1 H2]. unfold body_mid. rewrite mem_app, H1.
  apply mem_literals_mid; auto. eapply Forall_impl; [|exact H2]. now intros ct (_ & H & _).
Qed.

Lemma mem_literals_text (x : ascii) (l : list (string * string)) :
  Forall (fun ct => Str.mem x (fst ct) = false /\ Str.mem x (snd ct) = false) l ->
  Str.mem x (literals_text l) = false.
Proof.
  induction 1 as [|[c t] l [Hc Ht] _ IH]; [reflexivity|].
  cbn [literals_text]. simpl in Hc, Ht. now rewrite !mem_app, Hc, Ht, IH.
Qed.

(** *** The first pass *)

Lemma literals_source_cons (c t : string) (l : list (string * string)) (rest : string) :
  literals_source ((c, t) :: l) +++ rest
  = String "'"%char (c +++ String "'"%char (t +++ literals_source l +++ rest)).
Proof.
  cbn [literals_source String.append]. rewrite sappend_assoc. cbn [String.append].
  now rewrite sappend_assoc.
Qed.

Lemma pickup_quote_literals (l : list (string * string)) :
  forall rest tab,
    Forall (fun ct => literal_ok (fst ct) = true /\ Str.mem "'"%char (snd ct) = false) l ->
    Compiler.pickup_quote (literals_source l +++ rest) tab
    = (literals_mid (List.length tab) l +++ fst (Compiler.pickup_quote rest (tab ++ map fst l)),
       snd (Compiler.pickup_quote rest (tab ++ map fst l))).
Proof.
  unfold Compiler.pickup_quote.
  induction l as [|[c t] l IH]; intros rest tab H.
  - cbn [literals_source literals_mid map String.append]. rewrite app_nil_r.
    now destruct (Compiler.pickup _ _ _ _ rest 0 tab).
  - apply Forall_cons_iff in H as [[Hc Ht] H]. simpl in Hc, Ht.
    apply literal_ok_inv in Hc as (Hq & Hn & _).
    rewrite literals_source_cons, pickup_match by assumption.
    rewrite pickup_lits by exact Ht. rewrite IH by exact H.
    cbn [fst snd literals_mid map]. rewrite length_app, Nat.add_1_r, <- app_assoc.
    cbn [app String.append]. now rewrite !sappend_assoc.
Qed.

Lemma pickup_quote_body (b : body) (rest : string) (tab : list string) :
  body_with (fun t => Str.mem "'"%char t = false) b ->
  Compiler.pickup_quote (body_source b +++ rest) tab
  = (body_mid (List.length tab) b
       +++ fst (Compiler.pickup_quote rest (tab ++ map fst (literals b))),
     snd (Compiler.pickup_quote rest (tab ++ map fst (literals b)))).
Proof.
  intros [H1 H2]. unfold body_source, body_mid. rewrite !sappend_assoc.
  unfold Compiler.pickup_quote. rewrite pickup_lits by exact H1.
  pose proof (@pickup_quote_literals (literals b) rest tab) as E.
  unfold Compiler.pickup_quote in E. rewrite E; [reflexivity|].
  eapply Forall_impl; [|exact H2]. intros ct (Ha & Hb & _). auto.
Qed.

Local Abbreviation written :=
  (render "." ".." (fun _ b => body_source b) (fun _ _ b => "[" +++ body_source b +++ "]")).
Local Abbreviation unquoted :=
  (render "." ".." body_mid (fun q _ b => "[" +++ body_mid q b +++ "]")).
Local Abbreviation unbracketed :=
  (render "." ".." body_mid (fun _ m _ => ".#B" +++ Str.of_nat m)).
Local Abbreviation descended :=
  (render "." ";..;" body_mid (fun _ m _ => ".#B" +++ Str.of_nat m)).
Local Abbreviation separated :=
  (render ";" ";..;" body_mid (fun _ m _ => ";#B" +++ Str.of_nat m)).
Local Abbreviation rebracketed :=
  (render ";" ";..;" body_mid (fun q _ b => ";" +++ body_mid q b)).
Local Abbreviation requoted :=
  (render ";" ";..;" (fun _ b => body_text b) (fun _ _ b => ";" +++ body_text b)).

Lemma item_ok_dot (d : bool) (b : body) :
  item_ok (ByDot d b) = true ->
  body_with (fun t => dot_text_ok t = true) b /\ body_source b <> EmptyString.
Proof.
  cbn [item_ok]. intros [H1 H2]%andb_true_iff. split; [now apply body_ok_with|].
  now apply negb_true_iff, String.eqb_neq in H2.
Qed.

Lemma item_ok_brackets (b : body) :
  item_ok (InBrackets b) = true -> body_with (fun t => bracket_text_ok t = true) b.
Proof. apply body_ok_with. Qed.

Lemma item_ok_quote (it : item) :
  item_ok it = true -> body_with (fun t => Str.mem "'"%char t = false) (item_body it).
Proof.
  destruct it as [d b|b]; intros H.
  - apply item_ok_dot in H as [H _]. eapply body_with_impl; [|exact H].
    intros t Ht. now apply dot_text_ok_inv in Ht.
  - apply item_ok_brackets in H. eapply body_with_impl; [|exact H].
    intros t Ht. now apply bracket_text_ok_inv in Ht.
Qed.

Lemma expression_written (its : list item) :
  forall q m, join_all (map item_source its) = written q m its.
Proof.
  induction its as [|[[|] b|b] its IH]; intros q m; cbn [map join_all fold_right render];
    [reflexivity| | |]; fold (join_all (map item_source its)).
  - rewrite (IH (q + List.length (literals b)) m). reflexivity.
  - rewrite (IH (q + List.length (literals b)) m). reflexivity.
  - rewrite (IH (q + List.length (literals b)) (S m)). cbn [item_source].
    now rewrite !sappend_assoc.
Qed.

Lemma pickup_quote_items (its : list item) :
  forall q0 m0 m tab,
    forallb item_ok its = true ->
    Compiler.pickup_quote (written q0 m0 its) tab
    = (unquoted (List.length tab) m its, tab ++ item_literals its).
Proof.
  induction its as [|[d b|b] its IH]; intros q0 m0 m tab Hok.
  - cbn. now rewrite app_nil_r.
  - cbn [forallb] in Hok. apply andb_true_iff in Hok as [Hit Hok].
    apply item_ok_quote in Hit. cbn [item_body] in Hit. cbn [render].
    unfold Compiler.pickup_quote.
    rewrite pickup_lits by (now destruct d).
    pose proof (@pickup_quote_body b (written (q0 + List.length (literals b)) m0 its)
                                   tab Hit) as E.
    unfold Compiler.pickup_quote in E. rewrite E. clear E.
    pose proof (IH (q0 + List.length (literals b)) m0 m (tab ++ map fst (literals b)) Hok)
      as E.
    unfold Compiler.pickup_quote in E. rewrite E. clear E.
    cbn [fst snd]. rewrite length_app, length_map. unfold item_literals.
    cbn [flat_map item_body]. now rewrite app_assoc.
  - cbn [forallb] in Hok. apply andb_true_iff in Hok as [Hit Hok].
    apply item_ok_quote in Hit. cbn [item_body] in Hit. cbn [render].
    rewrite !bracketed. unfold Compiler.pickup_quote.
    rewrite pickup_lit1 by reflexivity.
    pose proof (@pickup_quote_body b
                  (String "]"%char (written (q0 + List.length (literals b)) (S m0) its))
                  tab Hit) as E.
    unfold Compiler.pickup_quote in E. rewrite E. clear E.
    rewrite pickup_lit1 by reflexivity.
    pose proof (IH (q0 + List.length (literals b)) (S m0) (S m)
                   (tab ++ map fst (literals b)) Hok) as E.
    unfold Compiler.pickup_quote in E. rewrite E. clear E.
    cbn [fst snd]. rewrite length_app, length_map. unfold item_literals.
    cbn [flat_map item_body]. now rewrite app_assoc.
Qed.

(** *** The second pass *)

Lemma dot_body_mid (x : ascii) (b : body) (q : nat) :
  Str.is_digit x = false -> Ascii.eqb "#"%char x = false -> Ascii.eqb "Q"%char x = false ->
  (forall t, dot_text_ok t = true -> Str.mem x t = false) ->
  body_with (fun t => dot_text_ok t = true) b ->
  Str.mem x (body_mid q b) = false.
Proof.
  intros Hd Hh HQ Hx H. apply mem_body_mid; auto. eapply body_with_impl; [|exact H]. auto.
Qed.

Lemma bracket_body_mid (x : ascii) (b : body) (q : nat) :
  Str.is_digit x = false -> Ascii.eqb "#"%char x = false -> Ascii.eqb "Q"%char x = false ->
  (forall t, bracket_text_ok t = true -> Str.mem x t = false) ->
  body_with (fun t => bracket_text_ok t = true) b ->
  Str.mem x (body_mid q b) = false.
Proof.
  intros Hd Hh HQ Hx H. apply mem_body_mid; auto. eapply body_with_impl; [|exact H]. auto.
Qed.

Lemma pickup_bracket_items (its : list item) :
  forall q m0 tab,
    forallb item_ok its = true ->
    Compiler.pickup_bracket (unquoted q m0 its) tab
    = (unbracketed q (List.length tab) its, tab ++ bracket_mids q its).
Proof.
  unfold Compiler.pickup_bracket.
  induction its as [|[d b|b] its IH]; intros q m0 tab Hok.
  - cbn. now rewrite app_nil_r.
  - cbn [forallb] in Hok. apply andb_true_iff in Hok as [Hit Hok].
    apply item_ok_dot in Hit as [Hb _]. cbn [render bracket_mids].
    rewrite pickup_lits by (now destruct d).
    rewrite pickup_lits
      by (apply dot_body_mid; auto; intros t Ht; now apply dot_text_ok_inv in Ht).
    rewrite IH by exact Hok. reflexivity.
  - cbn [forallb] in Hok. apply andb_true_iff in Hok as [Hit Hok].
    apply item_ok_brackets in Hit. cbn [render bracket_mids].
    rewrite bracketed.
    rewrite pickup_match
      by (apply bracket_body_mid; auto; intros t Ht; now apply bracket_text_ok_inv in Ht).
    rewrite IH by exact Hok. cbn [fst snd].
    rewrite length_app, Nat.add_1_r, <- app_assoc. reflexivity.
Qed.

(** *** The dots *)

Lemma body_mid_not_empty (b : body) (q : nat) :
  body_source b <> EmptyString -> body_mid q b <> EmptyString.
Proof.
  unfold body_source, body_mid. destruct (opening b) as [|c s]; [|discriminate].
  destruct (literals b) as [|[c t] l]; simpl; [congruence|discriminate].
Qed.

Lemma dot_body_head (b : body) (q : nat) :
  body_with (fun t => dot_text_ok t = true) b -> body_source b <> EmptyString ->
  exists c n, body_mid q b = String c n /\ Ascii.eqb c "."%char = false
              /\ Str.mem "."%char n = false.
Proof.
  intros Hb Hne.
  assert (Hd : Str.mem "."%char (body_mid q b) = false).
  { apply dot_body_mid; auto. intros t Ht. now apply dot_text_ok_inv in Ht. }
  apply (body_mid_not_empty b q) in Hne.
  destruct (body_mid q b) as [|c n]; [congruence|].
  cbn [Str.mem] in Hd. apply orb_false_iff in Hd as [Hc Hn].
  exists c, n. split; [reflexivity|]. split; [|exact Hn].
  now rewrite Ascii.eqb_sym.
Qed.

Lemma sub_doubledot_items (its : list item) :
  forall q m,
    forallb item_ok its = true ->
    Compiler.sub_doubledot (unbracketed q m its) = descended q m its.
Proof.
  induction its as [|[d b|b] its IH]; intros q m Hok; [reflexivity| |];
    cbn [forallb] in Hok; apply andb_true_iff in Hok as [Hit Hok]; cbn [render].
  - apply item_ok_dot in Hit as [Hb Hne].
    destruct (dot_body_head q Hb Hne) as (c & n & -> & Hc & Hn).
    destruct d.
    + change (".." +++ String c n +++ unbracketed (q + List.length (literals b)) m its)
        with (String "."%char (String "."%char
                (String c (n +++ unbracketed (q + List.length (literals b)) m its)))).
      rewrite sub_doubledot_dot2, sub_doubledot_lit1 by exact Hc.
      rewrite sub_doubledot_lits by exact Hn. now rewrite IH.
    + change ("." +++ String c n +++ unbracketed (q + List.length (literals b)) m its)
        with (String "."%char
                (String c (n +++ unbracketed (q + List.length (literals b)) m its))).
      rewrite sub_doubledot_dot1, sub_doubledot_lit1 by exact Hc.
      rewrite sub_doubledot_lits by exact Hn. now rewrite IH.
  - rewrite placeholder_piece.
    rewrite sub_doubledot_dot1 by reflexivity.
    rewrite sub_doubledot_lit1 by reflexivity.
    rewrite sub_doubledot_lit1 by reflexivity.
    rewrite sub_doubledot_lits by (now apply digits_no_char).
    now rewrite IH.
Qed.

Lemma sub_dot_items (its : list item) :
  forall q m,
    forallb item_ok its = true ->
    Compiler.sub_dot false (descended q m its) = separated q m its.
Proof.
  induction its as [|[d b|b] its IH]; intros q m Hok; [reflexivity| |];
    cbn [forallb] in Hok; apply andb_true_iff in Hok as [Hit Hok]; cbn [render].
  - apply item_ok_dot in Hit as [Hb Hne].
    destruct (dot_body_head q Hb Hne) as (c & n & -> & Hc & Hn).
    destruct d.
    + rewrite sub_dot_descent.
      change (String c n +++ descended (q + List.length (literals b)) m its)
        with (String c (n +++ descended (q + List.length (literals b)) m its)).
      rewrite sub_dot_lit1 by exact Hc.
      rewrite sub_dot_lits by exact Hn. now rewrite IH.
    + change ("." +++ String c n +++ descended (q + List.length (literals b)) m its)
        with (String "."%char
                (String c (n +++ descended (q + List.length (literals b)) m its))).
      rewrite sub_dot_sep by exact Hc.
      rewrite sub_dot_lits by exact Hn. now rewrite IH.
  - rewrite placeholder_piece, split_piece.
    rewrite sub_dot_sep by reflexivity.
    rewrite sub_dot_lit1 by reflexivity.
    rewrite sub_dot_lits by (now apply digits_no_char).
    now rewrite IH.
Qed.

(** *** Putting back *)

Lemma quiet_inv (s : string) :
  quiet s = true ->
  s = EmptyString \/ exists c r, s = String c r /\ (c = "#"%char \/ c = ";"%char).
Proof.
  destruct s as [|c r]; [now left|]. cbn [quiet]. intros H. right. exists c, r.
  split; [reflexivity|]. apply orb_true_iff in H as [H|H]; apply Ascii.eqb_eq in H; auto.
Qed.

Lemma quiet_no_digit (s : string) : quiet s = true -> no_digit_ahead s = true.
Proof.
  intros H. apply quiet_inv in H as [->|(c & r & -> & [->| ->])]; reflexivity.
Qed.

Lemma no_digit_ahead_app (t r : string) :
  no_digit_ahead t = true -> quiet r = true -> no_digit_ahead (t +++ r) = true.
Proof. destruct t; [intros _; apply quiet_no_digit|auto]. Qed.

Lemma quiet_literals_mid (l : list (string * string)) (q : nat) (rest : string) :
  quiet rest = true -> quiet (literals_mid q l +++ rest) = true.
Proof. destruct l as [|[c t] l]; [auto|reflexivity]. Qed.

Section PutbackText.

Variable tagc : ascii.
Variable tab : list string.
Hypothesis tag_hash : Ascii.eqb "#"%char tagc = false.
Hypothesis tag_sep : Ascii.eqb ";"%char tagc = false.

Local Abbreviation put := (Compiler.putback tagc tab).

Lemma putback_plain (c : ascii) (s out : string) :
  put s 0 = Ok out -> starts_tag tagc (String c s) = false ->
  put (String c s) 0 = Ok (String c out).
Proof.
  intros Hs H. cbn [Compiler.putback]. rewrite Hs. cbn [bind].
  destruct (Ascii.eqb c "#"%char) eqn:E; [|reflexivity].
  destruct s as [|t s2]; [reflexivity|].
  destruct (Ascii.eqb t tagc) eqn:Et; [|reflexivity].
  destruct s2 as [|d s3]; [reflexivity|].
  cbn [starts_tag] in H. rewrite E, Et in H. cbn [andb] in H.
  cbn [Str.take_while]. rewrite H. reflexivity.
Qed.

Lemma starts_tag_app (t rest : string) :
  t <> EmptyString -> starts_tag tagc t = false -> quiet rest = true ->
  starts_tag tagc (t +++ rest) = false.
Proof.
  intros Hne Ht Hq. destruct t as [|c [|x [|d t3]]]; [congruence| | |exact Ht].
  - apply quiet_inv in Hq as [->|(y & r & -> & [->| ->])]; [reflexivity| |];
      cbn [String.append starts_tag]; destruct r; try reflexivity;
      rewrite ?tag_hash, ?tag_sep; now rewrite andb_false_r.
  - apply quiet_inv in Hq as [->|(y & r & -> & [->| ->])]; [reflexivity| |];
      cbn [String.append starts_tag]; now rewrite andb_false_r.
Qed.

Lemma putback_text (t : string) :
  forall rest out,
    holds_tag tagc t = false -> quiet rest = true -> put rest 0 = Ok out ->
    put (t +++ rest) 0 = Ok (t +++ out).
Proof.
  induction t as [|c t IH]; intros rest out Ht Hq Hr; [exact Hr|].
  cbn [holds_tag] in Ht. apply orb_false_iff in Ht as [Hs Ht].
  cbn [String.append]. apply putback_plain; [now apply IH|].
  change (String c (t +++ rest)) with (String c t +++ rest).
  apply starts_tag_app; [discriminate|exact Hs|exact Hq].
Qed.

End PutbackText.

Lemma literals_mid_cons (q : nat) (c t : string) (l : list (string * string)) (rest : string) :
  literals_mid q ((c, t) :: l) +++ rest
  = String "#"%char (String "Q"%char (Str.of_nat q +++ t +++ literals_mid (S q) l +++ rest)).
Proof. cbn [literals_mid String.append]. now rewrite !sappend_assoc. Qed.

(** A literal's placeholder is no placeholder of a bracket group. *)
Lemma putback_bracket_literals (tab : list string) (l : list (string * string)) :
  forall q rest out,
    Forall (fun ct => holds_tag "B"%char (snd ct) = false) l ->
    quiet rest = true -> Compiler.putback "B"%char tab rest 0 = Ok out ->
    Compiler.putback "B"%char tab (literals_mid q l +++ rest) 0
    = Ok (literals_mid q l +++ out).
Proof.
  induction l as [|[c t] l IH]; intros q rest out H Hq Hr; [exact Hr|].
  apply Forall_cons_iff in H as [Ht H]. simpl in Ht.
  rewrite !literals_mid_cons.
  apply putback_other_tag; [reflexivity|].
  apply putback_lit1; [reflexivity|].
  apply putback_lits; [now apply digits_no_char|].
  apply putback_text; try reflexivity; auto.
  now apply quiet_literals_mid.
Qed.

Lemma putback_bracket_body (tab : list string) (b : body) (q : nat) (rest out : string) :
  body_with (fun t => holds_tag "B"%char t = false) b ->
  quiet rest = true -> Compiler.putback "B"%char tab rest 0 = Ok out ->
  Compiler.putback "B"%char tab (body_mid q b +++ rest) 0 = Ok (body_mid q b +++ out).
Proof.
  intros [H1 H2] Hq Hr. unfold body_mid. rewrite !sappend_assoc.
  apply putback_text; try reflexivity; auto.
  - now apply quiet_literals_mid.
  - apply putback_bracket_literals; auto.
    eapply Forall_impl; [|exact H2]. now intros ct (_ & H & _).
Qed.

Lemma literals_text_cons (c t : string) (l : list (string * string)) (rest : string) :
  literals_text ((c, t) :: l) +++ rest = c +++ t +++ literals_text l +++ rest.
Proof. cbn [literals_text]. now rewrite !sappend_assoc. Qed.

(** Every placeholder of a literal gives way to the literal. *)
Lemma putback_quote_literals (tab : list string) (l : list (string * string)) :
  forall q rest out,
    Forall (fun ct => holds_tag "Q"%char (snd ct) = false
                      /\ no_digit_ahead (snd ct) = true) l ->
    (forall i c, nth_error (map fst l) i = Some c -> nth_error tab (q + i) = Some c) ->
    quiet rest = true -> Compiler.putback "Q"%char tab rest 0 = Ok out ->
    Compiler.putback "Q"%char tab (literals_mid q l +++ rest) 0
    = Ok (literals_text l +++ out).
Proof.
  induction l as [|[c t] l IH]; intros q rest out H Htab Hq Hr; [exact Hr|].
  apply Forall_cons_iff in H as [[Ht Hd] H]. simpl in Ht, Hd.
  rewrite literals_mid_cons, literals_text_cons.
  apply putback_match.
  - apply of_nat_digits.
  - apply of_nat_not_empty.
  - apply no_digit_ahead_app; [exact Hd|now apply quiet_literals_mid].
  - rewrite int_of_nat. specialize (Htab 0 c eq_refl). now rewrite Nat.add_0_r in Htab.
  - apply putback_text; try reflexivity; auto.
    + now apply quiet_literals_mid.
    + apply IH; auto. intros i c' Hc'. specialize (Htab (S i) c' Hc').
      now rewrite Nat.add_succ_r in Htab.
Qed.

Lemma putback_quote_body (tab : list string) (b : body) (q : nat) (rest out : string) :
  body_with (fun t => holds_tag "Q"%char t = false) b ->
  (forall i c, nth_error (map fst (literals b)) i = Some c ->
               nth_error tab (q + i) = Some c) ->
  quiet rest = true -> Compiler.putback "Q"%char tab rest 0 = Ok out ->
  Compiler.putback "Q"%char tab (body_mid q b +++ rest) 0 = Ok (body_text b +++ out).
Proof.
  intros [H1 H2] Htab Hq Hr. unfold body_mid, body_text. rewrite !sappend_assoc.
  apply putback_text; try reflexivity; auto.
  - now apply quiet_literals_mid.
  - apply putback_quote_literals; auto.
    eapply Forall_impl; [|exact H2]. now intros ct (_ & H & H').
Qed.

Lemma quiet_separated (its : list item) (q m : nat) : quiet (separated q m its) = true.
Proof. destruct its as [|[[|] b|b] its]; reflexivity. Qed.

Lemma quiet_rebracketed (its : list item) (q m : nat) : quiet (rebracketed q m its) = true.
Proof. destruct its as [|[[|] b|b] its]; reflexivity. Qed.

(** The fifth pass. *)
Lemma putback_bracket_items (tab : list string) (its : list item) :
  forall q m,
    forallb item_ok its = true ->
    (forall i p, nth_error (bracket_mids q its) i = Some p -> nth_error tab (m + i) = Some p) ->
    Compiler.putback "B"%char tab (separated q m its) 0 = Ok (rebracketed q m its).
Proof.
  induction its as [|[d b|b] its IH]; intros q m Hok Htab; [reflexivity| |];
    cbn [forallb] in Hok; apply andb_true_iff in Hok as [Hit Hok]; cbn [render].
  - apply item_ok_dot in Hit as [Hb _]. cbn [bracket_mids] in Htab.
    apply putback_lits; [now destruct d|].
    apply putback_bracket_body.
    + eapply body_with_impl; [|exact Hb]. intros t Ht. now apply dot_text_ok_inv in Ht.
    + apply quiet_separated.
    + now apply IH.
  - cbn [bracket_mids] in Htab. rewrite split_piece.
    change ((";" +++ body_mid q b) +++ rebracketed (q + List.length (literals b)) (S m) its)
      with (String ";"%char
              (body_mid q b +++ rebracketed (q + List.length (literals b)) (S m) its)).
    apply putback_lit1; [reflexivity|].
    apply putback_match.
    + apply of_nat_digits.
    + apply of_nat_not_empty.
    + apply quiet_no_digit, quiet_separated.
    + rewrite int_of_nat. specialize (Htab 0 _ eq_refl). now rewrite Nat.add_0_r in Htab.
    + apply IH; [exact Hok|]. intros i p Hp. specialize (Htab (S i) p Hp).
      now rewrite Nat.add_succ_r in Htab.
Qed.

Lemma literals_at (tab : list string) (b : body) (rest : list string) (q : nat) :
  (forall i c, nth_error (map fst (literals b) ++ rest) i = Some c ->
               nth_error tab (q + i) = Some c) ->
  (forall i c, nth_error (map fst (literals b)) i = Some c ->
               nth_error tab (q + i) = Some c) /\
  (forall i c, nth_error rest i = Some c ->
               nth_error tab (q + List.length (literals b) + i) = Some c).
Proof.
  intros H. split; intros i c Hc.
  - apply H. rewrite nth_error_app1; [exact Hc|].
    apply nth_error_Some. congruence.
  - rewrite <- Nat.add_assoc. apply H.
    rewrite nth_error_app2; rewrite length_map; [|lia].
    now replace (List.length (literals b) + i - List.length (literals b)) with i by lia.
Qed.

(** The sixth pass. *)
Lemma putback_quote_items (tab : list string) (its : list item) :
  forall q m,
    forallb item_ok its = true ->
    (forall i c, nth_error (item_literals its) i = Some c -> nth_error tab (q + i) = Some c) ->
    Compiler.putback "Q"%char tab (rebracketed q m its) 0 = Ok (requoted q m its).
Proof.
  induction its as [|[d b|b] its IH]; intros q m Hok Htab; [reflexivity| |];
    cbn [forallb] in Hok; apply andb_true_iff in Hok as [Hit Hok]; cbn [render];
    unfold item_literals in Htab; cbn [flat_map item_body] in Htab;
    apply literals_at in Htab as [Hb Hrest].
  - apply item_ok_dot in Hit as [Hw _].
    apply putback_lits; [now destruct d|].
    apply putback_quote_body; auto.
    + eapply body_with_impl; [|exact Hw]. intros t Ht. now apply dot_text_ok_inv in Ht.
    + apply quiet_rebracketed.
  - apply item_ok_brackets in Hit.
    change ((";" +++ body_mid q b) +++ rebracketed (q + List.length (literals b)) (S m) its)
      with (String ";"%char
              (body_mid q b +++ rebracketed (q + List.length (literals b)) (S m) its)).
    change ((";" +++ body_text b) +++ requoted (q + List.length (literals b)) (S m) its)
      with (String ";"%char
              (body_text b +++ requoted (q + List.length (literals b)) (S m) its)).
    apply putback_lit1; [reflexivity|].
    apply putback_quote_body; auto.
    + eapply body_with_impl; [|exact Hit]. intros t Ht. now apply bracket_text_ok_inv in Ht.
    + apply quiet_rebracketed.
Qed.

(** *** The whole compilation *)

Lemma requoted_steps (its : list item) :
  forall q m,
    requoted q m its = join_all (map (fun c => ";" +++ c) (flat_map item_steps its)).
Proof.
  induction its as [|[[|] b|b] its IH]; intros q m; [reflexivity| | |];
    cbn [render flat_map item_steps app map]; rewrite IH; unfold join_all;
    cbn [fold_right String.append]; now rewrite ?sappend_assoc.
Qed.

Lemma body_text_free (b : body) :
  body_with (fun t => Str.mem Compiler.SEP t = false) b ->
  Str.mem Compiler.SEP (body_text b) = false.
Proof.
  intros [H1 H2]. unfold body_text. rewrite mem_app, H1. apply mem_literals_text.
  eapply Forall_impl; [|exact H2]. intros ct (Hc & Ht & _).
  apply literal_ok_inv in Hc. tauto.
Qed.

Lemma item_steps_free (its : list item) :
  forallb item_ok its = true ->
  Forall (fun c => Str.mem Compiler.SEP c = false) (flat_map item_steps its).
Proof.
  induction its as [|[d b|b] its IH]; cbn [forallb flat_map]; intros H; [constructor| |];
    apply andb_true_iff in H as [Hit H]; apply Forall_app; split; auto.
  - apply item_ok_dot in Hit as [Hb _].
    assert (Hf : Str.mem Compiler.SEP (body_text b) = false).
    { apply body_text_free. eapply body_with_impl; [|exact Hb].
      intros t Ht. now apply dot_text_ok_inv in Ht. }
    destruct d; cbn [item_steps]; repeat constructor; auto.
  - apply item_ok_brackets in Hit. cbn [item_steps]. repeat constructor.
    apply body_text_free. eapply body_with_impl; [|exact Hit].
    intros t Ht. now apply bracket_text_ok_inv in Ht.
Qed.

Lemma nth_error_after {A} (tab l : list A) (i : nat) (x : A) :
  nth_error l i = Some x -> nth_error (tab ++ l) (List.length tab + i) = Some x.
Proof.
  intros H. rewrite nth_error_app2 by lia.
  now replace (List.length tab + i - List.length tab) with i by lia.
Qed.

Lemma parse_expr_items (st : Compiler.subx) (its : list item) :
  forallb item_ok its = true ->
  Compiler._parse_expr st (expression its)
  = (Ok (let e := String "$"%char
                         (join_all (map (fun c => ";" +++ c) (flat_map item_steps its))) in
         if Str.startswith "$;" e then Str.drop 2 e else e),
     Compiler.mkSubx (Compiler.tabQ st ++ item_literals its)
                     (Compiler.tabB st
                        ++ bracket_mids (List.length (Compiler.tabQ st)) its)).
Proof.
  intros Hok. unfold Compiler._parse_expr, expression.
  set (q0 := List.length (Compiler.tabQ st)).
  set (m0 := List.length (Compiler.tabB st)).
  rewrite (expression_written its 0 0).
  assert (E1 : Compiler.pickup_quote (String "$"%char (written 0 0 its)) (Compiler.tabQ st)
               = (String "$"%char (unquoted q0 0 its), Compiler.tabQ st ++ item_literals its)).
  { pose proof (pickup_quote_items its 0 0 0 (Compiler.tabQ st) Hok) as E.
    unfold Compiler.pickup_quote in *. rewrite pickup_lit1 by reflexivity.
    now rewrite E. }
  rewrite E1.
  assert (E2 : Compiler.pickup_bracket (String "$"%char (unquoted q0 0 its)) (Compiler.tabB st)
               = (String "$"%char (unbracketed q0 m0 its),
                  Compiler.tabB st ++ bracket_mids q0 its)).
  { pose proof (pickup_bracket_items its q0 0 (Compiler.tabB st) Hok) as E.
    unfold Compiler.pickup_bracket in *. rewrite pickup_lit1 by reflexivity.
    now rewrite E. }
  rewrite E2.
  rewrite sub_doubledot_lit1 by reflexivity. rewrite sub_doubledot_items by exact Hok.
  rewrite sub_dot_lit1 by reflexivity. rewrite sub_dot_items by exact Hok.
  assert (E5 : Compiler.putback_bracket (Compiler.tabB st ++ bracket_mids q0 its)
                 (String "$"%char (separated q0 m0 its))
               = Ok (String "$"%char (rebracketed q0 m0 its))).
  { unfold Compiler.putback_bracket. apply putback_lit1; [reflexivity|].
    apply putback_bracket_items; [exact Hok|]. intros i p. apply nth_error_after. }
  rewrite E5. unfold Ok at 1. cbn [bind].
  assert (E6 : Compiler.putback_quote (Compiler.tabQ st ++ item_literals its)
                 (String "$"%char (rebracketed q0 m0 its))
               = Ok (String "$"%char (requoted q0 m0 its))).
  { unfold Compiler.putback_quote. apply putback_lit1; [reflexivity|].
    apply putback_quote_items; [exact Hok|]. intros i c. apply nth_error_after. }
  rewrite E6. unfold Ok at 1. cbn [bind].
  now rewrite requoted_steps.
Qed.

Lemma item_steps_not_nil (its : list item) : its <> [] -> flat_map item_steps its <> [].
Proof. destruct its as [|[[|] b|b] its]; [congruence| | |]; discriminate. Qed.

Lemma compile_in_items (st : Compiler.subx) (its : list item) :
  its <> [] -> forallb item_ok its = true ->
  Compiler.compile_in st (expression its)
  = (Ok (flat_map item_steps its),
     Compiler.mkSubx (Compiler.tabQ st ++ item_literals its)
                     (Compiler.tabB st
                        ++ bracket_mids (List.length (Compiler.tabQ st)) its)).
Proof.
  intros Hne Hok. unfold Compiler.compile_in.
  rewrite parse_expr_items by exact Hok. f_equal.
  apply steps_split; [now apply item_steps_not_nil|now apply item_steps_free].
Qed.

(** C3 (amended).  An expression is [$] followed by one or more steps,
    each written [.b], [..b] or [[b]], where [b] is plain text in which
    single-quoted literals may stand.  When no literal holds a quote, a
    newline or the step separator, no plain text holds a quote, the step
    separator, what ends the step (a dot or an opening bracket in dot
    notation; a closing bracket or a newline between brackets) or
    something that reads as a placeholder ([#Q] and a digit; in dot
    notation also [#B] and a digit), no digit follows a literal and no
    step in dot notation is empty, then, whatever was compiled before in
    the process, the compiled steps are the steps as they are written,
    every literal verbatim without its quotes, the dots and brackets in
    it included, with [..] before a step written [..b]; and the literals
    are recorded in the shared table in the order they are written. *)
Theorem escaping_round_trip :
  forall (st : Compiler.subx) (its : list item),
    its <> [] ->
    forallb item_ok its = true ->
    fst (Compiler.compile_in st (expression its)) = Ok (flat_map item_steps its) /\
    Compiler.tabQ (snd (Compiler.compile_in st (expression its)))
    = Compiler.tabQ st ++ item_literals its.
Proof.
  intros st its Hne Hok. rewrite compile_in_items by assumption. split; reflexivity.
Qed.

(** ** The sorter step *)

Lemma sorter_step_shape (keys : string) :
  sorter_step keys = String "/" (String "(" (keys +++ ")")) /\
  Syntax.is_sorter (sorter_step keys) = true /\
  Str.strip 2 (sorter_step keys) = keys.
Proof.
  split; [reflexivity|]. split.
  - unfold Syntax.is_sorter, sorter_step.
    change ("/(" ++ keys ++ ")")%string with (("/(" +++ keys) +++ ")") at 2.
    now rewrite endswith_app.
  - unfold Str.strip, sorter_step. simpl. apply drop_last_app1.
Qed.

Lemma trace_sorter_list py_eval rt (keys : string) (rest : list string)
      (l : list json) (path : string) :
  _trace py_eval rt (sorter_step keys :: rest) (JList l) path
  = enter (sorted_then (fun idx v => _trace py_eval rt rest v (path_idx path idx))
                       (enumerate l) keys).
Proof.
  destruct (sorter_step_shape keys) as (E & Hso & Hs).
  cbn [_trace]. unfold trace_step, trace_body. rewrite Hso, Hs. rewrite E.
  replace (String "/" (String "(" (keys +++ ")")) =? "..")%string with false by reflexivity.
  replace (String "/" (String "(" (keys +++ ")")) =? "*")%string with false by reflexivity.
  replace (Syntax.is_filter (String "/" (String "(" (keys +++ ")")))) with false
    by reflexivity.
  replace (Str.isdigit (String "/" (String "(" (keys +++ ")")))) with false by reflexivity.
  now rewrite slice_match_slash.
Qed.

Lemma trace_sorter_dict py_eval rt (keys : string) (rest : list string)
      (kvs : list (string * json)) (path : string) :
  lookup (sorter_step keys) kvs = None ->
  _trace py_eval rt (sorter_step keys :: rest) (JDict kvs) path
  = enter (sorted_then (fun k v => _trace py_eval rt rest v (path_key path k)) kvs keys).
Proof.
  intros Hk. destruct (sorter_step_shape keys) as (E & Hso & Hs).
  cbn [_trace]. unfold trace_step, trace_body. rewrite Hk, Hso, Hs. rewrite E.
  replace (String "/" (String "(" (keys +++ ")")) =? "..")%string with false by reflexivity.
  replace (String "/" (String "(" (keys +++ ")")) =? "*")%string with false by reflexivity.
  replace (Syntax.is_filter (String "/" (String "(" (keys +++ ")")))) with false
    by reflexivity.
  replace (Syntax.select_match (String "/" (String "(" (keys +++ ")")))) with false
    by reflexivity.
  reflexivity.
Qed.

Lemma sorted_then_sorted {K} (visit : K -> json -> Out) (pairs sorted : list (K * json))
      (keys : string) (lg : list exn) :
  Sorter._sorter pairs keys = (Ok sorted, lg) ->
  sorted_then visit pairs keys = log_errors lg >> for_items visit sorted.
Proof. intros H. unfold sorted_then. now rewrite H. Qed.

Lemma sorted_then_raised {K} (visit : K -> json -> Out) (pairs : list (K * json))
      (keys : string) (e : exn) :
  fst (Sorter._sorter pairs keys) = inl e ->
  raised (sorted_then visit pairs keys) = Some e /\ results (sorted_then visit pairs keys) = [].
Proof.
  intros H. unfold sorted_then. destruct (Sorter._sorter pairs keys) as [r lg].
  cbn [fst] in H. subst r. split; reflexivity.
Qed.

(** The children that a sorter hands on, one entry each, in the order
    of the list. *)
Lemma sorted_entries {K} (pk : K -> string) py_eval rt (path : string)
      (sorted : list (K * json)) (lg : list exn) :
  let o := log_errors lg
           >> for_items (fun k v => _trace py_eval rt [] v (path_key path (pk k))) sorted in
  raised o = None /\
  results o = map (fun t => entry_of rt (snd t) (path_key path (pk (fst t)))) sorted.
Proof.
  destruct (for_items_entries pk py_eval rt path sorted) as (Hr & _ & Hx).
  cbn [results raised] in Hr, Hx. cbn zeta. split.
  - rewrite raised_and_then. exact Hx.
  - unfold and_then. cbn [raised log_errors results app]. exact Hr.
Qed.

(** Plain names lead the evaluation to the value they name. *)
Lemma trace_names_then py_eval rt (ks rest : list string) :
  Forall (fun k => Str.forallb Str.is_word k = true) ks ->
  forall obj path,
    same_run (_trace py_eval rt (ks ++ rest) obj path)
             (match walk ks obj with
              | Some v => _trace py_eval rt rest v (fold_left path_key ks path)
              | None => skip
              end).
Proof.
  induction 1 as [|k ks Hk _ IH]; intros obj path.
  - apply same_run_refl.
  - cbn [app _trace walk fold_left]. rewrite trace_body_word by exact Hk.
    eapply same_run_trans; [apply same_run_enter|].
    destruct obj; try apply same_run_refl.
    + destruct (Str.isdigit k); [|apply same_run_refl].
      destruct (nth_error l (Str.int k)); [apply IH|apply same_run_refl].
    + destruct (lookup k kvs); [apply IH|apply same_run_refl].
Qed.

Lemma parse_same_run py_eval (segments : list string) (doc : json) (mode : string)
      (rt : result_type) (o : Out) :
  is_list doc || is_dict doc = true ->
  result_type_of mode = Some rt ->
  same_run (_trace py_eval rt segments doc "$") o ->
  parse py_eval segments doc mode
  = match raised o with Some e => Raise e | None => Ok (results o) end.
Proof.
  intros Hd Hm (Hr & _ & Hx). unfold parse. rewrite Hd, Hm. cbn [negb].
  now rewrite Hx, Hr.
Qed.

Lemma holds_tag_no_hash (tagc : ascii) (t : string) :
  Str.mem "#"%char t = false -> holds_tag tagc t = false.
Proof.
  induction t as [|c t IH]; [reflexivity|]. cbn [Str.mem holds_tag].
  intros [Hc Ht]%orb_false_iff. rewrite (IH Ht), orb_false_r.
  unfold starts_tag. destruct t as [|x [|d t]]; try reflexivity.
  now rewrite Hc.
Qed.

Lemma by_name_ok (k : string) : word_name k = true -> item_ok (by_name k) = true.
Proof.
  intros H. apply word_name_inv in H as [Hne Hw]. unfold by_name, item_ok, body_ok.
  cbn [opening literals forallb]. unfold body_source. cbn [opening literals literals_source].
  rewrite sappend_nil_r. apply String.eqb_neq in Hne. rewrite Hne.
  unfold dot_text_ok.
  rewrite !(mem_forallb Str.is_word _ _ Hw) by reflexivity.
  rewrite !holds_tag_no_hash by (now apply (mem_forallb Str.is_word)).
  reflexivity.
Qed.

Lemma by_name_steps (ks : list string) (its : list item) :
  flat_map item_steps (map by_name ks ++ its) = ks ++ flat_map item_steps its.
Proof.
  induction ks as [|k ks IH]; [reflexivity|].
  cbn [map app flat_map]. rewrite IH. unfold by_name at 1. cbn [item_steps].
  unfold body_text. cbn [opening literals literals_text]. now rewrite sappend_nil_r.
Qed.

(** The expression of a sorter compiles to the names, the sorter step
    and the steps after it. *)
Lemma compile_sorter_expr (ks : list string) (keys : string) (more : list item) :
  forallb word_name ks = true ->
  bracket_text_ok (sorter_step keys) = true ->
  forallb item_ok more = true ->
  Compiler.compile (sorter_expr ks keys more)
  = Ok (ks ++ sorter_step keys :: flat_map item_steps more).
Proof.
  intros Hks Hkeys Hmore. unfold Compiler.compile, sorter_expr.
  rewrite compile_in_items.
  - cbn [fst]. rewrite by_name_steps. cbn [flat_map item_steps app].
    unfold body_text. cbn [opening literals literals_text]. now rewrite sappend_nil_r.
  - destruct ks; discriminate.
  - rewrite forallb_app. apply andb_true_iff. split.
    + rewrite forallb_forall in Hks |- *. intros it (k & <- & Hk)%in_map_iff.
      now apply by_name_ok, Hks.
    + cbn [forallb item_ok]. unfold body_ok. cbn [opening literals forallb].
      now rewrite Hkeys, Hmore.
Qed.

(** What the evaluation of a sorter expression comes to: the sorter
    step on the value that the names lead to. *)
Lemma evaluate_sorter_expr py_eval (ks : list string) (keys : string) (more : list item)
      (doc coll : json) (mode : string) (rt : result_type) :
  forallb word_name ks = true ->
  bracket_text_ok (sorter_step keys) = true ->
  forallb item_ok more = true ->
  is_list doc || is_dict doc = true ->
  result_type_of mode = Some rt ->
  walk ks doc = Some coll ->
  evaluate py_eval (sorter_expr ks keys more) doc mode
  = let o := _trace py_eval rt (sorter_step keys :: flat_map item_steps more) coll
                    (fold_left path_key ks "$") in
    match raised o with Some e => Raise e | None => Ok (results o) end.
Proof.
  intros Hks Hkeys Hmore Hd Hm Hw. unfold evaluate.
  rewrite compile_sorter_expr by assumption. cbn [bind Ok].
  apply parse_same_run with (rt := rt); [exact Hd|exact Hm|].
  assert (Hf : Forall (fun k => Str.forallb Str.is_word k = true) ks).
  { apply Forall_forall. intros k Hk. rewrite forallb_forall in Hks.
    now apply word_name_inv, Hks. }
  pose proof (@trace_names_then py_eval rt ks
                (sorter_step keys :: flat_map item_steps more) Hf doc "$") as H.
  rewrite Hw in H. exact H.
Qed.

Lemma enumerate_from_has {A} (l : list A) (v : A) :
  In v l -> forall n, exists i, In (i, v) (enumerate_from n l).
Proof.
  induction l as [|x l IH]; intros H n; [contradiction|]. destruct H as [->|H].
  - exists n. now left.
  - destruct (IH H (S n)) as [i Hi]. exists i. now right.
Qed.

(** The pass of the first name is the last one: what it returns is in
    the order of the first key, and pairs with the same first key are
    in the order that the passes of the other names left them in. *)
Lemma sorter_first_key {K} (obj r0 r : list (K * json)) (k1 rest : string) :
  Str.mem ","%char k1 = false ->
  Forall (fun t => wf_json (snd t) = true) obj ->
  fst (Sorter._sorter obj rest) = Ok r0 ->
  fst (Sorter._sorter obj (k1 ++ "," ++ rest)) = Ok r ->
  Sorted (in_order k1) r /\
  forall k, wf_json k = true -> filter (tied k1 k) r = filter (tied k1 k) r0.
Proof.
  intros Hk Hwf H0 H. rewrite sorter_cons in H by exact Hk.
  assert (Hwf0 : Forall (fun t => wf_json (snd t) = true) r0).
  { eapply Permutation_Forall; [eapply sorter_perm; exact H0|exact Hwf]. }
  unfold Sorter.next_pass in H. destruct (Sorter._sorter obj rest) as [a lg0].
  cbn [fst snd] in H0, H. subst a. unfold Ok in H. cbv iota in H.
  destruct (Sorter.sort_pass k1 r0) as [r' lg] eqn:E. cbn [fst] in H. subst r'.
  assert (E' : fst (Sorter.sort_pass k1 r0) = Ok r) by now rewrite E.
  split.
  - now apply sort_pass_sorted with (obj := r0).
  - now apply sort_pass_ties.
Qed.

(** C7.  [_sorter] runs one pass per listed name, the pass of a name
    after the passes of the names listed behind it, so that the pass of
    the first name is the last one.  A pass that returns keeps every
    pair (index-or-key, value) as it is; on a well-formed collection it
    leaves the pairs in the order of its key, ascending, or descending
    for a name with a leading [~]; and it is stable: pairs whose keys
    are equal stay in the order the passes before it left them in (over
    numeric keys the pass does return).  So the first listed key decides
    the final order, and the keys behind it decide among pairs that are
    equal in it.  The sorter step of [_trace], on a sequence and on a
    mapping, visits the children in the order [_sorter] returns, each
    under its own index or key; an expression [$.k1...[/(keys)]] yields
    one entry per child in that order, the path of an entry ending in
    the index or key the child has in the document. *)
Theorem sorter_passes :
  (forall (K : Type),
    (forall (obj : list (K * json)) (k1 rest : string),
        Str.mem ","%char k1 = false ->
        Sorter._sorter obj k1 = Sorter.next_pass (Ok obj, []) k1 /\
        Sorter._sorter obj (k1 ++ "," ++ rest)
        = Sorter.next_pass (Sorter._sorter obj rest) k1) /\
    (forall (obj r : list (K * json)) (sortby : string),
        fst (Sorter.sort_pass sortby obj) = Ok r ->
        Permutation obj r /\
        (Forall (fun t => wf_json (snd t) = true) obj -> Sorted (in_order sortby) r)) /\
    (forall (obj : list (K * json)) (sortby : string),
        Forall (numeric_key sortby) obj ->
        exists r, fst (Sorter.sort_pass sortby obj) = Ok r /\
                  forall z, filter (has_key sortby z) r = filter (has_key sortby z) obj) /\
    (forall (obj r : list (K * json)) (sortbys : string),
        fst (Sorter._sorter obj sortbys) = Ok r -> Permutation obj r) /\
    (forall (obj r : list (K * json)) (sortby : string),
        Forall (fun t => wf_json (snd t) = true) obj ->
        fst (Sorter.sort_pass sortby obj) = Ok r ->
        forall k, wf_json k = true ->
                  filter (tied sortby k) r = filter (tied sortby k) obj) /\
    (forall (obj r0 r : list (K * json)) (k1 rest : string),
        Str.mem ","%char k1 = false ->
        Forall (fun t => wf_json (snd t) = true) obj ->
        fst (Sorter._sorter obj rest) = Ok r0 ->
        fst (Sorter._sorter obj (k1 ++ "," ++ rest)) = Ok r ->
        Sorted (in_order k1) r /\
        forall k, wf_json k = true -> filter (tied k1 k) r = filter (tied k1 k) r0)) /\
  (forall (l : list json) (r : list (nat * json)) (sortbys : string),
      fst (Sorter._sorter (enumerate l) sortbys) = Ok r ->
      Forall (fun t => nth_error l (fst t) = Some (snd t)) r) /\
  (forall py_eval rt (keys : string) (rest : list string) (l : list json) (path : string)
          (sorted : list (nat * json)) (lg : list exn),
      Sorter._sorter (enumerate l) keys = (Ok sorted, lg) ->
      _trace py_eval rt (sorter_step keys :: rest) (JList l) path
      = enter (log_errors lg
               >> for_items (fun idx v => _trace py_eval rt rest v (path_idx path idx))
                            sorted)) /\
  (forall py_eval rt (keys : string) (rest : list string) (kvs : list (string * json))
          (path : string) (sorted : list (string * json)) (lg : list exn),
      lookup (sorter_step keys) kvs = None ->
      Sorter._sorter kvs keys = (Ok sorted, lg) ->
      _trace py_eval rt (sorter_step keys :: rest) (JDict kvs) path
      = enter (log_errors lg
               >> for_items (fun k v => _trace py_eval rt rest v (path_key path k))
                            sorted)) /\
  (forall py_eval (ks : list string) (keys : string) (doc : json) (mode : string)
          (rt : result_type) (l : list json) (sorted : list (nat * json)) (lg : list exn),
      forallb word_name ks = true ->
      bracket_text_ok (sorter_step keys) = true ->
      is_list doc || is_dict doc = true ->
      result_type_of mode = Some rt ->
      walk ks doc = Some (JList l) ->
      Sorter._sorter (enumerate l) keys = (Ok sorted, lg) ->
      evaluate py_eval (sorter_expr ks keys []) doc mode
      = Ok (map (fun t => entry_of rt (snd t)
                                   (path_idx (fold_left path_key ks "$") (fst t)))
                sorted)) /\
  (forall py_eval (ks : list string) (keys : string) (doc : json) (mode : string)
          (rt : result_type) (kvs sorted : list (string * json)) (lg : list exn),
      forallb word_name ks = true ->
      bracket_text_ok (sorter_step keys) = true ->
      is_list doc || is_dict doc = true ->
      result_type_of mode = Some rt ->
      walk ks doc = Some (JDict kvs) ->
      lookup (sorter_step keys) kvs = None ->
      Sorter._sorter kvs keys = (Ok sorted, lg) ->
      evaluate py_eval (sorter_expr ks keys []) doc mode
      = Ok (map (fun t => entry_of rt (snd t)
                                   (path_key (fold_left path_key ks "$") (fst t)))
                sorted)).
Proof.
  split; [|split; [|split; [|split; [|split]]]].
  - intros K. split; [|split; [|split; [|split; [|split]]]].
    + intros obj k1 rest Hk. split; [now apply sorter_single|now apply sorter_cons].
    + intros obj r sortby H. split; [now apply (sort_pass_perm sortby)|].
      intros Hwf. now apply sort_pass_sorted with (obj := obj).
    + intros obj sortby. apply sort_pass_stable.
    + intros obj r sortbys. apply sorter_perm.
    + intros obj r sortby. apply sort_pass_ties.
    + intros obj r0 r k1 rest. apply sorter_first_key.
  - intros l r sortbys. apply sorter_keeps_index.
  - intros py_eval rt keys rest l path sorted lg H.
    rewrite trace_sorter_list. erewrite sorted_then_sorted; [reflexivity|exact H].
  - intros py_eval rt keys rest kvs path sorted lg Hk H.
    rewrite trace_sorter_dict by exact Hk. erewrite sorted_then_sorted; [reflexivity|exact H].
  - intros py_eval ks keys doc mode rt l sorted lg Hks Hkeys Hd Hm Hw H.
    rewrite (@evaluate_sorter_expr py_eval ks keys [] doc (JList l) mode rt)
      by auto.
    cbn [flat_map]. cbn zeta. rewrite trace_sorter_list. erewrite sorted_then_sorted; [|exact H].
    cbn [raised results enter].
    destruct (sorted_entries Str.of_nat py_eval rt (fold_left path_key ks "$") sorted lg)
      as [Hx Hr].
    unfold path_idx. rewrite Hx, Hr. reflexivity.
  - intros py_eval ks keys doc mode rt kvs sorted lg Hks Hkeys Hd Hm Hw Hk H.
    rewrite (@evaluate_sorter_expr py_eval ks keys [] doc (JDict kvs) mode rt)
      by auto.
    cbn [flat_map]. cbn zeta. rewrite trace_sorter_dict by exact Hk.
    erewrite sorted_then_sorted; [|exact H]. cbn [raised results enter].
    destruct (sorted_entries (fun k : string => k) py_eval rt
                             (fold_left path_key ks "$") sorted lg) as [Hx Hr].
    rewrite Hx, Hr. reflexivity.
Qed.

(** [[{"a": 2, "b": 1}, {"a": 1, "b": 2}, {"a": 1, "b": 1}]] sorted by
    [a,~b]: by [a] first, and by [b] descending where [a] is the same;
    the paths keep the indices of the document. *)
Lemma sorter_passes_witness :
  evaluate no_eval "$[/(a,~b)]"
           (JList [JDict [("a", JNum 2); ("b", JNum 1)];
                   JDict [("a", JNum 1); ("b", JNum 2)];
                   JDict [("a", JNum 1); ("b", JNum 1)]]) "PATH"
  = Ok [EPath "$;1"; EPath "$;2"; EPath "$;0"] /\
  evaluate no_eval "$.rows[/(a,~b)]"
           (JDict [("rows", JList [JDict [("a", JNum 2); ("b", JNum 1)];
                                   JDict [("a", JNum 1); ("b", JNum 2)];
                                   JDict [("a", JNum 1); ("b", JNum 1)]])]) "VALUE"
  = Ok [EValue (JDict [("a", JNum 1); ("b", JNum 2)]);
        EValue (JDict [("a", JNum 1); ("b", JNum 1)]);
        EValue (JDict [("a", JNum 2); ("b", JNum 1)])] /\
  Permutation
    (enumerate [JDict [("a", JNum 2); ("b", JNum 1)];
                JDict [("a", JNum 1); ("b", JNum 2)];
                JDict [("a", JNum 1); ("b", JNum 1)]])
    [(1, JDict [("a", JNum 1); ("b", JNum 2)]);
     (2, JDict [("a", JNum 1); ("b", JNum 1)]);
     (0, JDict [("a", JNum 2); ("b", JNum 1)])].
Proof.
  destruct sorter_passes as (HK & _ & _ & _ & He & _).
  pose (rows := [JDict [("a", JNum 2); ("b", JNum 1)];
                 JDict [("a", JNum 1); ("b", JNum 2)];
                 JDict [("a", JNum 1); ("b", JNum 1)]]).
  pose (sorted := [(1, JDict [("a", JNum 1); ("b", JNum 2)]);
                   (2, JDict [("a", JNum 1); ("b", JNum 1)]);
                   (0, JDict [("a", JNum 2); ("b", JNum 1)])]).
  split; [|split].
  - exact (He no_eval [] "a,~b" (JList rows) "PATH" PATH rows sorted []
              eq_refl eq_refl eq_refl eq_refl eq_refl eq_refl).
  - exact (He no_eval ["rows"] "a,~b" (JDict [("rows", JList rows)]) "VALUE" VALUE
              rows sorted [] eq_refl eq_refl eq_refl eq_refl eq_refl eq_refl).
  - apply (proj1 (proj2 (proj2 (proj2 (HK nat)))) _ _ "a,~b"). reflexivity.
Defined.

(** ** C8: a sort field that is missing *)

Lemma trace_sorter_null_list py_eval rt (keys sortby : string) (rest : list string)
      (l : list json) (path : string) (v : json) :
  2 <= List.length l -> In sortby (Str.split ","%char keys) ->
  In v l -> Sorter.sort_key sortby v = JNull ->
  raised (_trace py_eval rt (sorter_step keys :: rest) (JList l) path) = Some TypeError /\
  results (_trace py_eval rt (sorter_step keys :: rest) (JList l) path) = [].
Proof.
  intros Hlen Hin Hv Hn. rewrite trace_sorter_list. cbn [raised results enter].
  apply sorted_then_raised. destruct (enumerate_from_has l v Hv 0) as [i Hi].
  unfold Sorter._sorter.
  apply (@sorter_fold_null _ (enumerate l) sortby (i, v)); auto.
  - unfold enumerate. now rewrite length_enumerate_from.
  - now apply in_rev in Hin.
Qed.

Lemma trace_sorter_null_dict py_eval rt (keys sortby : string) (rest : list string)
      (kvs : list (string * json)) (path : string) (k : string) (v : json) :
  lookup (sorter_step keys) kvs = None ->
  2 <= List.length kvs -> In sortby (Str.split ","%char keys) ->
  In (k, v) kvs -> Sorter.sort_key sortby v = JNull ->
  raised (_trace py_eval rt (sorter_step keys :: rest) (JDict kvs) path) = Some TypeError /\
  results (_trace py_eval rt (sorter_step keys :: rest) (JDict kvs) path) = [].
Proof.
  intros Hk Hlen Hin Hv Hn. rewrite trace_sorter_dict by exact Hk.
  cbn [raised results enter]. apply sorted_then_raised.
  unfold Sorter._sorter.
  apply (@sorter_fold_null _ kvs sortby (k, v)); auto.
  now apply in_rev in Hin.
Qed.

(** C8 (the code departs from the claim).  The dotted lookup of a sort
    field never fails: a field that is missing yields [None], and so
    does, with a log entry, a field looked up in a value that is no
    mapping.  But [None] is ordered against no
    value, itself included: the comparison raises [TypeError].  Hence a
    sorter over two or more elements, one of which lacks one of the sort
    fields, raises [TypeError]: the sorter step of [_trace] raises it
    and yields no result, on a sequence and on a mapping, whatever steps
    follow, and the evaluation of an expression [$.k1...[/(keys)]...]
    that reaches such a collection ends with [TypeError].  Over fewer
    than two elements no comparison is made, the sorter returns the
    collection as it is and every element is traversed. *)
Theorem sorter_missing_field :
  (forall kvs k,
      Str.mem "."%char k = false -> lookup k kvs = None ->
      Sorter._getattr (JDict kvs) k = (JNull, [])) /\
  (forall obj path,
      is_dict obj = false -> Sorter._getattr obj path = (JNull, [AttributeError])) /\
  (forall v,
      Sorter.py_lt JNull v = Raise TypeError /\ Sorter.py_lt v JNull = Raise TypeError) /\
  (forall (K : Type) (obj : list (K * json)) (sortbys sortby : string) (t : K * json),
      2 <= List.length obj ->
      In sortby (Str.split ","%char sortbys) ->
      In t obj -> Sorter.sort_key sortby (snd t) = JNull ->
      fst (Sorter._sorter obj sortbys) = Raise TypeError) /\
  (forall (K : Type) (visit : K -> json -> Out) (obj : list (K * json)) (sortbys : string),
      List.length obj <= 1 ->
      fst (Sorter._sorter obj sortbys) = Ok obj /\
      same_run (sorted_then visit obj sortbys)
               (log_errors (snd (Sorter._sorter obj sortbys)) >> for_items visit obj)) /\
  (forall py_eval rt (keys sortby : string) (rest : list string) (l : list json)
          (path : string) (v : json),
      2 <= List.length l -> In sortby (Str.split ","%char keys) ->
      In v l -> Sorter.sort_key sortby v = JNull ->
      raised (_trace py_eval rt (sorter_step keys :: rest) (JList l) path) = Some TypeError /\
      results (_trace py_eval rt (sorter_step keys :: rest) (JList l) path) = []) /\
  (forall py_eval rt (keys sortby : string) (rest : list string)
          (kvs : list (string * json)) (path : string) (k : string) (v : json),
      lookup (sorter_step keys) kvs = None ->
      2 <= List.length kvs -> In sortby (Str.split ","%char keys) ->
      In (k, v) kvs -> Sorter.sort_key sortby v = JNull ->
      raised (_trace py_eval rt (sorter_step keys :: rest) (JDict kvs) path) = Some TypeError /\
      results (_trace py_eval rt (sorter_step keys :: rest) (JDict kvs) path) = []) /\
  (forall py_eval (ks : list string) (keys sortby : string) (more : list item)
          (doc : json) (mode : string) (rt : result_type) (l : list json) (v : json),
      forallb word_name ks = true ->
      bracket_text_ok (sorter_step keys) = true ->
      forallb item_ok more = true ->
      is_list doc || is_dict doc = true ->
      result_type_of mode = Some rt ->
      walk ks doc = Some (JList l) ->
      2 <= List.length l -> In sortby (Str.split ","%char keys) ->
      In v l -> Sorter.sort_key sortby v = JNull ->
      evaluate py_eval (sorter_expr ks keys more) doc mode = Raise TypeError) /\
  (forall py_eval (ks : list string) (keys sortby : string) (more : list item)
          (doc : json) (mode : string) (rt : result_type)
          (kvs : list (string * json)) (k : string) (v : json),
      forallb word_name ks = true ->
      bracket_text_ok (sorter_step keys) = true ->
      forallb item_ok more = true ->
      is_list doc || is_dict doc = true ->
      result_type_of mode = Some rt ->
      walk ks doc = Some (JDict kvs) ->
      lookup (sorter_step keys) kvs = None ->
      2 <= List.length kvs -> In sortby (Str.split ","%char keys) ->
      In (k, v) kvs -> Sorter.sort_key sortby v = JNull ->
      evaluate py_eval (sorter_expr ks keys more) doc mode = Raise TypeError).
Proof.
  split; [|split; [|split; [|split; [|split; [|split; [|split; [|split]]]]]]].
  - intros kvs k Hk Hl. unfold Sorter._getattr. rewrite (split_no_sep _ _ Hk).
    simpl. now rewrite Hl.
  - intros obj path Hd. unfold Sorter._getattr.
    destruct (Str.split "."%char path) as [|k ks] eqn:E; [now apply split_not_nil in E|].
    destruct obj; try reflexivity. discriminate.
  - intros v. split; [apply py_lt_null_l|apply py_lt_null_r].
  - intros K obj sortbys sortby t Hlen Hin Ht Hn. unfold Sorter._sorter.
    eapply sorter_fold_null; [exact Hlen|exact Ht|exact Hn| |apply Permutation_refl].
    now apply in_rev in Hin.
  - intros K visit obj sortbys Hlen.
    pose proof (sorter_short obj sortbys Hlen) as Hs. split; [exact Hs|].
    unfold sorted_then. destruct (Sorter._sorter obj sortbys) as [r lg].
    simpl in Hs. subst r. apply same_run_refl.
  - intros py_eval rt keys sortby rest l path v.
    apply trace_sorter_null_list.
  - intros py_eval rt keys sortby rest kvs path k v.
    apply trace_sorter_null_dict.
  - intros py_eval ks keys sortby more doc mode rt l v Hks Hkeys Hmore Hd Hm Hw Hlen Hin Hv Hn.
    rewrite (@evaluate_sorter_expr py_eval ks keys more doc (JList l) mode rt) by auto.
    cbn zeta.
    destruct (@trace_sorter_null_list py_eval rt keys sortby (flat_map item_steps more) l
                (fold_left path_key ks "$") v Hlen Hin Hv Hn) as [Hx _].
    now rewrite Hx.
  - intros py_eval ks keys sortby more doc mode rt kvs k v
           Hks Hkeys Hmore Hd Hm Hw Hk Hlen Hin Hv Hn.
    rewrite (@evaluate_sorter_expr py_eval ks keys more doc (JDict kvs) mode rt) by auto.
    cbn zeta.
    destruct (@trace_sorter_null_dict py_eval rt keys sortby (flat_map item_steps more) kvs
                (fold_left path_key ks "$") k v Hk Hlen Hin Hv Hn) as [Hx _].
    now rewrite Hx.
Qed.

(** [[{"a": 3}, {}]] sorted by [a]: the second element has no field
    [a], and the evaluation ends with [TypeError]; a sequence of one
    element is returned as it is. *)
Lemma sorter_missing_field_witness :
  evaluate no_eval "$[/(a)]" (JList [JDict [("a", JNum 3)]; JDict []]) "VALUE"
  = Raise TypeError /\
  evaluate no_eval "$.rows[/(a)].a"
           (JDict [("rows", JList [JDict [("a", JNum 3)]; JDict []])]) "VALUE"
  = Raise TypeError /\
  fst (Sorter._sorter (enumerate [JDict [("a", JNum 3)]; JDict []]) "a")
  = Raise TypeError /\
  fst (Sorter._sorter (enumerate [JDict []]) "a") = Ok (enumerate [JDict []]).
Proof.
  destruct sorter_missing_field as (_ & _ & _ & H2 & H1 & _ & _ & He & _).
  split; [|split; [|split]].
  - apply (He no_eval [] "a" "a" [] (JList [JDict [("a", JNum 3)]; JDict []]) "VALUE" VALUE
              [JDict [("a", JNum 3)]; JDict []] (JDict []));
      try reflexivity; simpl; auto.
  - apply (He no_eval ["rows"] "a" "a" [by_name "a"]
              (JDict [("rows", JList [JDict [("a", JNum 3)]; JDict []])]) "VALUE" VALUE
              [JDict [("a", JNum 3)]; JDict []] (JDict []));
      try reflexivity; simpl; auto.
  - apply (H2 nat (enumerate [JDict [("a", JNum 3)]; JDict []]) "a" "a" (1, JDict [])).
    + simpl. lia.
    + now left.
    + simpl. auto.
    + reflexivity.
  - apply (H1 nat (fun _ _ => skip) (enumerate [JDict []]) "a"). simpl. lia.
Defined.

(** ** C3: the witness and the counterexamples *)

(** [$.a['b.c'].d], a literal inside a filter, a literal in dot notation
    after [..], and three groups compiled after another expression. *)
Lemma escaping_round_trip_witness :
  expression [by_name "a"; InBrackets (mkBody "" [("b.c", "")]); by_name "d"]
  = "$.a['b.c'].d" /\
  Compiler.compile "$.a['b.c'].d" = Ok ["a"; "b.c"; "d"] /\
  Compiler.compile "$.book[?(@.author=='a.b')]" = Ok ["book"; "?(@.author==a.b)"] /\
  Compiler.compile "$..'a.b'[x['y.z'#B7]" = Ok [".."; "a.b"; "x[y.z#B7"] /\
  Compiler.compile_after ["$['k']"] "$['a.b'][c.d]['x[0].y']" = Ok ["a.b"; "c.d"; "x[0].y"].
Proof.
  split; [reflexivity|]. split; [|split; [|split]].
  - apply (proj1 (@escaping_round_trip Compiler.subx0
             [by_name "a"; InBrackets (mkBody "" [("b.c", "")]); by_name "d"]
             ltac:(discriminate) eq_refl)).
  - apply (proj1 (@escaping_round_trip Compiler.subx0
             [by_name "book"; InBrackets (mkBody "?(@.author==" [("a.b", ")")])]
             ltac:(discriminate) eq_refl)).
  - apply (proj1 (@escaping_round_trip Compiler.subx0
             [ByDot true (mkBody "" [("a.b", "")]); InBrackets (mkBody "x[" [("y.z", "#B7")])]
             ltac:(discriminate) eq_refl)).
  - apply (proj1 (@escaping_round_trip (snd (Compiler.compile_in Compiler.subx0 "$['k']"))
             [InBrackets (mkBody "" [("a.b", "")]); InBrackets (mkBody "c.d" []);
              InBrackets (mkBody "" [("x[0].y", "")])]
             ltac:(discriminate) eq_refl)).
Defined.

(** C3 (counterexample).  The quoted literal [a;b] holds the step
    separator: it is restored before the expression is split at the
    separators, and comes out as the two steps [a] and [b]; so does the
    plain group [[a;b]].  A literal or a group that holds a newline is
    not picked up, and its dot splits it.  A digit right after a literal
    is read as part of the placeholder's number: [$['a.b'1]] raises
    [IndexError] and [$['a.b'0]] loses the digit.  Text that reads as a
    placeholder is replaced by an entry of the table. *)
Lemma separator_in_literal_is_split :
  Compiler.compile "$['a;b']" = Ok ["a"; "b"] /\
  existsb (String.eqb "a;b") ["a"; "b"] = false /\
  Compiler.compile "$[a;b]" = Ok ["a"; "b"] /\
  Compiler.compile ("$['a" +++ String Str.newline ".b']")
  = Ok ["$['a" +++ String Str.newline EmptyString; "b']"] /\
  Compiler.compile ("$[a" +++ String Str.newline ".b]")
  = Ok ["$[a" +++ String Str.newline EmptyString; "b]"] /\
  Compiler.compile "$['a.b'1]" = Raise IndexError /\
  Compiler.compile "$['a.b'0]" = Ok ["a.b"] /\
  Compiler.compile "$['a.b'][#Q0]" = Ok ["a.b"; "a.b"] /\
  Compiler.compile "$.#Q0['a.b']" = Ok ["a.b"; "a.b"] /\
  Compiler.compile "$.#B0[x.y]" = Ok ["x.y"; "x.y"].
Proof. repeat split; reflexivity. Qed.
